(** * Minesweeper board engine (ctext/minesweeper.c)

    A shallow embedding of the board engine of the text-mode minesweeper:
    [board_init], [board_reveal], [board_mark] and [board_check_game_state],
    written in a small state-and-error monad over the [Board] structure, and
    the properties of the engine proved about that embedding.

    C integers are modelled as [Z] with the conversions the program performs
    written out ([to_uint], [to_int], [to_u16], [to_u8]); the two fixed-size
    arrays of [struct Board] are lists indexed through checked accesses, so
    an access outside an array is an [Undefined] result rather than a value.
    The functions take the board through a pointer and update it in place:
    here they are computations in the monad [M], from a board to a result
    and the board they leave.

    The text front end of the same file, [view_draw], [view_input] and
    [main], follows the engine: computations in a second monad [IO] over
    the board and the two standard streams. *)

From Stdlib Require Import ZArith Lia.
From stdpp Require Import base tactics option list list_numbers strings.

Local Open Scope Z_scope.

(** ** Constants and data (minesweeper.c, lines 23-43) *)

Definition MAX_BOARD_SIZE : Z := 26.
Definition MAX_BOARD_AREA : Z := MAX_BOARD_SIZE * MAX_BOARD_SIZE.

Definition CELL_MINE : Z := 255.
Definition CELL_EMPTY : Z := 0.

Inductive OverlayCell : Type :=
| OverlayCellHidden
| OverlayCellVisible
| OverlayCellMarked.

Global Instance OverlayCell_eq_dec : EqDecision OverlayCell.
Proof. solve_decision. Defined.

(** [struct Board]: [size] is a [uint8_t], [cells] holds [MAX_BOARD_AREA]
    bytes and [overlay] holds [MAX_BOARD_AREA] enumeration values. *)
Record Board : Type := mkBoard {
  size : Z;
  cells : list Z;
  overlay : list OverlayCell
}.

Inductive GameState : Type :=
| GameStateUnfinished
| GameStateWon
| GameStateLost.

(** The storage size of [enum OverlayCell]: that of [int] on the platforms
    the program is built for.  It only matters to [memset], which counts
    bytes. *)
Definition sizeof_OverlayCell : Z := 4.

(** [static struct Board board = {0};] (line 45). *)
Definition board0 : Board :=
  mkBoard 0 (replicate (Z.to_nat MAX_BOARD_AREA) 0)
            (replicate (Z.to_nat MAX_BOARD_AREA) OverlayCellHidden).

(** ** Integer conversions *)

(** Conversions to [uint8_t], [uint16_t] (and [unsigned short]),
    [unsigned int] and [int]. *)

Definition to_u8 (v : Z) : Z := v mod 2 ^ 8.
Definition to_u16 (v : Z) : Z := v mod 2 ^ 16.
Definition to_uint (v : Z) : Z := v mod 2 ^ 32.
Definition to_int (v : Z) : Z :=
  let u := v mod 2 ^ 32 in if u <? 2 ^ 31 then u else u - 2 ^ 32.

(** ** Results and the board monad *)

(** A computation returns normally ([Ok]), has no defined behaviour (an
    access outside an array, a failed [assert]), or, for the recursion of
    [board_reveal], exhausts the depth it was given. *)

Inductive result (A : Type) : Type :=
| Ok (a : A)
| Undefined
| OutOfFuel.
Arguments Ok {A} a.
Arguments Undefined {A}.
Arguments OutOfFuel {A}.

Definition M (A : Type) : Type := Board → result (A * Board).

Global Instance M_ret : MRet M := λ A a b, Ok (a, b).
Global Instance M_bind : MBind M := λ A B k m b,
  match m b with
  | Ok (a, b') => k a b'
  | Undefined => Undefined
  | OutOfFuel => OutOfFuel
  end.

Definition lift {A} (r : result A) : M A := λ b,
  match r with
  | Ok a => Ok (a, b)
  | Undefined => Undefined
  | OutOfFuel => OutOfFuel
  end.

Definition assert (c : bool) : M unit :=
  λ b, if c then Ok (tt, b) else Undefined.

(** Checked array accesses. *)
Definition load {A} (a : list A) (n : Z) : result A :=
  if 0 <=? n then
    match a !! Z.to_nat n with
    | Some v => Ok v
    | None => Undefined
    end
  else Undefined.

Definition store {A} (a : list A) (n : Z) (v : A) : result (list A) :=
  if (0 <=? n) && (n <? Z.of_nat (length a))
  then Ok (<[Z.to_nat n := v]> a)
  else Undefined.

(** [memset] over the first [k] elements of an array; the program only
    writes the byte 0, the representation of [CELL_EMPTY] and of
    [OverlayCellHidden]. *)
Definition memset {A} (a : list A) (v : A) (k : Z) : result (list A) :=
  if (0 <=? k) && (k <=? Z.of_nat (length a))
  then Ok (replicate (Z.to_nat k) v ++ drop (Z.to_nat k) a)
  else Undefined.

Definition get_size : M Z := λ b, Ok (size b, b).
Definition set_size (s : Z) : M unit :=
  λ b, Ok (tt, mkBoard s (cells b) (overlay b)).

Definition load_cell (n : Z) : M Z := λ b, lift (load (cells b) n) b.
Definition load_overlay (n : Z) : M OverlayCell :=
  λ b, lift (load (overlay b) n) b.

Definition store_cell (n v : Z) : M unit := λ b,
  match store (cells b) n v with
  | Ok c => Ok (tt, mkBoard (size b) c (overlay b))
  | Undefined => Undefined
  | OutOfFuel => OutOfFuel
  end.

Definition store_overlay (n : Z) (v : OverlayCell) : M unit := λ b,
  match store (overlay b) n v with
  | Ok o => Ok (tt, mkBoard (size b) (cells b) o)
  | Undefined => Undefined
  | OutOfFuel => OutOfFuel
  end.

Definition memset_cells (v k : Z) : M unit := λ b,
  match memset (cells b) v k with
  | Ok c => Ok (tt, mkBoard (size b) c (overlay b))
  | Undefined => Undefined
  | OutOfFuel => OutOfFuel
  end.

(** [memset] on [overlay] with a count of [k] bytes resets the
    [k / sizeof_OverlayCell] entries those bytes cover. *)
Definition memset_overlay (v : OverlayCell) (k : Z) : M unit := λ b,
  match memset (overlay b) v (k / sizeof_OverlayCell) with
  | Ok o => Ok (tt, mkBoard (size b) (cells b) o)
  | Undefined => Undefined
  | OutOfFuel => OutOfFuel
  end.

(** ** Loops *)

(** The body runs once per index, in order, threading an accumulator (the
    local variables the loop updates) and the board.  The bounds of every
    loop of the engine are fixed while it runs: they depend on the
    arguments and on [size], which only [board_init] writes, before its
    loops. *)
Fixpoint iter {A} (body : Z → A → M A) (idxs : list Z) (a : A) : M A :=
  match idxs with
  | [] => mret a
  | i :: idxs' => a' ← body i a; iter body idxs' a'
  end.

(** [for (i = lo; i < hi; i++)] *)
Definition for_acc {A} (lo hi : Z) (body : Z → A → M A) (a : A) : M A :=
  iter body (seqZ lo (hi - lo)) a.

Definition for_ (lo hi : Z) (body : Z → M unit) : M unit :=
  for_acc lo hi (λ i _, body i) tt.

(** A loop whose body may [return v] from the enclosing function. *)
Fixpoint iter_until {R} (body : Z → M (option R)) (idxs : list Z)
  : M (option R) :=
  match idxs with
  | [] => mret None
  | i :: idxs' =>
      r ← body i;
      match r with
      | Some v => mret (Some v)
      | None => iter_until body idxs'
      end
  end.

Definition for_until {R} (lo hi : Z) (body : Z → M (option R))
  : M (option R) :=
  iter_until body (seqZ lo (hi - lo)).

(** ** board_init (lines 47-97) *)

(** The inside-out Fisher-Yates shuffle of lines 64-71:
<<
    uint16_t shuffled_indices[MAX_BOARD_AREA] = {0};
    for (size_t i = 0; i < min(area, MAX_BOARD_AREA); i++)
    {
        uint16_t j = rand() % (i + 1);
        if (j != i)
            shuffled_indices[i] = shuffled_indices[j];
        shuffled_indices[j] = i;
    }
>>
    [rand k] is the value of the [k]-th call of [rand()], a non-negative
    [int]. *)
Definition shuffle (rand : nat → nat) (area : Z) : M (list Z) :=
  for_acc 0 (Z.min area MAX_BOARD_AREA)
    (λ i sh,
       let j := to_u16 (Z.of_nat (rand (Z.to_nat i)) mod (i + 1)) in
       sh1 ← (if j =? i then mret sh
              else v ← lift (load sh j); lift (store sh i v));
       lift (store sh1 j (to_u16 i)))
    (replicate (Z.to_nat MAX_BOARD_AREA) 0).

(** Lines 73-76:
<<
    for (size_t i = 0; i < num_mines; i++)
        board->cells[shuffled_indices[i]] = CELL_MINE;
>> *)
Definition place_mines (sh : list Z) (num_mines : Z) : M unit :=
  for_ 0 num_mines (λ i, k ← lift (load sh i); store_cell k CELL_MINE).

(** Lines 85-93, the mines in the 3x3 block around [(x, y)], the cell
    itself skipped:
<<
    unsigned short int count = 0;
    for (int j = max(0, y - 1); j < min(board->size, y + 2); j++)
        for (int i = max(0, x - 1); i < min(board->size, x + 2); i++)
        {
            if (i == x && j == y)
                continue;
            if (board->cells[j * board->size + i] == CELL_MINE)
                count += 1;
        }
>> *)
Definition count_mines (x y : Z) : M Z :=
  sz ← get_size;
  for_acc (Z.max 0 (y - 1)) (Z.min sz (y + 2))
    (λ j count,
       for_acc (Z.max 0 (x - 1)) (Z.min sz (x + 2))
         (λ i count,
            if (i =? x) && (j =? y) then mret count
            else
              c ← load_cell (j * sz + i);
              mret (if c =? CELL_MINE then to_u16 (count + 1) else count))
         count)
    0.

(** Lines 79-96:
<<
    for (int y = 0; y < board->size; y++)
        for (int x = 0; x < board->size; x++)
        {
            size_t n = y * board->size + x;
            if (board->cells[n] != CELL_MINE)
            {
                ... count ...
                board->cells[n] = count;
            }
        }
>> *)
Definition number_cells : M unit :=
  sz ← get_size;
  for_ 0 sz (λ y,
    for_ 0 sz (λ x,
      let n := y * sz + x in
      c ← load_cell n;
      if c =? CELL_MINE then mret tt
      else count ← count_mines x y; store_cell n (to_u8 count))).

(** Lines 47-56, followed by the three phases above:
<<
    assert(size > 0 && size <= MAX_BOARD_SIZE);
    board->size = size;
    memset(board->cells, 0, MAX_BOARD_AREA);
    memset(board->overlay, (unsigned char)OverlayCellHidden, MAX_BOARD_AREA);
    uint16_t area = (uint16_t)size * size;
>>
    [size] is a [uint8_t] and [num_mines] a [uint16_t]. *)
Definition board_init (size : Z) (num_mines : Z) (rand : nat → nat)
  : M unit :=
  assert ((0 <? size) && (size <=? MAX_BOARD_SIZE));;
  set_size size;;
  memset_cells 0 MAX_BOARD_AREA;;
  memset_overlay OverlayCellHidden MAX_BOARD_AREA;;
  let area := to_u16 (size * size) in
  sh ← shuffle rand area;
  place_mines sh num_mines;;
  number_cells.

(** ** board_reveal (lines 99-113) *)

(**
<<
    void board_reveal(struct Board* board, unsigned int x, unsigned int y)
    {
        unsigned int n = y * board->size + x;
        if (board->overlay[n])
            return;
        board->overlay[n] = OverlayCellVisible;
        if (board->cells[n] == CELL_EMPTY)
            for (int j = max((int)y - 1, 0); j < min((int)y + 2, board->size); j++)
                for (int i = max((int)x - 1, 0); i < min((int)x + 2, board->size); i++)
                    board_reveal(board, i, j);
    }
>>
    The recursion is not structural; [fuel] bounds its depth. *)
Fixpoint board_reveal_rec (fuel : nat) (x y : Z) : M unit :=
  match fuel with
  | O => λ _, OutOfFuel
  | S fuel' =>
      sz ← get_size;
      let n := to_uint (y * sz + x) in
      o ← load_overlay n;
      match o with
      | OverlayCellHidden =>
          store_overlay n OverlayCellVisible;;
          c ← load_cell n;
          if c =? CELL_EMPTY then
            for_ (Z.max (to_int y - 1) 0) (Z.min (to_int y + 2) sz) (λ j,
              for_ (Z.max (to_int x - 1) 0) (Z.min (to_int x + 2) sz) (λ i,
                board_reveal_rec fuel' (to_uint i) (to_uint j)))
          else mret tt
      | _ => mret tt
      end
  end.

(** Each nested call runs after one more cell has left the Hidden state, so
    a depth of one more than the number of overlay entries is never
    reached. *)
Definition board_reveal (x y : Z) : M unit :=
  board_reveal_rec (S (Z.to_nat MAX_BOARD_AREA)) x y.

(** ** board_mark (lines 115-129) *)

(**
<<
    size_t n = y * board->size + x;
    switch (board->overlay[n])
    {
        case OverlayCellHidden:  board->overlay[n] = OverlayCellMarked; break;
        case OverlayCellMarked:  board->overlay[n] = OverlayCellHidden; break;
        case OverlayCellVisible: break;
    }
>>
    [x] and [y] are [unsigned int], and so is the index expression before
    it is converted to [size_t]. *)
Definition board_mark (x y : Z) : M unit :=
  sz ← get_size;
  let n := to_uint (y * sz + x) in
  o ← load_overlay n;
  match o with
  | OverlayCellHidden => store_overlay n OverlayCellMarked
  | OverlayCellMarked => store_overlay n OverlayCellHidden
  | OverlayCellVisible => mret tt
  end.

(** ** board_check_game_state (lines 138-157) *)

(** Two scans of the board in row-major order, each leaving the function
    at its first hit:
<<
    if ((board->overlay[n] == OverlayCellVisible) && (board->cells[n] == CELL_MINE))
        return GameStateLost;
    ...
    if ((board->overlay[n] == OverlayCellHidden) && (board->cells[n] != CELL_MINE))
        return GameStateUnfinished;
    ...
    return GameStateWon;
>>
    with [n = y * board->size + x] computed on [unsigned int]. *)
Definition board_check_game_state : M GameState :=
  sz ← get_size;
  r ← for_until 0 sz (λ y,
         for_until 0 sz (λ x,
           let n := to_uint (y * sz + x) in
           o ← load_overlay n;
           if bool_decide (o = OverlayCellVisible) then
             c ← load_cell n;
             if c =? CELL_MINE then mret (Some GameStateLost) else mret None
           else mret None));
  match r with
  | Some g => mret g
  | None =>
      r ← for_until 0 sz (λ y,
             for_until 0 sz (λ x,
               let n := to_uint (y * sz + x) in
               o ← load_overlay n;
               if bool_decide (o = OverlayCellHidden) then
                 c ← load_cell n;
                 if negb (c =? CELL_MINE) then mret (Some GameStateUnfinished)
                 else mret None
               else mret None));
      match r with
      | Some g => mret g
      | None => mret GameStateWon
      end
  end.

(** ** Well-formed boards and coordinates *)

(** The invariant of a [struct Board]: both arrays have their declared
    length and [size] is within the bound [board_init] asserts. *)
Record wf (b : Board) : Prop := mk_wf {
  wf_size : 0 ≤ size b ≤ MAX_BOARD_SIZE;
  wf_cells : length (cells b) = Z.to_nat MAX_BOARD_AREA;
  wf_overlay : length (overlay b) = Z.to_nat MAX_BOARD_AREA
}.

Definition in_range (b : Board) (x y : Z) : Prop :=
  (0 ≤ x < size b) ∧ (0 ≤ y < size b).

(** Row-major index of [(x, y)]. *)
Definition idx (b : Board) (x y : Z) : nat := Z.to_nat (y * size b + x).

Definition cell_at (b : Board) (x y : Z) : option Z := cells b !! idx b x y.
Definition overlay_at (b : Board) (x y : Z) : option OverlayCell :=
  overlay b !! idx b x y.

(** The cells of the 3x3 block around [(x, y)]. *)
Definition adjacent (x y x' y' : Z) : Prop :=
  (x - 1 ≤ x' ≤ x + 1) ∧ (y - 1 ≤ y' ≤ y + 1).

(** The toggle of [board_mark] on one overlay entry. *)
Definition toggle (o : OverlayCell) : OverlayCell :=
  match o with
  | OverlayCellHidden => OverlayCellMarked
  | OverlayCellMarked => OverlayCellHidden
  | OverlayCellVisible => OverlayCellVisible
  end.

(** ** A weakest-precondition reading of the monad *)

(** [wp m Q b]: from board [b] the computation [m] returns normally, with a
    value and a board that satisfy [Q]. *)
Definition wp {A} (m : M A) (Q : A → Board → Prop) (b : Board) : Prop :=
  ∃ a b', m b = Ok (a, b') ∧ Q a b'.

(** Cells that decide the state of the game. *)
Definition visible_mine (b : Board) (x y : Z) : Prop :=
  cell_at b x y = Some CELL_MINE ∧ overlay_at b x y = Some OverlayCellVisible.

Definition hidden_safe (b : Board) (x y : Z) : Prop :=
  (∃ c, cell_at b x y = Some c ∧ c ≠ CELL_MINE) ∧
  overlay_at b x y = Some OverlayCellHidden.

(** The game loop asks for the state of the game after every reveal; [k]
    queries in a row. *)
Fixpoint check_repeatedly (k : nat) : M (list GameState) :=
  match k with
  | O => mret []
  | S k' =>
      g ← board_check_game_state;
      gs ← check_repeatedly k';
      mret (g :: gs)
  end.

(** ** The overlay during a flood *)

(** The number of Hidden entries of the overlay. *)
Definition hidden_count (b : Board) : nat :=
  length (filter (λ o, o = OverlayCellHidden) (overlay b)).

(** [opened P b b']: board [b'] is board [b] with some of its Hidden cells
    made Visible, all of them cells of the board that satisfy [P]. *)
Record opened (P : Z → Z → Prop) (b b' : Board) : Prop := mk_opened {
  opened_size : size b' = size b;
  opened_cells : cells b' = cells b;
  opened_length : length (overlay b') = length (overlay b);
  opened_overlay : ∀ n,
    overlay b' !! n = overlay b !! n ∨
    (overlay b !! n = Some OverlayCellHidden ∧
     overlay b' !! n = Some OverlayCellVisible ∧
     ∃ x y, in_range b x y ∧ n = idx b x y ∧ P x y)
}.

(** [P] is closed under the step of the flood: from an empty cell to the
    cells of the block around it. *)
Definition spreads (b : Board) (P : Z → Z → Prop) : Prop :=
  ∀ x y x' y',
    P x y → in_range b x y → cell_at b x y = Some CELL_EMPTY →
    in_range b x' y' → adjacent x y x' y' → P x' y'.

(** Every Visible empty cell outside [A] has no Hidden cell in the block
    around it. *)
Definition closed_except (A : Z → Z → Prop) (b : Board) : Prop :=
  ∀ x y x' y',
    in_range b x y → overlay_at b x y = Some OverlayCellVisible →
    cell_at b x y = Some CELL_EMPTY → ¬ A x y →
    in_range b x' y' → adjacent x y x' y' →
    overlay_at b x' y' ≠ Some OverlayCellHidden.

(** The overlay entries that the [memset] of line 54 covers. *)
Definition overlay_reset : nat := Z.to_nat (MAX_BOARD_AREA / sizeof_OverlayCell).

(** The number of cells that hold the mine sentinel. *)
Definition mine_count (b : Board) : nat :=
  length (filter (λ c, c = CELL_MINE) (cells b)).

(** ** The numbering of a board and the region of a flood *)

(** One if [(x, y)] is a cell of the board that holds a mine, zero if it
    holds none or lies off the board. *)
Definition mine_at (b : Board) (x y : Z) : Z :=
  if (0 <=? x) && (x <? size b) && (0 <=? y) && (y <? size b)
     && bool_decide (cell_at b x y = Some CELL_MINE)
  then 1 else 0.

(** The number of mines among the eight neighbours of [(x, y)], the
    neighbours off the board counting for none. *)
Definition neighbour_mines (b : Board) (x y : Z) : Z :=
  mine_at b (x - 1) (y - 1) + mine_at b x (y - 1) + mine_at b (x + 1) (y - 1)
  + mine_at b (x - 1) y + mine_at b (x + 1) y
  + mine_at b (x - 1) (y + 1) + mine_at b x (y + 1) + mine_at b (x + 1) (y + 1).

(** The invariant of the cell values: a cell that is not a mine holds the
    number of mines around it. *)
Definition numbered (b : Board) : Prop :=
  ∀ x y c, in_range b x y → cell_at b x y = Some c → c ≠ CELL_MINE →
           c = neighbour_mines b x y.

Definition all_hidden (b : Board) : Prop :=
  Forall (λ o, o = OverlayCellHidden) (overlay b).

(** [numbering b b']: board [b'] is board [b] with some of the cells that
    are not mines overwritten by the number of mines around them. *)
Record numbering (b b' : Board) : Prop := mk_numbering {
  numbering_size : size b' = size b;
  numbering_overlay : overlay b' = overlay b;
  numbering_length : length (cells b') = length (cells b);
  numbering_cells : ∀ n,
    cells b' !! n = cells b !! n ∨
    ((∃ c, cells b !! n = Some c ∧ c ≠ CELL_MINE) ∧
     ∃ x y, in_range b x y ∧ n = idx b x y ∧
            cells b' !! n = Some (neighbour_mines b x y))
}.

(** The sum of [f] over a list of indices. *)
Definition sumZ (f : Z → Z) (l : list Z) : Z :=
  foldr (λ i acc, f i + acc) 0 l.

(** The empty cells connected to [(x0, y0)] through empty cells, a step
    going to one of the eight neighbours. *)
Inductive zero_region (b : Board) (x0 y0 : Z) : Z → Z → Prop :=
| zero_region_start : zero_region b x0 y0 x0 y0
| zero_region_step x y x' y' :
    zero_region b x0 y0 x y →
    in_range b x' y' → adjacent x y x' y' →
    cell_at b x' y' = Some CELL_EMPTY →
    zero_region b x0 y0 x' y'.

(** The numbered cells, neither empty nor mines, next to the region. *)
Definition numbered_border (b : Board) (x0 y0 x y : Z) : Prop :=
  (∃ c, cell_at b x y = Some c ∧ c ≠ CELL_EMPTY ∧ c ≠ CELL_MINE) ∧
  ∃ x' y', zero_region b x0 y0 x' y' ∧ adjacent x' y' x y.

Definition flooded (b : Board) (x0 y0 x y : Z) : Prop :=
  zero_region b x0 y0 x y ∨ numbered_border b x0 y0 x y.

(** ** The visits of a flood *)

(** [board_reveal_rec] with a record of its visits: the same computation,
    which also appends to [log] the index of every overlay entry it
    writes, in the order of the writes. *)
Fixpoint board_reveal_log (fuel : nat) (x y : Z) (log : list nat)
  : M (list nat) :=
  match fuel with
  | O => λ _, OutOfFuel
  | S fuel' =>
      sz ← get_size;
      let n := to_uint (y * sz + x) in
      o ← load_overlay n;
      match o with
      | OverlayCellHidden =>
          store_overlay n OverlayCellVisible;;
          c ← load_cell n;
          if c =? CELL_EMPTY then
            for_acc (Z.max (to_int y - 1) 0) (Z.min (to_int y + 2) sz)
              (λ j log,
                 for_acc (Z.max (to_int x - 1) 0) (Z.min (to_int x + 2) sz)
                   (λ i log,
                      board_reveal_log fuel' (to_uint i) (to_uint j) log)
                   log)
              (log ++ [Z.to_nat n])
          else mret (log ++ [Z.to_nat n])
      | _ => mret log
      end
  end.

(** Forgetting the value a computation returns. *)
Definition erase {A} (r : result (A * Board)) : result (unit * Board) :=
  match r with
  | Ok (_, b) => Ok (tt, b)
  | Undefined => Undefined
  | OutOfFuel => OutOfFuel
  end.

(** [visits b b' new]: the entries of [new] are distinct, Hidden on [b]
    and Visible on [b']. *)
Definition visits (b b' : Board) (new : list nat) : Prop :=
  NoDup new ∧
  ∀ n, n ∈ new → overlay b !! n = Some OverlayCellHidden ∧
                 overlay b' !! n = Some OverlayCellVisible.

(** ** The boards of a game *)

(** The boards the program can hold: [main] initialises the static board
    once, and then reveals and marks cells at coordinates it has checked
    against the size of the board. *)
Inductive reachable : Board → Prop :=
| reachable_init sz m rand b :
    board_init sz m rand board0 = Ok (tt, b) → reachable b
| reachable_reveal b x y b' :
    reachable b → in_range b x y →
    board_reveal x y b = Ok (tt, b') → reachable b'
| reachable_mark b x y b' :
    reachable b → in_range b x y →
    board_mark x y b = Ok (tt, b') → reachable b'.

(** * The text front end (minesweeper.c, lines 159-421) *)

(** [view_draw], [view_input] and [main] work on the static board and on
    the two standard streams.  They are computations in a second monad
    [IO], over the board, the bytes still to be read from [stdin] and the
    bytes written to [stdout]. *)

(** ** Characters and strings *)

(** The bytes of a string literal, without a terminator. *)
Definition bytes (s : string) : list Z :=
  (λ a, Z.of_N (Ascii.N_of_ascii a)) <$> String.list_ascii_of_string s.

Definition newline : Z := 10.

(** [EOF] of stdio.h. *)
Definition EOF : Z := -1.

(** Conversion to [char], a signed type of eight bits on the platforms the
    program is built for, and to [uintmax_t]. *)
Definition to_char (v : Z) : Z := (v + 2 ^ 7) mod 2 ^ 8 - 2 ^ 7.
Definition to_umax (v : Z) : Z := v mod 2 ^ 64.

(** [static char *_ascii_upper = "ABCDEFGHIJKLMNOPQRSTUVWXYZ";] (line 15),
    with its terminator. *)
Definition _ascii_upper : list Z := bytes "ABCDEFGHIJKLMNOPQRSTUVWXYZ" ++ [0].

Global Instance result_ret : MRet result := λ A a, Ok a.
Global Instance result_bind : MBind result := λ A B k r,
  match r with
  | Ok a => k a
  | Undefined => Undefined
  | OutOfFuel => OutOfFuel
  end.

(** ctype.h in the "C" locale, the program never calling [setlocale].  The
    argument of these functions has to be [EOF] or a value of
    [unsigned char]; the behaviour is not defined for any other. *)
Definition ctype_arg (c : Z) : bool := (EOF <=? c) && (c <=? 255).

Definition isdigit (c : Z) : result bool :=
  if ctype_arg c then Ok ((48 <=? c) && (c <=? 57)) else Undefined.

Definition isalpha (c : Z) : result bool :=
  if ctype_arg c
  then Ok ((65 <=? c) && (c <=? 90) || (97 <=? c) && (c <=? 122))
  else Undefined.

Definition toupper (c : Z) : result Z :=
  if ctype_arg c
  then Ok (if (97 <=? c) && (c <=? 122) then c - 32 else c)
  else Undefined.

(** string.h.  A [char *] into an array is the part of the array from the
    pointer on; reading past the end of the array is not defined. *)
Fixpoint strlen (s : list Z) : result Z :=
  match s with
  | [] => Undefined
  | c :: s' => if c =? 0 then Ok 0 else n ← strlen s'; Ok (n + 1)
  end.

(** The characters are compared as [unsigned char]; the result is zero
    for equal strings and the difference at the first mismatch otherwise. *)
Fixpoint strncmp (s1 s2 : list Z) (n : nat) {struct n} : result Z :=
  match n with
  | O => Ok 0
  | S n' =>
      match s1, s2 with
      | c1 :: s1', c2 :: s2' =>
          if negb (to_u8 c1 =? to_u8 c2) then Ok (to_u8 c1 - to_u8 c2)
          else if c1 =? 0 then Ok 0
          else strncmp s1' s2' n'
      | _, _ => Undefined
      end
  end.

(** The offset of the first [c] in [s], [None] for the null pointer. *)
Fixpoint strchr (s : list Z) (c : Z) : result (option Z) :=
  match s with
  | [] => Undefined
  | d :: s' =>
      if d =? to_char c then Ok (Some 0)
      else if d =? 0 then Ok None
      else
        r ← strchr s' c;
        Ok (match r with Some k => Some (k + 1) | None => None end)
  end.

(** ** Formatted output *)

(** The decimal digits of a number that is not negative; [fuel] bounds
    their number. *)
Fixpoint digits (fuel : nat) (n : Z) : list Z :=
  match fuel with
  | O => []
  | S fuel' => (if n <? 10 then [] else digits fuel' (n / 10)) ++ [48 + n mod 10]
  end.

(** Twenty digits are enough for every value of [uintmax_t]. *)
Definition decimal (n : Z) : list Z := digits 20 n.

(** The conversions ["%2c"], ["%2u"] and ["%d"] of [printf]: a field is
    padded with spaces on the left up to its width. *)
Definition pad (width : nat) (field : list Z) : list Z :=
  replicate (width - length field) 32 ++ field.

Definition fmt_2c (c : Z) : list Z := pad 2 [to_u8 c].
Definition fmt_2u (n : Z) : list Z := pad 2 (decimal n).
Definition fmt_d (n : Z) : list Z :=
  if n <? 0 then 45 :: decimal (- n) else decimal n.

(** ** The streams and the monad *)

(** [stdin] is a sequence of bytes that ends at an end of file or with a
    read error, together with the two indicators of the stream. *)
Inductive Ending : Type :=
| EndOfFile
| ReadError.

Record Stdin : Type := mkStdin {
  pending : list Z;
  ending : Ending;
  eof_indicator : bool;
  error_indicator : bool
}.

(** [board] is the static board of line 45, [stdout] the bytes written so
    far. *)
Record World : Type := mkWorld {
  board : Board;
  stdin : Stdin;
  stdout : list Z
}.

Definition IO (A : Type) : Type := World → result (A * World).

Global Instance IO_ret : MRet IO := λ A a w, Ok (a, w).
Global Instance IO_bind : MBind IO := λ A B k m w,
  match m w with
  | Ok (a, w') => k a w'
  | Undefined => Undefined
  | OutOfFuel => OutOfFuel
  end.

Definition io_lift {A} (r : result A) : IO A := λ w,
  match r with
  | Ok a => Ok (a, w)
  | Undefined => Undefined
  | OutOfFuel => OutOfFuel
  end.

(** A function of the engine run on the static board. *)
Definition on_board {A} (m : M A) : IO A := λ w,
  match m (board w) with
  | Ok (a, b) => Ok (a, mkWorld b (stdin w) (stdout w))
  | Undefined => Undefined
  | OutOfFuel => OutOfFuel
  end.

(** [printf] with its conversions done: the bytes go to the end of
    [stdout]. *)
Definition printf (text : list Z) : IO unit :=
  λ w, Ok (tt, mkWorld (board w) (stdin w) (stdout w ++ text)).

Definition get_stdin : IO Stdin := λ w, Ok (stdin w, w).
Definition set_stdin (s : Stdin) : IO unit :=
  λ w, Ok (tt, mkWorld (board w) s (stdout w)).

Definition feof : IO bool := s ← get_stdin; mret (eof_indicator s).
Definition ferror : IO bool := s ← get_stdin; mret (error_indicator s).

(** One attempt to read a byte: the byte as an [unsigned char], or the
    reason there is none, which the stream records in an indicator.  A
    stream whose end-of-file indicator is set is not read. *)
Inductive Got : Type :=
| GotChar (c : Z)
| GotEof
| GotError.

Definition read_byte : IO Got :=
  s ← get_stdin;
  if eof_indicator s then mret GotEof
  else
    match pending s with
    | c :: rest =>
        set_stdin (mkStdin rest (ending s) false (error_indicator s));;
        mret (GotChar (to_u8 c))
    | [] =>
        match ending s with
        | EndOfFile =>
            set_stdin (mkStdin [] EndOfFile true (error_indicator s));;
            mret GotEof
        | ReadError =>
            set_stdin (mkStdin [] ReadError false true);;
            mret GotError
        end
    end.

Definition getc : IO Z :=
  g ← read_byte;
  mret (match g with GotChar c => c | _ => EOF end).

(** The characters [fgets] stores before the terminator, at most [k], up
    to and including a newline, and whether a read error ended them. *)
Fixpoint fgets_chars (k : nat) : IO (list Z * bool) :=
  match k with
  | O => mret ([], false)
  | S k' =>
      g ← read_byte;
      match g with
      | GotChar c =>
          if c =? newline then mret ([to_char c], false)
          else
            '(chars, failed) ← fgets_chars k';
            mret (to_char c :: chars, failed)
      | GotEof => mret ([], false)
      | GotError => mret ([], true)
      end
  end.

(** [fgets(s, n, stdin)] with [n > 1]: the array after the call, [None]
    for a null pointer.  The array is left as it was when the stream ends
    before a character is read; after a read error its contents are
    indeterminate, and the program does not look at them. *)
Definition fgets (s : list Z) (n : Z) : IO (option (list Z)) :=
  '(chars, failed) ← fgets_chars (Z.to_nat (n - 1));
  if (failed : bool) then mret None
  else if bool_decide (chars = []) then mret None
  else mret (Some (chars ++ [0] ++ drop (S (length chars)) s)).

(** Loops of [IO]. *)
Fixpoint io_iter (body : Z → IO unit) (idxs : list Z) : IO unit :=
  match idxs with
  | [] => mret tt
  | i :: idxs' => body i;; io_iter body idxs'
  end.

Definition io_for (lo hi : Z) (body : Z → IO unit) : IO unit :=
  io_iter body (seqZ lo (hi - lo)).

(** ** view_draw (lines 159-193) *)

(**
<<
    printf("  ");
    for (unsigned int i = 0; i < board->size; i++)
        printf("%2c", _ascii_upper[i]);
    printf("\n");
    for (unsigned int y = 0; y < board->size; y++)
    {
        printf("%2u", y + 1);
        for (unsigned int x = 0; x < board->size; x++)
        {
            size_t n = y * board->size + x;
            enum OverlayCell overlay = board->overlay[n];
            if (overlay == OverlayCellHidden)       printf(" #");
            else if (overlay == OverlayCellMarked)  printf(" !");
            else
            {
                uint8_t cell = board->cells[n];
                if (cell == CELL_EMPTY)      printf("  ");
                else if (cell == CELL_MINE)  printf(" *");
                else                         printf(" %d", cell);
            }
        }
        printf("\n");
    }
>> *)
Definition view_draw : IO unit :=
  printf (bytes "  ");;
  sz ← on_board get_size;
  io_for 0 sz (λ i,
    c ← io_lift (load _ascii_upper i);
    printf (fmt_2c c));;
  printf [newline];;
  io_for 0 sz (λ y,
    printf (fmt_2u (to_uint (y + 1)));;
    io_for 0 sz (λ x,
      let n := to_uint (y * sz + x) in
      o ← on_board (load_overlay n);
      match o with
      | OverlayCellHidden => printf (bytes " #")
      | OverlayCellMarked => printf (bytes " !")
      | OverlayCellVisible =>
          c ← on_board (load_cell n);
          if c =? CELL_EMPTY then printf (bytes "  ")
          else if c =? CELL_MINE then printf (bytes " *")
          else printf (bytes " " ++ fmt_d c)
      end);;
    printf [newline]).

(** ** view_input (lines 195-296) *)

Inductive CommandType : Type :=
| CommandTypeQuit
| CommandTypeReveal
| CommandTypeMark.

Record Command : Type := mkCommand {
  command_type : CommandType;
  command_x : Z;
  command_y : Z
}.

(** [view_input] fills the [struct Command] it is given when, and only
    when, it returns [InputTypeCommand]; the command is carried by that
    result here. *)
Inductive InputType : Type :=
| InputTypeCommand (command : Command)
| InputTypeInvalid
| InputTypeEof
| InputTypeError.

(** Lines 240-244, the rest of a line that did not fit the array:
<<
    char c = '\0';
    do { c = getc(stdin); } while (c != '\n' && c != EOF);
>>
    The result is the last value of [c]. Every round but the last takes a
    byte from the stream, so [fuel] need not exceed the number of pending
    bytes by more than one. *)
Fixpoint skip_line (fuel : nat) : IO Z :=
  match fuel with
  | O => λ _, OutOfFuel
  | S fuel' =>
      g ← getc;
      let c := to_char g in
      if negb (c =? newline) && negb (c =? EOF) then skip_line fuel'
      else mret c
  end.

(** Lines 254-259, on the array from [s] on:
<<
    for (char* s = input; *s != '\0'; s++)
    {
        *s = toupper( *s);
        if ( *s == '\n')
            *s = '\0';
    }
>> *)
Fixpoint upcase (s : list Z) : result (list Z) :=
  match s with
  | [] => Undefined
  | c :: s' =>
      if c =? 0 then Ok s
      else
        u ← toupper c;
        let u := to_char u in
        rest ← upcase s';
        Ok ((if u =? newline then 0 else u) :: rest)
  end.

(** Lines 282-286, the value of [y] and the position of [s] after the
    loop:
<<
    while (isdigit( *s))
    {
        y = (y * 10) + ( *s - '0');
        s++;
    }
>> *)
Fixpoint read_number (s : list Z) (y : Z) : result (Z * list Z) :=
  match s with
  | [] => Undefined
  | c :: s' =>
      d ← isdigit c;
      if (d : bool) then read_number s' (to_uint (y * 10 + (c - 48))) else Ok (y, s)
  end.

(** Lines 275-295, from the pointer [s] on:
<<
    if (!isalpha( *s)) return InputTypeInvalid;
    unsigned int x = (strchr(_ascii_upper, *s) - &_ascii_upper[0]);
    s++;
    unsigned int y = 0;
    ... the loop of [read_number] ...
    y = y - 1;
    if ( *s != '\0') return InputTypeInvalid;
    command->type = (mark ? CommandTypeMark : CommandTypeReveal);
    command->x = x; command->y = y;
    return InputTypeCommand;
>>
    The difference of pointers of line 278 has no defined value when
    [strchr] returns a null pointer. *)
Definition parse_coordinates (mark : bool) (s : list Z) : result InputType :=
  c ← load s 0;
  a ← isalpha c;
  if negb a then Ok InputTypeInvalid
  else
    p ← strchr _ascii_upper c;
    match p with
    | None => Undefined
    | Some k =>
        let x := to_uint k in
        '(y, s) ← read_number (drop 1 s) 0;
        let y := to_uint (y - 1) in
        c ← load s 0;
        if negb (c =? 0) then Ok InputTypeInvalid
        else
          Ok (InputTypeCommand
                (mkCommand (if mark then CommandTypeMark
                            else CommandTypeReveal) x y))
    end.

(** Lines 254-274, which work on the local array only, then
    [parse_coordinates]:
<<
    ... the loop of [upcase] ...
    if (strncmp(input, "Q", 4) == 0 || strncmp(input, "QUIT", 4) == 0)
    {
        command->type = CommandTypeQuit; command->x = 0; command->y = 0;
        return InputTypeCommand;
    }
    char* s = &input[0];
    bool mark = ( *s == '!');
    if (mark) s++;
>> *)
Definition parse_command (input : list Z) : result InputType :=
  input ← upcase input;
  q ← strncmp input (bytes "Q" ++ [0]) 4;
  q' ← (if q =? 0 then Ok 0 else strncmp input (bytes "QUIT" ++ [0]) 4);
  if (q =? 0) || (q' =? 0)
  then Ok (InputTypeCommand (mkCommand CommandTypeQuit 0 0))
  else
    c ← load input 0;
    let mark := c =? 33 in
    parse_coordinates mark (if mark then drop 1 input else input).

(** Lines 219-252, then [parse_command]:
<<
    printf("> ");
    fflush(stdout);
    char input[6] = {0};
    if (fgets(input, sizeof input, stdin) == NULL && ferror(stdin))
        return InputTypeError;
    if (feof(stdin))
        return InputTypeEof;
    if (input[strlen(input) - 1] != '\n')
    {
        ... the loop of [skip_line] ...
        if (c == EOF)
            return ferror(stdin) ? InputTypeError : InputTypeEof;
        return InputTypeInvalid;
    }
>> *)
Definition view_input : IO InputType :=
  printf (bytes "> ");;
  let input := replicate 6 0 in
  r ← fgets input 6;
  err ← ferror;
  if bool_decide (r = None) && err then mret InputTypeError
  else
    eof ← feof;
    if (eof : bool) then mret InputTypeEof
    else
      let input := default input r in
      len ← io_lift (strlen input);
      last ← io_lift (load input (len - 1));
      if negb (last =? newline) then
        s ← get_stdin;
        c ← skip_line (S (length (pending s)));
        if c =? EOF then
          err ← ferror;
          mret (if (err : bool) then InputTypeError else InputTypeEof)
        else mret InputTypeInvalid
      else io_lift (parse_command input).

(** ** display_help and main (lines 298-421) *)

Definition display_help : IO unit :=
  printf (bytes "usage: minesweeper [-h|--help] [-s|--size SIZE] [-m|--mines MINES]"
          ++ [newline]).

(** [strcmp(a, s) == 0], an argument of the program being the characters
    before its terminator. *)
Definition streq (a : list Z) (s : string) : bool := bool_decide (a = bytes s).

(** The loop over the arguments, lines 312-355, from [argv[i]] on.
    [strtoumax v] stands for the call [strtoumax(v, NULL, 10)]: the value
    it returns and the value of [errno] after it, [errno] being zero
    before.  The result is the exit code when the loop leaves for the
    label [exit], and the size and the number of mines when it ends.
    [argv[argc]] is a null pointer, which [strtoumax] must not be given. *)
Fixpoint main_options (strtoumax : list Z → Z * Z) (args : list (list Z))
    (size mines : Z) : IO (Z + Z * Z) :=
  match args with
  | [] => mret (inr (size, mines))
  | a :: args' =>
      if streq a "-s" || streq a "--size" then
        match args' with
        | [] => λ _, Undefined
        | v :: args'' =>
            let size := to_umax (strtoumax v).1 in
            if (size <? 1) || (size >? MAX_BOARD_SIZE) then
              display_help;;
              printf (bytes "error: invalid board size: " ++ v ++ [newline]);;
              mret (inl 1)
            else main_options strtoumax args'' size mines
        end
      else if streq a "-m" || streq a "--mines" then
        match args' with
        | [] => λ _, Undefined
        | v :: args'' =>
            let mines := to_umax (strtoumax v).1 in
            if negb ((strtoumax v).2 =? 0) then
              display_help;;
              printf (bytes "error: invalid value: " ++ v ++ [newline]);;
              mret (inl 1)
            else
              main_options strtoumax args'' size
                (if mines >? MAX_BOARD_AREA then MAX_BOARD_AREA else mines)
        end
      else if streq a "-h" || streq a "--help" then
        display_help;;
        mret (inl 0)
      else
        display_help;;
        printf (bytes "error: unrecognized argument: " ++ a ++ [newline]);;
        mret (inl 1)
  end.

(** The game loop, lines 361-417; the result is the exit code, which is
    still zero when the loop is entered.  Every round that does not leave
    the loop has taken a byte from [stdin]; [fuel] bounds the rounds. *)
Fixpoint game_loop (fuel : nat) : IO Z :=
  match fuel with
  | O => λ _, OutOfFuel
  | S fuel' =>
      input ← view_input;
      match input with
      | InputTypeError =>
          printf (bytes "Error getting input." ++ [newline]);;
          mret 1
      | InputTypeEof =>
          printf [newline];;
          mret 0
      | InputTypeInvalid =>
          printf (bytes "I didn't understand that." ++ [newline]);;
          game_loop fuel'
      | InputTypeCommand command =>
          sz ← on_board get_size;
          if (command_x command >=? sz) || (command_y command >=? sz) then
            printf (bytes "Co-ordinates not valid." ++ [newline]);;
            game_loop fuel'
          else
            match command_type command with
            | CommandTypeQuit => mret 0
            | CommandTypeReveal =>
                on_board (board_reveal (command_x command) (command_y command));;
                view_draw;;
                g ← on_board board_check_game_state;
                match g with
                | GameStateWon =>
                    printf (bytes "Congratulations, you have swept all the mines and won!"
                            ++ [newline]);;
                    mret 0
                | GameStateLost =>
                    printf (bytes "Oh no, you hit a mine and lost!" ++ [newline]);;
                    mret 0
                | GameStateUnfinished => game_loop fuel'
                end
            | CommandTypeMark =>
                on_board (board_mark (command_x command) (command_y command));;
                view_draw;;
                game_loop fuel'
            end
      end
  end.

(** [main], with the draws of [rand()] as in [board_init] and the
    arguments [argv[0] .. argv[argc - 1]]:
<<
    uintmax_t size = 6;
    uintmax_t mines = 6;
    ... the loop of [main_options] ...
    board_init(&board, (uint8_t)size, (uint16_t)mines);
    view_draw(&board);
    ... the loop of [game_loop] ...
  exit:
    return exit_code;
>> *)
Definition main (strtoumax : list Z → Z * Z) (rand : nat → nat)
    (argv : list (list Z)) : IO Z :=
  r ← main_options strtoumax (drop 1 argv) 6 6;
  match r with
  | inl exit_code => mret exit_code
  | inr (size, mines) =>
      on_board (board_init (to_u8 size) (to_u16 mines) rand);;
      view_draw;;
      s ← get_stdin;
      game_loop (S (length (pending s)))
  end.

(** ** Sample runs *)

(** A random source whose every draw is zero. *)
Definition rand_zero : nat → nat := λ _, 0%nat.

(** The board a computation leaves, [board0] if it does not return. *)
Definition board_after (m : M unit) (b : Board) : Board :=
  match m b with
  | Ok (_, b') => b'
  | _ => board0
  end.

(** A 4x4 board with one mine, which the draws of [rand_zero] put in the
    last cell. *)
Definition board_4x4 : Board := board_after (board_init 4 1 rand_zero) board0.

(** A 1x1 board without a mine whose only cell has been marked. *)
Definition board_1x1_marked : Board :=
  board_after (board_init 1 0 rand_zero;; board_mark 0 0) board0.


(** The 4x4 board after its mine has been revealed. *)
Definition board_4x4_lost : Board := board_after (board_reveal 3 3) board_4x4.

(** ** The picture of a board *)

(** [prints b m text]: with [b] as the board, [m] returns, appends [text]
    to [stdout] and changes nothing else. *)
Definition prints (b : Board) (m : IO unit) (text : list Z) : Prop :=
  ∀ sin out, m (mkWorld b sin out) = Ok (tt, mkWorld b sin (out ++ text)).

(** The two characters of a cell: what the player has uncovered of it. *)
Definition cell_text (b : Board) (x y : Z) : list Z :=
  match overlay_at b x y with
  | Some OverlayCellHidden => bytes " #"
  | Some OverlayCellMarked => bytes " !"
  | Some OverlayCellVisible =>
      match cell_at b x y with
      | Some c =>
          if c =? CELL_EMPTY then bytes "  "
          else if c =? CELL_MINE then bytes " *"
          else bytes " " ++ fmt_d c
      | None => []
      end
  | None => []
  end.

Definition header_text (b : Board) : list Z :=
  bytes "  " ++ mjoin ((λ i, [32; 65 + i]) <$> seqZ 0 (size b)) ++ [newline].

Definition row_text (b : Board) (y : Z) : list Z :=
  fmt_2u (y + 1) ++ mjoin ((λ x, cell_text b x y) <$> seqZ 0 (size b))
  ++ [newline].

Definition picture (b : Board) : list Z :=
  header_text b ++ mjoin (row_text b <$> seqZ 0 (size b)).

(** The character that stands for a cell in the picture. *)
Definition cell_symbol (o : OverlayCell) (c : Z) : Z :=
  match o with
  | OverlayCellHidden => 35
  | OverlayCellMarked => 33
  | OverlayCellVisible =>
      if c =? CELL_EMPTY then 32 else if c =? CELL_MINE then 42 else 48 + c
  end.

(** The 4x4 board before a game on an empty input. *)
Definition world_4x4 : World :=
  mkWorld board_4x4 (mkStdin [] EndOfFile false false) [].

(** A 4x4 board with one mine in its first cell, all cells Hidden. *)
Definition board_4x4_moved : Board :=
  mkBoard 4 (<[0%nat := CELL_MINE]> (replicate (Z.to_nat MAX_BOARD_AREA) 0))
            (replicate (Z.to_nat MAX_BOARD_AREA) OverlayCellHidden).

(** ** Lines of input *)

(** The bytes of a line of text: ASCII characters other than NUL, and
    other than the newline that ends the line. *)
Definition text_byte (c : Z) : Prop := 0 < c < 128.
Definition line_byte (c : Z) : Prop := 0 < c < 128 ∧ c ≠ newline.

Definition letter (c : Z) : Prop := 65 ≤ c ≤ 90 ∨ 97 ≤ c ≤ 122.
Definition digit (c : Z) : Prop := 48 ≤ c ≤ 57.

(** The upper-case form of a character. *)
Definition upper (c : Z) : Z :=
  if (97 <=? c) && (c <=? 122) then c - 32 else c.

(** The number a string of digits denotes, zero for no digit. *)
Definition number (ds : list Z) : Z :=
  foldl (λ n d, n * 10 + (d - 48)) 0 ds.

(** ** The arguments of the program *)

(** The options that take a value. *)
Definition value_option (a : list Z) : bool :=
  streq a "-s" || streq a "--size" || streq a "-m" || streq a "--mines".

(** A [strtoumax] for samples: the value of the leading decimal digits,
    [UINTMAX_MAX] with [errno] set to [ERANGE] when it is out of range. *)
Fixpoint leading_number (s : list Z) (n : Z) : Z :=
  match s with
  | c :: s' =>
      if (48 <=? c) && (c <=? 57) then leading_number s' (n * 10 + (c - 48))
      else n
  | [] => n
  end.

Definition strtoumax_decimal (s : list Z) : Z * Z :=
  let n := leading_number s 0 in
  if n <? 2 ^ 64 then (n, 0) else (2 ^ 64 - 1, 34).

(** A stream that holds the line [c3]. *)
Definition world_c3 : World :=
  mkWorld board0 (mkStdin (bytes "c3" ++ [newline]) EndOfFile false false) [].

(** * Properties *)

(** Close [wf] and [in_range] on a concrete board. *)
Ltac wf_compute := split; vm_compute; [split; discriminate | done | done].
Ltac in_range_compute := split; split; by vm_compute.

Section wp_rules.
Context {A B : Type}.
Implicit Types (m : M A) (k : A → M B).

Lemma wp_ret (a : A) (Q : A → Board → Prop) b : Q a b → wp (mret a) Q b.
Proof. intros HQ. exists a, b. split; [reflexivity | exact HQ]. Qed.

Lemma wp_bind m k (Q : B → Board → Prop) b :
  wp m (λ a b', wp (k a) Q b') b → wp (m ≫= k) Q b.
Proof.
  intros (a & b1 & Hm & c & b2 & Hk & HQ).
  exists c, b2. split; [| exact HQ].
  unfold mbind, M_bind. rewrite Hm. exact Hk.
Qed.

Lemma wp_mono m (Q Q' : A → Board → Prop) b :
  wp m Q b → (∀ a b', Q a b' → Q' a b') → wp m Q' b.
Proof. intros (a & b' & Hm & HQ) Himp. exists a, b'. auto. Qed.

Lemma wp_elim m (Q : A → Board → Prop) b a b' :
  wp m Q b → m b = Ok (a, b') → Q a b'.
Proof. intros (a1 & b1 & Hm & HQ) Hrun. congruence. Qed.

End wp_rules.

Lemma wp_lift {A} (r : result A) (a : A) (Q : A → Board → Prop) b :
  r = Ok a → Q a b → wp (lift r) Q b.
Proof. intros -> HQ. exists a, b. auto. Qed.

Lemma wp_get_size (Q : Z → Board → Prop) b : Q (size b) b → wp get_size Q b.
Proof. intros HQ. exists (size b), b. auto. Qed.

(** Loop rule: the invariant is indexed by the indices already done. *)
Lemma wp_iter {A} (I : list Z → A → Board → Prop) body idxs (a : A) b :
  I [] a b →
  (∀ done i rest a b, idxs = done ++ i :: rest → I done a b →
     wp (body i a) (I (done ++ [i])) b) →
  wp (iter body idxs a) (I idxs) b.
Proof.
  intros H0 Hstep.
  assert (∀ rest done a b, idxs = done ++ rest → I done a b →
            wp (iter body rest a) (I idxs) b) as Hgen.
  { clear a b H0. induction rest as [|i rest IH]; intros done a b Heq HI.
    - rewrite app_nil_r in Heq. subst done. by apply wp_ret.
    - simpl. apply wp_bind.
      eapply wp_mono; [by eapply Hstep |].
      intros a' b' HI'. apply (IH (done ++ [i])); [| done].
      by rewrite <- app_assoc. }
  by apply (Hgen idxs []).
Qed.

Lemma wp_iter_until {R} (I : list Z → Board → Prop) (Q : R → Board → Prop)
    body idxs b :
  I [] b →
  (∀ done i rest b, idxs = done ++ i :: rest → I done b →
     wp (body i)
        (λ r b', match r with Some v => Q v b' | None => I (done ++ [i]) b' end)
        b) →
  wp (iter_until body idxs)
     (λ r b', match r with Some v => Q v b' | None => I idxs b' end) b.
Proof.
  intros H0 Hstep.
  assert (∀ rest done b, idxs = done ++ rest → I done b →
            wp (iter_until body rest)
               (λ r b', match r with Some v => Q v b' | None => I idxs b' end)
               b) as Hgen.
  { clear b H0. induction rest as [|i rest IH]; intros done b Heq HI.
    - rewrite app_nil_r in Heq. subst done. by apply wp_ret.
    - simpl. apply wp_bind.
      eapply wp_mono; [by eapply Hstep |].
      intros [v|] b' HI'; [by apply wp_ret |].
      apply (IH (done ++ [i])); [| done].
      by rewrite <- app_assoc. }
  by apply (Hgen idxs []).
Qed.

(** ** Arithmetic of indices *)

Lemma MAX_BOARD_AREA_eq : MAX_BOARD_AREA = 676.
Proof. reflexivity. Qed.

Lemma to_uint_small v : 0 ≤ v < 2 ^ 32 → to_uint v = v.
Proof. intros. unfold to_uint. by apply Z.mod_small. Qed.

Lemma to_int_small v : 0 ≤ v < 2 ^ 31 → to_int v = v.
Proof.
  intros. unfold to_int. rewrite Z.mod_small by lia.
  destruct (Z.ltb_spec v (2 ^ 31)); lia.
Qed.

Lemma to_u16_small v : 0 ≤ v < 2 ^ 16 → to_u16 v = v.
Proof. intros. unfold to_u16. by apply Z.mod_small. Qed.

Lemma to_u8_small v : 0 ≤ v < 2 ^ 8 → to_u8 v = v.
Proof. intros. unfold to_u8. by apply Z.mod_small. Qed.

Lemma index_bound s x y :
  0 ≤ s ≤ MAX_BOARD_SIZE → 0 ≤ x < s → 0 ≤ y < s →
  0 ≤ y * s + x < s * s ∧ s * s ≤ MAX_BOARD_AREA.
Proof. unfold MAX_BOARD_AREA, MAX_BOARD_SIZE. intros. nia. Qed.

Lemma index_inj s x y x' y' :
  0 ≤ x < s → 0 ≤ x' < s → y * s + x = y' * s + x' → x = x' ∧ y = y'.
Proof. intros. assert (y = y') by nia. subst. lia. Qed.

Lemma idx_inj b x y x' y' :
  in_range b x y → in_range b x' y' → idx b x y = idx b x' y' →
  x = x' ∧ y = y'.
Proof.
  unfold in_range, idx. intros [Hx Hy] [Hx' Hy'] Heq.
  apply (index_inj (size b)); [done | done |].
  apply Z2Nat.inj in Heq; [done | nia | nia].
Qed.

Lemma idx_lt b x y :
  wf b → in_range b x y → (idx b x y < Z.to_nat MAX_BOARD_AREA)%nat.
Proof.
  intros [Hs _ _] [Hx Hy]. unfold idx.
  pose proof (index_bound (size b) x y Hs Hx Hy). lia.
Qed.

Lemma to_uint_index b x y :
  wf b → in_range b x y → to_uint (y * size b + x) = y * size b + x.
Proof.
  intros [Hs _ _] [Hx Hy].
  pose proof (index_bound (size b) x y Hs Hx Hy) as [? ?].
  rewrite MAX_BOARD_AREA_eq in *. apply to_uint_small. lia.
Qed.

(** ** The primitives *)

Lemma load_Some {A} (a : list A) (i : nat) v :
  a !! i = Some v → load a (Z.of_nat i) = Ok v.
Proof.
  intros H. unfold load. rewrite Nat2Z.id, H.
  destruct (Z.leb_spec 0 (Z.of_nat i)); [done | lia].
Qed.

Lemma load_Ok {A} (a : list A) n v :
  load a n = Ok v ↔ 0 ≤ n ∧ a !! Z.to_nat n = Some v.
Proof.
  unfold load. destruct (Z.leb_spec 0 n) as [Hn | Hn].
  - destruct (a !! Z.to_nat n) as [w |].
    + split; [intros [= ->]; by split | intros [_ [= ->]]; done].
    + split; [done | intros [_ [=]]].
  - split; [done | lia].
Qed.

Lemma store_Ok {A} (a : list A) n v :
  0 ≤ n < Z.of_nat (length a) → store a n v = Ok (<[Z.to_nat n := v]> a).
Proof.
  intros. unfold store.
  destruct (Z.leb_spec 0 n); [| lia].
  destruct (Z.ltb_spec n (Z.of_nat (length a))); [done | lia].
Qed.

Lemma wp_load_overlay (i : nat) v (Q : OverlayCell → Board → Prop) b :
  overlay b !! i = Some v → Q v b → wp (load_overlay (Z.of_nat i)) Q b.
Proof.
  intros H HQ. exists v, b. split; [| done].
  unfold load_overlay. by rewrite (load_Some _ _ _ H).
Qed.

Lemma wp_load_cell (i : nat) v (Q : Z → Board → Prop) b :
  cells b !! i = Some v → Q v b → wp (load_cell (Z.of_nat i)) Q b.
Proof.
  intros H HQ. exists v, b. split; [| done].
  unfold load_cell. by rewrite (load_Some _ _ _ H).
Qed.

Lemma wp_store_overlay (i : nat) v (Q : unit → Board → Prop) b :
  (i < length (overlay b))%nat →
  Q tt (mkBoard (size b) (cells b) (<[i := v]> (overlay b))) →
  wp (store_overlay (Z.of_nat i) v) Q b.
Proof.
  intros H HQ. eexists tt, _. split; [| exact HQ].
  unfold store_overlay. rewrite store_Ok by lia. by rewrite Nat2Z.id.
Qed.

Lemma wp_store_cell (i : nat) v (Q : unit → Board → Prop) b :
  (i < length (cells b))%nat →
  Q tt (mkBoard (size b) (<[i := v]> (cells b)) (overlay b)) →
  wp (store_cell (Z.of_nat i) v) Q b.
Proof.
  intros H HQ. eexists tt, _. split; [| exact HQ].
  unfold store_cell. rewrite store_Ok by lia. by rewrite Nat2Z.id.
Qed.

(** The index expression of [board_reveal], [board_mark] and
    [board_check_game_state], at coordinates of the board. *)
Lemma index_of_idx b x y :
  wf b → in_range b x y → to_uint (y * size b + x) = Z.of_nat (idx b x y).
Proof.
  intros Hwf Hr. rewrite to_uint_index by done.
  destruct Hwf as [Hs _ _], Hr as [Hx Hy]. unfold idx.
  pose proof (index_bound (size b) x y Hs Hx Hy). lia.
Qed.

Lemma overlay_at_is_Some b x y :
  wf b → in_range b x y → is_Some (overlay_at b x y).
Proof.
  intros Hwf Hr. apply lookup_lt_is_Some.
  rewrite (wf_overlay _ Hwf). by apply idx_lt.
Qed.

Lemma cell_at_is_Some b x y :
  wf b → in_range b x y → is_Some (cell_at b x y).
Proof.
  intros Hwf Hr. apply lookup_lt_is_Some.
  rewrite (wf_cells _ Hwf). by apply idx_lt.
Qed.

(** ** board_mark *)

Lemma board_mark_run b x y o :
  wf b → in_range b x y → overlay_at b x y = Some o →
  board_mark x y b =
    Ok (tt, mkBoard (size b) (cells b) (<[idx b x y := toggle o]> (overlay b))).
Proof.
  intros Hwf Hr Ho.
  assert (idx b x y < length (overlay b))%nat as Hlt
    by (rewrite (wf_overlay _ Hwf); by apply idx_lt).
  unfold board_mark, mbind, M_bind, get_size.
  rewrite (index_of_idx _ _ _ Hwf Hr).
  unfold load_overlay. rewrite (load_Some _ _ _ Ho). simpl.
  assert (store_overlay (Z.of_nat (idx b x y)) (toggle o) b
          = Ok (tt, mkBoard (size b) (cells b)
                      (<[idx b x y := toggle o]> (overlay b)))) as Hstore.
  { unfold store_overlay. rewrite store_Ok by lia. by rewrite Nat2Z.id. }
  destruct o; simpl; [exact Hstore | | exact Hstore].
  unfold mret, M_ret. destruct b as [s c ov]; simpl in *.
  by rewrite list_insert_id.
Qed.

(** An index met while a [for] loop runs lies within the loop's bounds. *)
Lemma seqZ_split_bounds lo n (done rest : list Z) i :
  seqZ lo n = done ++ i :: rest → lo ≤ i < lo + n.
Proof.
  intros Heq. apply elem_of_seqZ. rewrite Heq.
  apply elem_of_app. right. constructor.
Qed.

Lemma bind_inv {A B} (m : M A) (k : A → M B) b r :
  (m ≫= k) b = Ok r → ∃ a b', m b = Ok (a, b') ∧ k a b' = Ok r.
Proof.
  unfold mbind, M_bind. destruct (m b) as [[a b'] | |]; [| done | done].
  intros Hk. by exists a, b'.
Qed.

Lemma load_overlay_frame n b o b' : load_overlay n b = Ok (o, b') → b' = b.
Proof.
  unfold load_overlay, lift. destruct (load (overlay b) n); [| done | done].
  by intros [= _ <-].
Qed.

Lemma load_cell_frame n b c b' : load_cell n b = Ok (c, b') → b' = b.
Proof.
  unfold load_cell, lift. destruct (load (cells b) n); [| done | done].
  by intros [= _ <-].
Qed.

Lemma iter_until_frame {R} (body : Z → M (option R)) idxs :
  (∀ i b r b', body i b = Ok (r, b') → b' = b) →
  ∀ b r b', iter_until body idxs b = Ok (r, b') → b' = b.
Proof.
  intros Hbody. induction idxs as [|i idxs IH]; intros b r b' Hrun.
  - by injection Hrun as _ <-.
  - simpl in Hrun. apply bind_inv in Hrun as (r1 & b1 & Hrun1 & Hrun).
    apply Hbody in Hrun1 as ->.
    destruct r1 as [v |]; [by injection Hrun as _ <- | by eapply IH].
Qed.

(** ** board_check_game_state *)

Section scan.
Variables (p : OverlayCell → bool) (q : Z → bool) (g : GameState).

(** One of the two scanning loop nests of [board_check_game_state]. *)
Local Abbreviation scan sz :=
  (for_until 0 sz (λ y,
     for_until 0 sz (λ x,
       let n := to_uint (y * sz + x) in
       o ← load_overlay n;
       if p o then
         c ← load_cell n;
         if q c then mret (Some g) else mret None
       else mret None))).

Local Abbreviation hit b x y :=
  (∃ o c, overlay_at b x y = Some o ∧ cell_at b x y = Some c ∧
          p o = true ∧ q c = true).

Lemma wp_scan b :
  wf b →
  wp (scan (size b))
     (λ r b', b' = b ∧
        match r with
        | Some v => v = g ∧ ∃ x y, in_range b x y ∧ hit b x y
        | None => ∀ x y, in_range b x y → ¬ hit b x y
        end) b.
Proof.
  intros Hwf. unfold for_until.
  eapply wp_mono.
  - apply (wp_iter_until
             (λ done b', b' = b ∧
                ∀ y, y ∈ done → ∀ x, 0 ≤ x < size b → ¬ hit b x y)
             (λ v b', b' = b ∧ v = g ∧ ∃ x y, in_range b x y ∧ hit b x y)).
    + split; [done |]. intros y Hy. by apply elem_of_nil in Hy.
    + intros done y rest b1 Hsplit [-> Hdone].
      assert (0 ≤ y < size b) as Hy
        by (apply seqZ_split_bounds in Hsplit; lia).
      eapply wp_mono.
      * apply (wp_iter_until
                 (λ done' b', b' = b ∧ ∀ x, x ∈ done' → ¬ hit b x y)
                 (λ v b', b' = b ∧ v = g ∧ ∃ x y, in_range b x y ∧ hit b x y)).
        -- split; [done |]. intros x Hx. by apply elem_of_nil in Hx.
        -- intros done' x rest' b2 Hsplit' [-> Hdone'].
           assert (0 ≤ x < size b) as Hx
             by (apply seqZ_split_bounds in Hsplit'; lia).
           assert (in_range b x y) as Hr by done.
           destruct (overlay_at_is_Some b x y Hwf Hr) as [o Ho].
           destruct (cell_at_is_Some b x y Hwf Hr) as [c Hc].
           cbv zeta. rewrite (index_of_idx _ _ _ Hwf Hr).
           apply wp_bind. eapply wp_load_overlay; [exact Ho |].
           assert (p o && q c = false → ∀ x', x' ∈ done' ++ [x] → ¬ hit b x' y)
             as Hmiss.
           { intros Hpq x' Hx'. apply elem_of_app in Hx' as [Hx' | Hx'];
               [by apply Hdone' |].
             apply list_elem_of_singleton in Hx' as ->.
             intros (o' & c' & Ho' & Hc' & Hp & Hq).
             rewrite Ho in Ho'. rewrite Hc in Hc'.
             simplify_eq. by rewrite Hp, Hq in Hpq. }
           destruct (p o) eqn:Hp; [| apply wp_ret; auto].
           apply wp_bind. eapply wp_load_cell; [exact Hc |].
           destruct (q c) eqn:Hq; apply wp_ret; [| auto].
           split; [done |]. split; [done |].
           exists x, y. split; [done |]. by exists o, c.
      * intros [v|] b2; [done |]. intros [-> Hall]. split; [done |].
        intros y' Hy' x Hx. apply elem_of_app in Hy' as [Hy' | Hy'];
          [by apply Hdone |].
        apply list_elem_of_singleton in Hy' as ->.
        apply Hall, elem_of_seqZ. lia.
  - intros [v|] b1; [done |]. intros [-> Hall]. split; [done |].
    intros x y [Hx Hy]. apply Hall; [| done]. apply elem_of_seqZ. lia.
Qed.

(** The scans read the board and write nothing, on any board. *)
Lemma scan_frame sz b r b' : scan sz b = Ok (r, b') → b' = b.
Proof.
  unfold for_until. revert b r b'.
  apply iter_until_frame. intros y b r b'.
  apply iter_until_frame. clear. intros x b r b' Hrun.
  apply bind_inv in Hrun as (o & b1 & Hload & Hrun).
  apply load_overlay_frame in Hload as ->.
  destruct (p o); [| by injection Hrun as _ <-].
  apply bind_inv in Hrun as (c & b2 & Hload & Hrun).
  apply load_cell_frame in Hload as ->.
  destruct (q c); by injection Hrun as _ <-.
Qed.
End scan.

(** What [board_check_game_state] computes: it returns normally, on the
    board it was given, and the three results are told apart by the two
    scans. *)
Lemma board_check_game_state_spec b :
  wf b →
  ∃ g, board_check_game_state b = Ok (g, b) ∧
    match g with
    | GameStateLost => ∃ x y, in_range b x y ∧ visible_mine b x y
    | GameStateUnfinished =>
        (∀ x y, in_range b x y → ¬ visible_mine b x y) ∧
        (∃ x y, in_range b x y ∧ hidden_safe b x y)
    | GameStateWon =>
        (∀ x y, in_range b x y → ¬ visible_mine b x y) ∧
        (∀ x y, in_range b x y → ¬ hidden_safe b x y)
    end.
Proof.
  intros Hwf.
  pose proof (wp_scan (λ o, bool_decide (o = OverlayCellVisible))
                (λ c, c =? CELL_MINE) GameStateLost b Hwf) as H1.
  pose proof (wp_scan (λ o, bool_decide (o = OverlayCellHidden))
                (λ c, negb (c =? CELL_MINE)) GameStateUnfinished b Hwf) as H2.
  assert (∀ x y, (∃ o c, overlay_at b x y = Some o ∧ cell_at b x y = Some c ∧
                    bool_decide (o = OverlayCellVisible) = true ∧
                    (c =? CELL_MINE) = true) ↔ visible_mine b x y) as Hvm.
  { intros x y. unfold visible_mine. split.
    - intros (o & c & Ho & Hc & Hp & Hq).
      apply bool_decide_eq_true in Hp. apply Z.eqb_eq in Hq. by subst.
    - intros [Hc Ho]. exists OverlayCellVisible, CELL_MINE.
      repeat split; done. }
  assert (∀ x y, (∃ o c, overlay_at b x y = Some o ∧ cell_at b x y = Some c ∧
                    bool_decide (o = OverlayCellHidden) = true ∧
                    negb (c =? CELL_MINE) = true) ↔ hidden_safe b x y) as Hhs.
  { intros x y. unfold hidden_safe. split.
    - intros (o & c & Ho & Hc & Hp & Hq).
      apply bool_decide_eq_true in Hp. apply negb_true_iff, Z.eqb_neq in Hq.
      subst. eauto.
    - intros [(c & Hc & Hne) Ho]. exists OverlayCellHidden, c.
      repeat split; try done. by apply negb_true_iff, Z.eqb_neq. }
  cut (wp board_check_game_state
         (λ g b', b' = b ∧
            match g with
            | GameStateLost => ∃ x y, in_range b x y ∧ visible_mine b x y
            | GameStateUnfinished =>
                (∀ x y, in_range b x y → ¬ visible_mine b x y) ∧
                (∃ x y, in_range b x y ∧ hidden_safe b x y)
            | GameStateWon =>
                (∀ x y, in_range b x y → ¬ visible_mine b x y) ∧
                (∀ x y, in_range b x y → ¬ hidden_safe b x y)
            end) b).
  { intros (g & b' & Hrun & -> & Hg). eauto. }
  unfold board_check_game_state.
  apply wp_bind, wp_get_size, wp_bind.
  eapply wp_mono; [exact H1 |]. clear H1.
  intros [g1|] b1 [-> Hr1].
  { destruct Hr1 as (-> & x & y & Hr & Hhit). apply wp_ret.
    split; [done |]. exists x, y. split; [done |]. by apply Hvm. }
  assert (∀ x y, in_range b x y → ¬ visible_mine b x y) as Hnone.
  { intros x y Hr Hv. by apply (Hr1 x y Hr), Hvm. }
  apply wp_bind. eapply wp_mono; [exact H2 |]. clear H2.
  intros [g2|] b2 [-> Hr2]; apply wp_ret.
  - destruct Hr2 as (-> & x & y & Hr & Hhit).
    split; [done |]. split; [done |]. exists x, y. split; [done |].
    by apply Hhs.
  - split; [done |]. split; [done |].
    intros x y Hr Hh. by apply (Hr2 x y Hr), Hhs.
Qed.

(** On any board, well formed or not, a query that returns leaves the
    board as it was. *)
Lemma board_check_game_state_frame b g b' :
  board_check_game_state b = Ok (g, b') → b' = b.
Proof.
  unfold board_check_game_state. intros Hrun.
  apply bind_inv in Hrun as (sz & b1 & [= <- <-] & Hrun).
  apply bind_inv in Hrun as (r1 & b1 & Hscan & Hrun).
  apply (scan_frame (λ o, bool_decide (o = OverlayCellVisible))
           (λ c, c =? CELL_MINE) GameStateLost) in Hscan as ->.
  destruct r1 as [g1 |]; [by injection Hrun as _ <- |].
  apply bind_inv in Hrun as (r2 & b2 & Hscan & Hrun).
  apply (scan_frame (λ o, bool_decide (o = OverlayCellHidden))
           (λ c, negb (c =? CELL_MINE)) GameStateUnfinished) in Hscan as ->.
  destruct r2 as [g2 |]; by injection Hrun as _ <-.
Qed.

Lemma board_check_game_state_won_iff b :
  wf b →
  board_check_game_state b = Ok (GameStateWon, b) ↔
  (∀ x y, in_range b x y → ¬ visible_mine b x y) ∧
  (∀ x y, in_range b x y → ¬ hidden_safe b x y).
Proof.
  intros Hwf.
  destruct (board_check_game_state_spec b Hwf) as (g & Hrun & Hg).
  rewrite Hrun. split.
  - intros [= ->]. exact Hg.
  - intros [Hm Hh]. destruct g; [| done |].
    + destruct Hg as (_ & x & y & Hr & Hs). by destruct (Hh x y Hr).
    + destruct Hg as (x & y & Hr & Hv). by destruct (Hm x y Hr).
Qed.


(** C7.  On every board, [board_check_game_state] returns
    [GameStateLost] exactly when some cell of the board is a mine whose
    overlay is Visible, whatever the overlay of the other cells; no other
    result is returned in that case. *)
Theorem check_game_state_lost_iff b :
  wf b →
  ∃ g, board_check_game_state b = Ok (g, b) ∧
       (g = GameStateLost ↔
        ∃ x y, in_range b x y ∧ cell_at b x y = Some CELL_MINE ∧
               overlay_at b x y = Some OverlayCellVisible).
Proof.
  intros Hwf.
  destruct (board_check_game_state_spec b Hwf) as (g & Hrun & Hg).
  exists g. split; [done |]. split.
  - intros ->. destruct Hg as (x & y & Hr & Hc & Ho). eauto.
  - intros (x & y & Hr & Hc & Ho).
    destruct g; [| | done]; destruct Hg as [Hnone _];
      by destruct (Hnone x y Hr).
Qed.

Lemma check_game_state_lost_iff_witness :
  ∃ g, board_check_game_state board_4x4 = Ok (g, board_4x4) ∧
       (g = GameStateLost ↔
        ∃ x y, in_range board_4x4 x y ∧
               cell_at board_4x4 x y = Some CELL_MINE ∧
               overlay_at board_4x4 x y = Some OverlayCellVisible).
Proof. apply (check_game_state_lost_iff board_4x4). wf_compute. Defined.

(** C10.  [board_check_game_state] is a pure query: the board it leaves is
    the board it was given (size, cells and overlay), and any number of
    queries in a row all return the same result. *)
Theorem check_game_state_pure b :
  wf b →
  ∃ g, board_check_game_state b = Ok (g, b) ∧
       ∀ k, check_repeatedly k b = Ok (replicate k g, b).
Proof.
  intros Hwf.
  destruct (board_check_game_state_spec b Hwf) as (g & Hrun & _).
  exists g. split; [done |].
  induction k as [|k IH]; [done |].
  simpl. unfold mbind, M_bind. rewrite Hrun.
  unfold mbind, M_bind in IH. by rewrite IH.
Qed.

Lemma check_game_state_pure_witness :
  ∃ g, board_check_game_state board_4x4 = Ok (g, board_4x4) ∧
       ∀ k, check_repeatedly k board_4x4 = Ok (replicate k g, board_4x4).
Proof. apply (check_game_state_pure board_4x4). wf_compute. Defined.

(** C1, at the input where the program departs from it.  A 1x1 board
    without a mine is initialised and its cell is marked; revealing the
    marked cell changes nothing, and the query that follows answers
    [GameStateWon] although the only cell, which is not a mine, is not
    Visible. *)
Theorem check_game_state_won_with_marked_cell :
  (board_init 1 0 rand_zero;; board_mark 0 0) board0
    = Ok (tt, board_1x1_marked) ∧
  in_range board_1x1_marked 0 0 ∧
  cell_at board_1x1_marked 0 0 = Some CELL_EMPTY ∧
  overlay_at board_1x1_marked 0 0 = Some OverlayCellMarked ∧
  board_reveal 0 0 board_1x1_marked = Ok (tt, board_1x1_marked) ∧
  board_check_game_state board_1x1_marked
    = Ok (GameStateWon, board_1x1_marked).
Proof. repeat split; vm_compute; done. Qed.

(** C6.  At coordinates of the board, [board_mark] turns a Hidden overlay
    entry into Marked and a Marked one into Hidden, leaves a Visible one as
    it is, and changes no other overlay entry, no cell value and not the
    size; marking the same cell again gives back the board one started
    from. *)
Theorem board_mark_toggle b x y :
  wf b → in_range b x y →
  ∃ b', board_mark x y b = Ok (tt, b') ∧
    (overlay_at b x y = Some OverlayCellHidden →
       overlay_at b' x y = Some OverlayCellMarked) ∧
    (overlay_at b x y = Some OverlayCellMarked →
       overlay_at b' x y = Some OverlayCellHidden) ∧
    (overlay_at b x y = Some OverlayCellVisible →
       overlay_at b' x y = Some OverlayCellVisible) ∧
    (∀ n, n ≠ idx b x y → overlay b' !! n = overlay b !! n) ∧
    cells b' = cells b ∧ size b' = size b ∧
    board_mark x y b' = Ok (tt, b).
Proof.
  intros Hwf Hr.
  destruct (overlay_at_is_Some b x y Hwf Hr) as [o Ho].
  assert (idx b x y < length (overlay b))%nat as Hlt
    by (rewrite (wf_overlay _ Hwf); by apply idx_lt).
  eexists. split; [by apply board_mark_run |].
  set (b' := mkBoard _ _ _).
  assert (overlay_at b' x y = Some (toggle o)) as Ho'
    by (by apply list_lookup_insert_eq).
  rewrite Ho, Ho'. repeat split.
  - by intros [= ->].
  - by intros [= ->].
  - by intros [= ->].
  - intros n Hn. by apply list_lookup_insert_ne.
  - assert (wf b') as Hwf'.
    { destruct Hwf. split; simpl; [done | done |]. by rewrite length_insert. }
    rewrite (board_mark_run b' x y (toggle o) Hwf' Hr Ho'). simpl.
    change (idx b' x y) with (idx b x y).
    rewrite list_insert_insert_eq.
    assert (toggle (toggle o) = o) as -> by (by destruct o).
    rewrite list_insert_id by done. destruct b; reflexivity.
Qed.

Lemma board_mark_toggle_witness :
  ∃ b', board_mark 0 0 board_4x4 = Ok (tt, b') ∧
    (overlay_at board_4x4 0 0 = Some OverlayCellHidden →
       overlay_at b' 0 0 = Some OverlayCellMarked) ∧
    (overlay_at board_4x4 0 0 = Some OverlayCellMarked →
       overlay_at b' 0 0 = Some OverlayCellHidden) ∧
    (overlay_at board_4x4 0 0 = Some OverlayCellVisible →
       overlay_at b' 0 0 = Some OverlayCellVisible) ∧
    (∀ n, n ≠ idx board_4x4 0 0 → overlay b' !! n = overlay board_4x4 !! n) ∧
    cells b' = cells board_4x4 ∧ size b' = size board_4x4 ∧
    board_mark 0 0 b' = Ok (tt, board_4x4).
Proof.
  apply (board_mark_toggle board_4x4 0 0); [wf_compute | in_range_compute].
Defined.

(** ** Loops over a range *)

(** The rule for [for_acc]: [R] relates the board at loop entry to every
    later board, [I] is the invariant, and [C i] is what iteration [i]
    establishes and the later iterations keep. *)
Lemma wp_for_acc {A} (R : Board → Board → Prop) (I : A → Board → Prop)
    (C : Z → Board → Prop) lo hi (body : Z → A → M A) (a : A) b :
  (∀ b1, R b1 b1) →
  (∀ b1 b2 b3, R b1 b2 → R b2 b3 → R b1 b3) →
  (∀ i b1 b2, C i b1 → R b1 b2 → C i b2) →
  I a b →
  (∀ i a1 b1, lo ≤ i < hi → R b b1 → I a1 b1 →
     wp (body i a1) (λ a2 b2, R b1 b2 ∧ I a2 b2 ∧ C i b2) b1) →
  wp (for_acc lo hi body a)
     (λ a' b', R b b' ∧ I a' b' ∧ ∀ i, lo ≤ i < hi → C i b') b.
Proof.
  intros Hrefl Htrans Hstable HI Hbody. unfold for_acc.
  eapply wp_mono.
  - apply (wp_iter (λ done a' b', R b b' ∧ I a' b' ∧ ∀ i, i ∈ done → C i b')).
    + split; [done |]. split; [done |]. intros i Hi. by apply elem_of_nil in Hi.
    + intros done i rest a1 b1 Hsplit (HR & HI1 & HC).
      apply seqZ_split_bounds in Hsplit.
      eapply wp_mono; [apply Hbody; [lia | done | done] |].
      intros a2 b2 (HR2 & HI2 & HC2). split; [by eapply Htrans |].
      split; [done |]. intros i' Hi'.
      apply elem_of_app in Hi' as [Hi' | Hi'].
      * eapply Hstable; [by apply HC | done].
      * by apply list_elem_of_singleton in Hi' as ->.
  - intros a' b' (HR & HI' & HC). split; [done |]. split; [done |].
    intros i Hi. apply HC, elem_of_seqZ. lia.
Qed.

(** ** Boards related by [opened] *)

Lemma opened_refl P b : opened P b b.
Proof. split; auto. Qed.

Lemma opened_in_range P b b' x y :
  opened P b b' → in_range b' x y ↔ in_range b x y.
Proof. intros [Hs _ _ _]. unfold in_range. by rewrite Hs. Qed.

Lemma opened_idx P b b' x y : opened P b b' → idx b' x y = idx b x y.
Proof. intros [Hs _ _ _]. unfold idx. by rewrite Hs. Qed.

Lemma opened_cell_at P b b' x y :
  opened P b b' → cell_at b' x y = cell_at b x y.
Proof.
  intros Ho. unfold cell_at.
  by rewrite (opened_idx _ _ _ _ _ Ho), (opened_cells _ _ _ Ho).
Qed.

Lemma opened_trans P b1 b2 b3 :
  opened P b1 b2 → opened P b2 b3 → opened P b1 b3.
Proof.
  intros H12 H23. split.
  - rewrite (opened_size _ _ _ H23). apply H12.
  - rewrite (opened_cells _ _ _ H23). apply H12.
  - rewrite (opened_length _ _ _ H23). apply H12.
  - intros n.
    destruct (opened_overlay _ _ _ H23 n) as [Heq | (Hh & Hv & x & y & Hr & Hn & HP)];
      destruct (opened_overlay _ _ _ H12 n) as [Heq' | (Hh' & Hv' & Hxy)].
    + left. congruence.
    + right. rewrite Heq. auto.
    + right. rewrite <- Heq'. split; [done |]. split; [done |].
      exists x, y. split; [by apply (opened_in_range _ _ _ x y H12) |].
      split; [| done]. by rewrite <- (opened_idx _ _ _ _ _ H12).
    + congruence.
Qed.

Lemma opened_wf P b b' : opened P b b' → wf b → wf b'.
Proof.
  intros [Hs Hc Hl _] [? ? ?]. split.
  - by rewrite Hs.
  - by rewrite Hc.
  - by rewrite Hl.
Qed.

(** A cell that is not Hidden keeps its overlay. *)
Lemma opened_keeps P b b' n o :
  opened P b b' → overlay b !! n = Some o → o ≠ OverlayCellHidden →
  overlay b' !! n = Some o.
Proof.
  intros Ho Hn Hne.
  destruct (opened_overlay _ _ _ Ho n) as [Heq | (Hh & _)]; congruence.
Qed.

Lemma opened_not_hidden P b b' x y :
  opened P b b' →
  overlay_at b x y ≠ Some OverlayCellHidden →
  overlay_at b' x y ≠ Some OverlayCellHidden.
Proof.
  intros Ho. unfold overlay_at. rewrite (opened_idx _ _ _ _ _ Ho).
  destruct (opened_overlay _ _ _ Ho (idx b x y)) as [Heq | (Hh & Hv & _)];
    congruence.
Qed.

Lemma opened_hidden_before P b b' n :
  opened P b b' → overlay b' !! n = Some OverlayCellHidden →
  overlay b !! n = Some OverlayCellHidden.
Proof.
  intros Hop Hn.
  destruct (opened_overlay _ _ _ Hop n) as [Heq | (_ & Hv & _)]; congruence.
Qed.

(** Counting the entries that satisfy a predicate. *)
Lemma filter_length_le {A} (P : A → Prop) `{∀ x, Decision (P x)}
    (l l' : list A) :
  length l' = length l →
  (∀ n x, l' !! n = Some x → P x → ∃ y, l !! n = Some y ∧ P y) →
  (length (filter P l') ≤ length (filter P l))%nat.
Proof.
  revert l'. induction l as [|y l IH]; intros [|x l'] Hlen Himp;
    simpl in Hlen; try done.
  assert (length (filter P l') ≤ length (filter P l))%nat as IH'.
  { apply IH; [lia |]. intros n. apply (Himp (S n)). }
  rewrite !filter_cons.
  destruct (decide (P x)) as [HPx | HPx].
  - destruct (Himp 0%nat x eq_refl HPx) as (y' & [= <-] & HPy).
    rewrite decide_True by done. simpl. lia.
  - destruct (decide (P y)); simpl; lia.
Qed.

Lemma hidden_count_insert (l : list OverlayCell) n :
  l !! n = Some OverlayCellHidden →
  (length (filter (λ o, o = OverlayCellHidden) (<[n := OverlayCellVisible]> l))
   < length (filter (λ o, o = OverlayCellHidden) l))%nat.
Proof.
  revert n. induction l as [|o l IH]; intros [|n] Hn; simpl in Hn; try done.
  - injection Hn as ->.
    change (<[0%nat := OverlayCellVisible]> (OverlayCellHidden :: l))
      with (OverlayCellVisible :: l).
    rewrite filter_cons_False by done. rewrite filter_cons_True by done.
    simpl. lia.
  - change (<[S n := OverlayCellVisible]> (o :: l))
      with (o :: <[n := OverlayCellVisible]> l).
    rewrite !filter_cons. specialize (IH n Hn).
    destruct (decide (o = OverlayCellHidden)); simpl; lia.
Qed.

Lemma opened_hidden_count P b b' :
  opened P b b' → (hidden_count b' ≤ hidden_count b)%nat.
Proof.
  intros Ho. apply filter_length_le; [apply Ho |].
  intros n o Hn ->. exists OverlayCellHidden. split; [| done].
  by eapply opened_hidden_before.
Qed.

Lemma hidden_count_bound b :
  wf b → (hidden_count b ≤ Z.to_nat MAX_BOARD_AREA)%nat.
Proof.
  intros Hwf. rewrite <- (wf_overlay _ Hwf). apply length_filter.
Qed.

(** ** board_reveal *)

(** The bounds of the two loops of [board_reveal] select the cells of the
    board in the block around the revealed cell. *)
Lemma block_bounds sz x i :
  0 ≤ x < sz →
  Z.max (x - 1) 0 ≤ i < Z.min (x + 2) sz ↔
  (0 ≤ i < sz) ∧ (x - 1 ≤ i ≤ x + 1).
Proof. lia. Qed.

Lemma coordinate_small b x :
  wf b → 0 ≤ x < size b → 0 ≤ x < 2 ^ 31.
Proof. intros [Hs _ _] Hx. unfold MAX_BOARD_SIZE in Hs. lia. Qed.

(** Opening the Hidden cell [(x, y)]. *)
Lemma open_cell_opened (P : Z → Z → Prop) b x y :
  in_range b x y → P x y →
  overlay_at b x y = Some OverlayCellHidden →
  opened P b
    (mkBoard (size b) (cells b) (<[idx b x y := OverlayCellVisible]> (overlay b))).
Proof.
  intros Hr HP Ho. split; simpl; [done | done | by rewrite length_insert |].
  intros n. destruct (decide (n = idx b x y)) as [-> | Hne].
  - right. split; [done |]. split.
    + apply list_lookup_insert_eq. by eapply lookup_lt_Some.
    + by exists x, y.
  - left. by apply list_lookup_insert_ne.
Qed.

(** What one call of [board_reveal] does, for any depth of recursion that
    exceeds the number of Hidden entries: it returns; the board it leaves
    is the board it was given with Hidden cells opened, all of them within
    any set [P] that holds the revealed cell and is closed under the step
    of the flood; the revealed cell is not Hidden any more; and the flood
    around every empty cell it opened is complete. *)
Lemma board_reveal_rec_spec fuel :
  ∀ b x y (P A : Z → Z → Prop),
    wf b → in_range b x y → (hidden_count b < fuel)%nat →
    spreads b P → P x y → closed_except A b →
    wp (board_reveal_rec fuel x y)
       (λ _ b',
          opened P b b' ∧
          overlay_at b' x y ≠ Some OverlayCellHidden ∧
          closed_except A b' ∧
          (overlay_at b x y ≠ Some OverlayCellHidden → b' = b)) b.
Proof.
  induction fuel as [|fuel IH]; intros b x y P A Hwf Hr Hfuel Hsp HP Hcl;
    [lia |].
  simpl. apply wp_bind, wp_get_size.
  rewrite (index_of_idx _ _ _ Hwf Hr).
  destruct (overlay_at_is_Some b x y Hwf Hr) as [o Ho].
  apply wp_bind. eapply wp_load_overlay; [exact Ho |].
  assert (o ≠ OverlayCellHidden →
          wp (mret tt)
            (λ _ b', opened P b b' ∧
               overlay_at b' x y ≠ Some OverlayCellHidden ∧
               closed_except A b' ∧
               (overlay_at b x y ≠ Some OverlayCellHidden → b' = b)) b)
    as Hskip.
  { intros Hne. apply wp_ret. split; [apply opened_refl |].
    split; [congruence |]. done. }
  destruct o; [| by apply Hskip | by apply Hskip]. clear Hskip.
  assert (idx b x y < length (overlay b))%nat as Hlt
    by (by eapply lookup_lt_Some).
  apply wp_bind, wp_store_overlay; [done |].
  set (b1 := mkBoard _ _ _).
  assert (opened P b b1) as Hop1 by (by apply open_cell_opened).
  assert (wf b1) as Hwf1 by (by eapply opened_wf).
  assert (overlay_at b1 x y = Some OverlayCellVisible) as Hv1
    by (by apply list_lookup_insert_eq).
  assert (hidden_count b1 < fuel)%nat as Hfuel1.
  { pose proof (hidden_count_insert (overlay b) (idx b x y) Ho).
    unfold hidden_count in *. simpl. lia. }
  destruct (cell_at_is_Some b x y Hwf Hr) as [c Hc].
  apply wp_bind. eapply wp_load_cell; [exact Hc |].
  set (A' := λ x' y', A x' y' ∨ (x' = x ∧ y' = y)).
  assert (closed_except A' b1) as Hcl1.
  { intros x0 y0 x' y' Hr0 Hv0 Hc0 HnA Hr' Hadj.
    apply (opened_not_hidden _ _ _ _ _ Hop1).
    assert (idx b x0 y0 ≠ idx b x y) as Hne.
    { intros Heq. apply idx_inj in Heq; [| done | done].
      apply HnA. by right. }
    apply (Hcl x0 y0 x' y'); try done.
    - unfold overlay_at in Hv0. simpl in Hv0.
      change (idx b1 x0 y0) with (idx b x0 y0) in Hv0.
      by rewrite list_lookup_insert_ne in Hv0.
    - intros HA. apply HnA. by left. }
  destruct (Z.eqb_spec c CELL_EMPTY) as [-> | Hnonempty].
  2:{ apply wp_ret. split; [done |]. split; [congruence |].
      split; [| congruence].
      intros x0 y0 x' y' Hr0 Hv0 Hc0 HnA Hr' Hadj.
      apply (Hcl1 x0 y0 x' y'); try done.
      intros [HA | [-> ->]]; [done |].
      rewrite (opened_cell_at _ _ _ _ _ Hop1) in Hc0. congruence. }
  destruct Hr as [Hx Hy].
  rewrite !to_int_small by (by eapply coordinate_small).
  change (size b1) with (size b).
  unfold for_.
  eapply wp_mono.
  - apply (wp_for_acc (opened P) (λ _ b', closed_except A' b')
             (λ j b', ∀ i, Z.max (x - 1) 0 ≤ i < Z.min (x + 2) (size b) →
                           overlay_at b' i j ≠ Some OverlayCellHidden)).
    + apply opened_refl.
    + apply opened_trans.
    + intros j b2 b3 HC Hop i Hi. eapply opened_not_hidden; [done |].
      by apply HC.
    + done.
    + intros j [] b2 Hj Hop2 Hcl2.
      eapply wp_mono.
      * apply (wp_for_acc (opened P) (λ _ b', closed_except A' b')
                 (λ i b', overlay_at b' i j ≠ Some OverlayCellHidden)).
        -- apply opened_refl.
        -- apply opened_trans.
        -- intros i b3 b4 HC Hop. by eapply opened_not_hidden.
        -- done.
        -- intros i [] b3 Hi Hop3 Hcl3.
           apply block_bounds in Hi as [Hi Hadjx]; [| done].
           apply block_bounds in Hj as [Hj Hadjy]; [| done].
           assert (opened P b b3) as Hop
             by (eapply opened_trans; [exact Hop1 |];
                 by eapply opened_trans).
           rewrite !to_uint_small by (pose proof (wf_size _ Hwf);
             unfold MAX_BOARD_SIZE in *; lia).
           eapply wp_mono.
           ++ apply (IH b3 i j P A').
              ** by eapply opened_wf.
              ** by apply (opened_in_range _ _ _ i j Hop).
              ** pose proof (opened_hidden_count _ _ _ Hop3).
                 pose proof (opened_hidden_count _ _ _ Hop2). lia.
              ** intros x0 y0 x' y' HP0 Hr0 Hc0 Hr' Hadj.
                 apply (Hsp x0 y0 x' y'); try done.
                 --- by apply (opened_in_range _ _ _ x0 y0 Hop).
                 --- by rewrite <- (opened_cell_at _ _ _ _ _ Hop).
                 --- by apply (opened_in_range _ _ _ x' y' Hop).
              ** apply (Hsp x y i j); done.
              ** done.
           ++ intros [] b4 (Hop4 & Hnh & Hcl4 & _). done.
      * intros [] b3 (Hop3 & Hcl3 & HC). done.
  - intros [] b2 (Hop2 & Hcl2 & HC).
    assert (opened P b b2) as Hop by (by eapply opened_trans).
    split; [done |].
    split; [apply (opened_not_hidden _ _ _ _ _ Hop2); congruence |].
    split; [| congruence].
    intros x0 y0 x' y' Hr0 Hv0 Hc0 HnA Hr' Hadj.
    destruct (decide (x0 = x ∧ y0 = y)) as [[-> ->] | Hne].
    + apply (opened_in_range _ _ _ x' y' Hop) in Hr'.
      destruct Hr' as [Hx' Hy'], Hadj as [Hax Hay].
      apply HC; apply block_bounds; done.
    + apply (Hcl2 x0 y0 x' y'); try done.
      intros [HA | Heq]; [by apply HnA | by apply Hne].
Qed.

(** The depth [board_reveal] allows is never reached. *)
Lemma board_reveal_spec b x y (P A : Z → Z → Prop) :
  wf b → in_range b x y → spreads b P → P x y → closed_except A b →
  wp (board_reveal x y)
     (λ _ b',
        opened P b b' ∧
        overlay_at b' x y ≠ Some OverlayCellHidden ∧
        closed_except A b' ∧
        (overlay_at b x y ≠ Some OverlayCellHidden → b' = b)) b.
Proof.
  intros Hwf Hr Hsp HP Hcl. apply board_reveal_rec_spec; try done.
  pose proof (hidden_count_bound b Hwf). lia.
Qed.

Lemma closed_except_all b : closed_except (λ _ _, True) b.
Proof. intros x y x' y' _ _ _ HnA. by destruct HnA. Qed.

Lemma spreads_all b : spreads b (λ _ _, True).
Proof. done. Qed.

(** The frame of [board_reveal]: it returns, and opens Hidden cells only. *)
Lemma board_reveal_opened b x y :
  wf b → in_range b x y →
  ∃ b', board_reveal x y b = Ok (tt, b') ∧
        opened (λ _ _, True) b b' ∧
        overlay_at b' x y ≠ Some OverlayCellHidden ∧
        (overlay_at b x y ≠ Some OverlayCellHidden → b' = b).
Proof.
  intros Hwf Hr.
  destruct (board_reveal_spec b x y (λ _ _, True) (λ _ _, True) Hwf Hr
              (spreads_all b) I (closed_except_all b))
    as ([] & b' & Hrun & Hop & Hnh & _ & Hsame).
  by exists b'.
Qed.

(** C5.  At coordinates of the board whose overlay is not Hidden (Visible
    or Marked), [board_reveal] leaves the whole board as it is; hence
    revealing a cell twice gives the board that revealing it once gives,
    and every Marked entry is still Marked after a reveal. *)
Theorem board_reveal_idempotent b x y :
  wf b → in_range b x y →
  ∃ b', board_reveal x y b = Ok (tt, b') ∧
    (overlay_at b x y ≠ Some OverlayCellHidden → b' = b) ∧
    (board_reveal x y;; board_reveal x y) b = Ok (tt, b') ∧
    (∀ n, overlay b !! n = Some OverlayCellMarked →
          overlay b' !! n = Some OverlayCellMarked).
Proof.
  intros Hwf Hr.
  destruct (board_reveal_opened b x y Hwf Hr)
    as (b' & Hrun & Hop & Hnh & Hsame).
  exists b'. split; [done |]. split; [done |]. split.
  - assert (wf b') as Hwf' by (by eapply opened_wf).
    assert (in_range b' x y) as Hr'
      by (by apply (opened_in_range _ _ _ x y Hop)).
    destruct (board_reveal_opened b' x y Hwf' Hr')
      as (b'' & Hrun' & _ & _ & Hsame').
    unfold mbind, M_bind. rewrite Hrun, Hrun'. by rewrite (Hsame' Hnh).
  - intros n Hn. by eapply opened_keeps.
Qed.

(** ** The flood of board_reveal *)

Lemma mine_at_range b x y : 0 ≤ mine_at b x y ≤ 1.
Proof. unfold mine_at. case_match; lia. Qed.

Lemma mine_at_zero b x y :
  in_range b x y → mine_at b x y = 0 → cell_at b x y ≠ Some CELL_MINE.
Proof.
  intros [Hx Hy] Hm Hc. unfold mine_at in Hm.
  rewrite bool_decide_eq_true_2 in Hm by done.
  destruct (Z.leb_spec 0 x), (Z.ltb_spec x (size b)),
           (Z.leb_spec 0 y), (Z.ltb_spec y (size b)); simpl in Hm; lia.
Qed.

(** On a numbered board no mine lies in the block around an empty cell. *)
Lemma numbered_empty_safe b x y x' y' :
  numbered b → in_range b x y → cell_at b x y = Some CELL_EMPTY →
  in_range b x' y' → adjacent x y x' y' →
  cell_at b x' y' ≠ Some CELL_MINE.
Proof.
  intros Hnum Hr Hc Hr' [Hax Hay].
  pose proof (Hnum x y CELL_EMPTY Hr Hc ltac:(done)) as Hsum.
  unfold neighbour_mines, CELL_EMPTY in Hsum.
  pose proof (mine_at_range b (x - 1) (y - 1)).
  pose proof (mine_at_range b x (y - 1)).
  pose proof (mine_at_range b (x + 1) (y - 1)).
  pose proof (mine_at_range b (x - 1) y).
  pose proof (mine_at_range b (x + 1) y).
  pose proof (mine_at_range b (x - 1) (y + 1)).
  pose proof (mine_at_range b x (y + 1)).
  pose proof (mine_at_range b (x + 1) (y + 1)).
  assert (x' = x - 1 ∨ x' = x ∨ x' = x + 1) as Hx' by lia.
  assert (y' = y - 1 ∨ y' = y ∨ y' = y + 1) as Hy' by lia.
  destruct Hx' as [-> | [-> | ->]], Hy' as [-> | [-> | ->]];
    try (apply mine_at_zero; [done | lia]).
  rewrite Hc. discriminate.
Qed.

Lemma zero_region_empty b x0 y0 x y :
  in_range b x0 y0 → cell_at b x0 y0 = Some CELL_EMPTY →
  zero_region b x0 y0 x y →
  in_range b x y ∧ cell_at b x y = Some CELL_EMPTY.
Proof. intros Hr Hc Hz. by destruct Hz. Qed.

Lemma adjacent_refl x y : adjacent x y x y.
Proof. unfold adjacent. lia. Qed.

(** A complete flood, read on the board before it. *)
Lemma closed_after (P : Z → Z → Prop) b b' x y x' y' :
  opened P b b' → closed_except (λ _ _, False) b' →
  in_range b x y → overlay_at b' x y = Some OverlayCellVisible →
  cell_at b x y = Some CELL_EMPTY →
  in_range b x' y' → adjacent x y x' y' →
  overlay_at b' x' y' ≠ Some OverlayCellHidden.
Proof.
  intros Hop Hcl Hr Hv Hc Hr' Hadj.
  apply (Hcl x y x' y').
  - by apply (opened_in_range _ _ _ x y Hop).
  - done.
  - by rewrite (opened_cell_at _ _ _ _ _ Hop).
  - by intros [].
  - by apply (opened_in_range _ _ _ x' y' Hop).
  - done.
Qed.

(** C4.  On a board whose overlay is entirely Hidden, revealing an empty
    cell (value zero, not a mine) makes Visible exactly the empty cells
    connected to it through empty cells, under 8-connectivity, together
    with the numbered cells next to that region; no other overlay entry
    changes, and neither do the cell values nor the size. *)
Theorem board_reveal_flood b x y :
  wf b → numbered b → all_hidden b →
  in_range b x y → cell_at b x y = Some CELL_EMPTY →
  ∃ b', board_reveal x y b = Ok (tt, b') ∧
    size b' = size b ∧ cells b' = cells b ∧
    (∀ x' y', in_range b x' y' →
       (overlay_at b' x' y' = Some OverlayCellVisible ↔ flooded b x y x' y')) ∧
    (∀ n, overlay b' !! n ≠ overlay b !! n →
       ∃ x' y', in_range b x' y' ∧ n = idx b x' y' ∧ flooded b x y x' y').
Proof.
  intros Hwf Hnum Hall Hr Hc.
  set (P := λ x' y', ∃ xr yr, zero_region b x y xr yr ∧ adjacent xr yr x' y').
  assert (∀ n o, overlay b !! n = Some o → o = OverlayCellHidden) as Hhid.
  { intros n o Hn. by eapply (proj1 (Forall_lookup _ _) Hall). }
  assert (spreads b P) as Hsp.
  { intros x1 y1 x2 y2 (xr & yr & Hz & Hadj) Hr1 Hc1 Hr2 Hadj2.
    exists x1, y1. split; [| done]. by eapply zero_region_step. }
  assert (P x y) as HP.
  { exists x, y. split; [constructor | apply adjacent_refl]. }
  assert (closed_except (λ _ _, False) b) as Hcl.
  { intros x1 y1 x2 y2 Hr1 Hv1. by apply Hhid in Hv1. }
  assert (∀ x' y', in_range b x' y' → P x' y' → flooded b x y x' y') as HPf.
  { intros x' y' Hr' (xr & yr & Hz & Hadj).
    destruct (zero_region_empty _ _ _ _ _ Hr Hc Hz) as [Hrr Hcr].
    destruct (cell_at_is_Some b x' y' Hwf Hr') as [c' Hc'].
    destruct (decide (c' = CELL_EMPTY)) as [-> | Hne].
    - left. by eapply zero_region_step.
    - right. split; [| by exists xr, yr].
      exists c'. split; [done |]. split; [done |]. intros ->.
      by eapply (numbered_empty_safe b xr yr x' y'). }
  destruct (board_reveal_spec b x y P (λ _ _, False) Hwf Hr Hsp HP Hcl)
    as ([] & b' & Hrun & Hop & Hnh & Hcl' & _).
  exists b'. split; [done |].
  split; [apply Hop |]. split; [apply Hop |].
  assert (∀ x' y', in_range b x' y' →
            overlay_at b' x' y' ≠ Some OverlayCellHidden →
            overlay_at b' x' y' = Some OverlayCellVisible) as Hvis.
  { intros x' y' Hr' Hne. unfold overlay_at in *.
    rewrite (opened_idx _ _ _ _ _ Hop) in *.
    destruct (opened_overlay _ _ _ Hop (idx b x' y'))
      as [Heq | (_ & Hv & _)]; [| done].
    destruct (overlay_at_is_Some b x' y' Hwf Hr') as [o Ho].
    unfold overlay_at in Ho. rewrite Heq, Ho in Hne.
    apply Hhid in Ho as ->. done. }
  assert (∀ xr yr, zero_region b x y xr yr →
            overlay_at b' xr yr = Some OverlayCellVisible) as Hregion.
  { intros xr yr Hz. induction Hz as [| x1 y1 x2 y2 Hz IH Hr2 Hadj Hc2].
    - by apply Hvis.
    - destruct (zero_region_empty _ _ _ _ _ Hr Hc Hz) as [Hr1 Hc1].
      apply Hvis; [done |].
      by apply (closed_after P b b' x1 y1 x2 y2). }
  split.
  - intros x' y' Hr'. split.
    + intros Hv. apply HPf; [done |].
      unfold overlay_at in Hv. rewrite (opened_idx _ _ _ _ _ Hop) in Hv.
      destruct (opened_overlay _ _ _ Hop (idx b x' y'))
        as [Heq | (_ & _ & x1 & y1 & Hr1 & Hidx & HP1)].
      * rewrite Heq in Hv. by apply Hhid in Hv.
      * apply idx_inj in Hidx as [-> ->]; done.
    + intros [Hz | [_ (xr & yr & Hz & Hadj)]]; [by apply Hregion |].
      destruct (zero_region_empty _ _ _ _ _ Hr Hc Hz) as [Hrr Hcr].
      apply Hvis; [done |].
      apply (closed_after P b b' xr yr x' y'); try done.
      by apply Hregion.
  - intros n Hn.
    destruct (opened_overlay _ _ _ Hop n)
      as [Heq | (_ & _ & x1 & y1 & Hr1 & Hidx & HP1)]; [done |].
    exists x1, y1. split; [done |]. split; [done |]. by apply HPf.
Qed.

(** ** The visits of board_reveal *)

Lemma iter_erase {A} (body : Z → unit → M unit) (body' : Z → A → M A) idxs :
  (∀ i u a b, body i u b = erase (body' i a b)) →
  ∀ u a b, iter body idxs u b = erase (iter body' idxs a b).
Proof.
  intros Hbody. induction idxs as [|i idxs IH]; intros u a b;
    [by destruct u |].
  simpl. unfold mbind, M_bind. rewrite (Hbody i u a b).
  destruct (body' i a b) as [[a' b'] | |]; simpl; [| done | done].
  apply IH.
Qed.

Lemma bind_erase {A B} (m : M A) (k : A → M unit) (k' : A → M B) b :
  (∀ a b', k a b' = erase (k' a b')) →
  (m ≫= k) b = erase ((m ≫= k') b).
Proof.
  intros Hk. unfold mbind, M_bind.
  destruct (m b) as [[a b'] | |]; [apply Hk | done | done].
Qed.

(** The record does not change what the computation does to the board. *)
Lemma board_reveal_log_erase fuel :
  ∀ x y log b,
    board_reveal_rec fuel x y b = erase (board_reveal_log fuel x y log b).
Proof.
  induction fuel as [|fuel IH]; intros x y log b; [done |].
  cbn [board_reveal_rec board_reveal_log].
  apply bind_erase. intros sz b1.
  apply bind_erase. intros o b2.
  destruct o; [| done | done].
  apply bind_erase. intros [] b3.
  apply bind_erase. intros c b4.
  destruct (c =? CELL_EMPTY); [| done].
  unfold for_, for_acc. apply iter_erase. intros j u a b5.
  apply iter_erase. intros i u' a' b6. apply IH.
Qed.

(** The visits of two computations in a row. *)
Lemma visits_app P b b1 b2 new new' :
  opened P b b1 → opened P b1 b2 →
  visits b b1 new → visits b1 b2 new' →
  visits b b2 (new ++ new').
Proof.
  intros Hop1 Hop2 [Hnd Hnew] [Hnd' Hnew']. split.
  - apply NoDup_app. split; [done |]. split; [| done].
    intros n Hn Hn'. apply Hnew in Hn as [_ Hv]. apply Hnew' in Hn' as [Hh _].
    congruence.
  - intros n Hn. apply elem_of_app in Hn as [Hn | Hn].
    + apply Hnew in Hn as [Hh Hv]. split; [done |].
      by eapply opened_keeps.
    + apply Hnew' in Hn as [Hh Hv]. split; [| done].
      by eapply opened_hidden_before.
Qed.

(** The visits of one call of [board_reveal]: each visit opens a Hidden
    cell, and no cell is visited twice. *)
Lemma board_reveal_log_spec fuel :
  ∀ b x y log,
    wf b → in_range b x y → (hidden_count b < fuel)%nat →
    wp (board_reveal_log fuel x y log)
       (λ log' b',
          opened (λ _ _, True) b b' ∧
          ∃ new, log' = log ++ new ∧ visits b b' new) b.
Proof.
  induction fuel as [|fuel IH]; intros b x y log Hwf Hr Hfuel; [lia |].
  cbn [board_reveal_log]. apply wp_bind, wp_get_size.
  rewrite (index_of_idx _ _ _ Hwf Hr), Nat2Z.id.
  destruct (overlay_at_is_Some b x y Hwf Hr) as [o Ho].
  apply wp_bind. eapply wp_load_overlay; [exact Ho |].
  assert (wp (mret log)
            (λ log' b', opened (λ _ _, True) b b' ∧
               ∃ new, log' = log ++ new ∧ visits b b' new) b) as Hskip.
  { apply wp_ret. split; [apply opened_refl |]. exists [].
    split; [by rewrite app_nil_r |]. split; [constructor |].
    intros n Hn. by apply elem_of_nil in Hn. }
  destruct o; [| done | done]. clear Hskip.
  assert (idx b x y < length (overlay b))%nat as Hlt
    by (by eapply lookup_lt_Some).
  apply wp_bind, wp_store_overlay; [done |].
  set (b1 := mkBoard _ _ _).
  assert (opened (λ _ _, True) b b1) as Hop1 by (by apply open_cell_opened).
  assert (hidden_count b1 < fuel)%nat as Hfuel1.
  { pose proof (hidden_count_insert (overlay b) (idx b x y) Ho).
    unfold hidden_count in *. simpl. lia. }
  assert (visits b b1 [idx b x y]) as Hvis1.
  { split; [apply NoDup_singleton |]. intros n Hn.
    apply list_elem_of_singleton in Hn as ->. split; [done |].
    by apply list_lookup_insert_eq. }
  destruct (cell_at_is_Some b x y Hwf Hr) as [c Hc].
  apply wp_bind. eapply wp_load_cell; [exact Hc |].
  destruct (c =? CELL_EMPTY).
  2:{ apply wp_ret. split; [done |]. by exists [idx b x y]. }
  destruct Hr as [Hx Hy].
  rewrite !to_int_small by (by eapply coordinate_small).
  change (size b1) with (size b).
  set (Inv := λ (acc : list nat) b', ∃ new, acc = log ++ new ∧ visits b b' new).
  eapply wp_mono.
  - apply (wp_for_acc (opened (λ _ _, True)) Inv (λ _ _, True)).
    + apply opened_refl.
    + apply opened_trans.
    + done.
    + by exists [idx b x y].
    + intros j acc b2 Hj Hop2 Hinv2.
      eapply wp_mono.
      * apply (wp_for_acc (opened (λ _ _, True)) Inv (λ _ _, True)).
        -- apply opened_refl.
        -- apply opened_trans.
        -- done.
        -- done.
        -- intros i acc3 b3 Hi Hop3 (new & -> & Hvis3).
           apply block_bounds in Hi as [Hi Hadjx]; [| done].
           apply block_bounds in Hj as [Hj Hadjy]; [| done].
           assert (opened (λ _ _, True) b b3) as Hop
             by (eapply opened_trans; [exact Hop1 |];
                 by eapply opened_trans).
           rewrite !to_uint_small by (pose proof (wf_size _ Hwf);
             unfold MAX_BOARD_SIZE in *; lia).
           eapply wp_mono.
           ++ apply (IH b3 i j (log ++ new)).
              ** by eapply opened_wf.
              ** by apply (opened_in_range _ _ _ i j Hop).
              ** pose proof (opened_hidden_count _ _ _ Hop3).
                 pose proof (opened_hidden_count _ _ _ Hop2). lia.
           ++ intros acc4 b4 (Hop4 & new' & -> & Hvis4).
              split; [done |]. split; [| done].
              exists (new ++ new'). split; [by rewrite app_assoc |].
              by eapply visits_app.
      * intros acc3 b3 (Hop3 & Hinv3 & _). done.
  - intros acc2 b2 (Hop2 & Hinv2 & _). split; [| done].
    by eapply opened_trans.
Qed.

(** More fuel does not change a result. *)
Lemma bind_mono {A B} (m : M A) (k k' : A → M B) b r :
  (∀ a b', k a b' = Ok r → k' a b' = Ok r) →
  (m ≫= k) b = Ok r → (m ≫= k') b = Ok r.
Proof.
  intros Hk. unfold mbind, M_bind.
  destruct (m b) as [[a b'] | |]; [apply Hk | done | done].
Qed.

Lemma iter_mono {A} (body body' : Z → A → M A) idxs :
  (∀ i a b r, body i a b = Ok r → body' i a b = Ok r) →
  ∀ a b r, iter body idxs a b = Ok r → iter body' idxs a b = Ok r.
Proof.
  intros Hbody. induction idxs as [|i idxs IH]; intros a b r; [done |].
  simpl. unfold mbind, M_bind.
  destruct (body i a b) as [[a' b'] | |] eqn:Hrun; [| done | done].
  rewrite (Hbody _ _ _ _ Hrun). apply IH.
Qed.

Lemma board_reveal_rec_mono fuel :
  ∀ fuel' x y b r,
    (fuel ≤ fuel')%nat →
    board_reveal_rec fuel x y b = Ok r → board_reveal_rec fuel' x y b = Ok r.
Proof.
  induction fuel as [|fuel IH]; intros fuel' x y b r Hle; [done |].
  destruct fuel' as [|fuel']; [lia |].
  cbn [board_reveal_rec].
  apply bind_mono. intros sz b1.
  apply bind_mono. intros o b2.
  destruct o; [| done | done].
  apply bind_mono. intros [] b3.
  apply bind_mono. intros c b4.
  destruct (c =? CELL_EMPTY); [| done].
  unfold for_, for_acc. apply iter_mono. intros j u b5 r5.
  apply iter_mono. intros i u' b6 r6. apply IH. lia.
Qed.

(** C9.  At coordinates of the board [board_reveal] terminates: it returns
    a board.  Its flood writes each overlay entry at most once, every
    write turning a Hidden cell Visible, so that the writes number at most
    [size * size]; and a recursion depth of one more than the number of
    Hidden entries is enough. *)
Theorem board_reveal_terminates b x y :
  wf b → in_range b x y →
  ∃ b' log,
    board_reveal x y b = Ok (tt, b') ∧
    board_reveal_log (S (Z.to_nat MAX_BOARD_AREA)) x y [] b = Ok (log, b') ∧
    NoDup log ∧
    (∀ n, n ∈ log → overlay b !! n = Some OverlayCellHidden ∧
                    overlay b' !! n = Some OverlayCellVisible) ∧
    Z.of_nat (length log) ≤ size b * size b ∧
    (∀ fuel, (hidden_count b < fuel)%nat →
             board_reveal_rec fuel x y b = Ok (tt, b')).
Proof.
  intros Hwf Hr.
  pose proof (hidden_count_bound b Hwf) as Hbound.
  destruct (board_reveal_log_spec (S (Z.to_nat MAX_BOARD_AREA)) b x y []
              Hwf Hr ltac:(lia))
    as (log & b' & Hrun & Hop & new & -> & Hnd & Hnew).
  assert (board_reveal x y b = Ok (tt, b')) as Hrev.
  { unfold board_reveal.
    by rewrite (board_reveal_log_erase _ x y [] b), Hrun. }
  exists b', new. simpl in *. repeat split; try done.
  - apply Hnew. done.
  - apply Hnew. done.
  - assert (∀ n, n ∈ new → n ∈ seq 0 (Z.to_nat (size b * size b))) as Hin.
    { intros n Hn. apply Hnew in Hn as [Hh Hv].
      destruct (opened_overlay _ _ _ Hop n)
        as [Heq | (_ & _ & x' & y' & [Hx' Hy'] & -> & _)]; [congruence |].
      apply elem_of_seq. unfold idx.
      pose proof (index_bound (size b) x' y' (wf_size _ Hwf) Hx' Hy'). lia. }
    pose proof (submseteq_length _ _ (NoDup_submseteq _ _ Hnd Hin)) as Hlen.
    rewrite length_seq in Hlen. destruct Hr. nia.
  - intros fuel Hfuel.
    destruct (board_reveal_rec_spec fuel b x y (λ _ _, True) (λ _ _, True)
                Hwf Hr Hfuel (spreads_all b) I (closed_except_all b))
      as ([] & b'' & Hrun' & _).
    rewrite Hrun'. unfold board_reveal in Hrev.
    destruct (Nat.le_ge_cases fuel (S (Z.to_nat MAX_BOARD_AREA))) as [Hle | Hle].
    + apply (board_reveal_rec_mono _ _ _ _ _ _ Hle) in Hrun'. congruence.
    + apply (board_reveal_rec_mono _ _ _ _ _ _ Hle) in Hrev. congruence.
Qed.

Lemma board_reveal_terminates_witness :
  ∃ b' log,
    board_reveal 0 0 board_4x4 = Ok (tt, b') ∧
    board_reveal_log (S (Z.to_nat MAX_BOARD_AREA)) 0 0 [] board_4x4
      = Ok (log, b') ∧
    NoDup log ∧
    (∀ n, n ∈ log → overlay board_4x4 !! n = Some OverlayCellHidden ∧
                    overlay b' !! n = Some OverlayCellVisible) ∧
    Z.of_nat (length log) ≤ size board_4x4 * size board_4x4 ∧
    (∀ fuel, (hidden_count board_4x4 < fuel)%nat →
             board_reveal_rec fuel 0 0 board_4x4 = Ok (tt, b')).
Proof.
  apply (board_reveal_terminates board_4x4 0 0);
    [wf_compute | in_range_compute].
Defined.

Lemma board_reveal_idempotent_witness :
  ∃ b', board_reveal 0 0 board_1x1_marked = Ok (tt, b') ∧
    (overlay_at board_1x1_marked 0 0 ≠ Some OverlayCellHidden →
       b' = board_1x1_marked) ∧
    (board_reveal 0 0;; board_reveal 0 0) board_1x1_marked = Ok (tt, b') ∧
    (∀ n, overlay board_1x1_marked !! n = Some OverlayCellMarked →
          overlay b' !! n = Some OverlayCellMarked).
Proof.
  apply (board_reveal_idempotent board_1x1_marked 0 0);
    [wf_compute | in_range_compute].
Defined.

(** ** board_init: the shuffle *)

Lemma seqZ_split_index lo n (done rest : list Z) i :
  seqZ lo n = done ++ i :: rest → i = lo + Z.of_nat (length done).
Proof.
  intros Heq.
  assert (seqZ lo n !! length done = Some i) as Hi
    by (rewrite Heq; apply list_lookup_middle; done).
  apply lookup_seqZ in Hi. lia.
Qed.

Lemma insert_swap_Permutation (p : list Z) (j : nat) (v i : Z) :
  p !! j = Some v → <[j := i]> p ++ [v] ≡ₚ p ++ [i].
Proof.
  intros Hj.
  rewrite insert_take_drop by (by eapply lookup_lt_Some).
  rewrite <- (take_drop_middle p j v Hj) at 3.
  rewrite <- !app_assoc. apply Permutation_app_head. simpl.
  rewrite Permutation_app_comm. simpl.
  rewrite (Permutation_app_comm (drop (S j) p) [i]). simpl.
  apply perm_swap.
Qed.

(** The shuffle leaves in the first [a] entries a permutation of the
    indices below [a]; the other entries keep their initial zero. *)
Lemma wp_shuffle rand a b :
  0 ≤ a ≤ MAX_BOARD_AREA →
  wp (shuffle rand a)
     (λ sh b', b' = b ∧
        ∃ p, sh = p ++ replicate (Z.to_nat (MAX_BOARD_AREA - a)) 0 ∧
             p ≡ₚ seqZ 0 a) b.
Proof.
  intros Ha. unfold shuffle, for_acc.
  rewrite Z.min_l, Z.sub_0_r by lia.
  eapply wp_mono.
  - apply (wp_iter (λ done sh b', b' = b ∧
             ∃ p, sh = p ++ replicate (Z.to_nat MAX_BOARD_AREA - length done) 0
                  ∧ p ≡ₚ done)).
    + split; [done |]. exists []. by rewrite Nat.sub_0_r.
    + intros done i rest sh b1 Hsplit (-> & p & -> & Hperm).
      pose proof (seqZ_split_bounds _ _ _ _ _ Hsplit) as Hi.
      pose proof (seqZ_split_index _ _ _ _ _ Hsplit) as Hk.
      assert (length p = length done) as Hlen by (by rewrite Hperm).
      set (k := length done) in *.
      assert (Z.to_nat MAX_BOARD_AREA - k
              = S (Z.to_nat MAX_BOARD_AREA - S k))%nat as -> by lia.
      set (z := replicate (Z.to_nat MAX_BOARD_AREA - S k) 0).
      rewrite replicate_S. fold z.
      set (j := to_u16 _).
      assert (0 ≤ j ≤ i) as Hj.
      { subst j. pose proof (Z.mod_pos_bound (Z.of_nat (rand (Z.to_nat i)))
                               (i + 1) ltac:(lia)).
        rewrite MAX_BOARD_AREA_eq in Ha.
        rewrite to_u16_small by lia. lia. }
      assert (to_u16 i = i) as ->
        by (rewrite MAX_BOARD_AREA_eq in Ha; apply to_u16_small; lia).
      assert (Z.to_nat i = k) as Hik by lia.
      assert (∀ v, store (p ++ 0 :: z) i v = Ok (p ++ v :: z)) as Hstore_i.
      { intros v. rewrite store_Ok by (rewrite length_app; simpl; lia).
        rewrite Hik, insert_app_r_alt by lia.
        by rewrite Hlen, Nat.sub_diag. }
      assert (replicate (Z.to_nat MAX_BOARD_AREA - length (done ++ [i])) 0 = z)
        as Hz by (rewrite length_app, Nat.add_1_r; done).
      rewrite Hz.
      apply wp_bind.
      destruct (Z.eqb_spec j i) as [Hji | Hji].
      * apply wp_ret. rewrite Hji, Hstore_i.
        eapply wp_lift; [done |]. split; [done |].
        exists (p ++ [i]). split; [by rewrite <- app_assoc |].
        by rewrite Hperm.
      * assert (Z.to_nat j < length p)%nat as Hjp by lia.
        destruct (lookup_lt_is_Some_2 p _ Hjp) as [v Hv].
        apply wp_bind. eapply wp_lift.
        { apply load_Ok. split; [lia |]. by rewrite lookup_app_l. }
        eapply wp_lift; [apply Hstore_i |].
        eapply wp_lift.
        { apply store_Ok. rewrite length_app. simpl. lia. }
        split; [done |].
        exists (<[Z.to_nat j := i]> p ++ [v]).
        split; [by rewrite insert_app_l, <- app_assoc by done |].
        rewrite insert_swap_Permutation by done. by rewrite Hperm.
  - intros sh b1 (-> & p & -> & Hperm). split; [done |].
    exists p. split; [| done].
    rewrite length_seqZ.
    by replace (Z.to_nat MAX_BOARD_AREA - Z.to_nat a)%nat
      with (Z.to_nat (MAX_BOARD_AREA - a)) by lia.
Qed.

(** ** board_init: the mines *)

Lemma mine_count_insert (l : list Z) n c :
  l !! n = Some c → c ≠ CELL_MINE →
  length (filter (λ c, c = CELL_MINE) (<[n := CELL_MINE]> l))
  = S (length (filter (λ c, c = CELL_MINE) l)).
Proof.
  revert n. induction l as [|c' l IH]; intros [|n] Hn Hc; simpl in Hn;
    try done.
  - injection Hn as ->.
    change (<[0%nat := CELL_MINE]> (c :: l)) with (CELL_MINE :: l).
    rewrite filter_cons_True by done. by rewrite filter_cons_False by done.
  - change (<[S n := CELL_MINE]> (c' :: l))
      with (c' :: <[n := CELL_MINE]> l).
    rewrite !filter_cons. specialize (IH n Hn Hc).
    destruct (decide (c' = CELL_MINE)); simpl; lia.
Qed.

Lemma mine_count_replicate n :
  length (filter (λ c, c = CELL_MINE) (replicate n 0)) = 0%nat.
Proof.
  induction n as [|n IH]; [done |].
  rewrite replicate_S. by rewrite filter_cons_False by done.
Qed.

(** The mines go to the cells named by the first [m] entries of the
    shuffled array, which are distinct up to the area of the board and
    zero, the index of a cell already mined, beyond it. *)
Lemma wp_place_mines (p : list Z) a m b :
  1 ≤ a ≤ MAX_BOARD_AREA → 0 ≤ m ≤ MAX_BOARD_AREA →
  p ≡ₚ seqZ 0 a →
  cells b = replicate (Z.to_nat MAX_BOARD_AREA) 0 →
  wp (place_mines (p ++ replicate (Z.to_nat (MAX_BOARD_AREA - a)) 0) m)
     (λ _ b',
        size b' = size b ∧ overlay b' = overlay b ∧
        length (cells b') = Z.to_nat MAX_BOARD_AREA ∧
        Z.of_nat (mine_count b') = Z.min m a) b.
Proof.
  intros Ha Hm Hperm Hcells.
  set (sh := p ++ _).
  assert (length p = Z.to_nat a) as Hlenp
    by (by rewrite Hperm, length_seqZ).
  assert (length sh = Z.to_nat MAX_BOARD_AREA) as Hlensh.
  { unfold sh. rewrite length_app, length_replicate. lia. }
  assert (NoDup p) as Hnd by (rewrite Hperm; apply NoDup_seqZ).
  assert (∀ v, v ∈ p ↔ 0 ≤ v < a) as Hp.
  { intros v. rewrite Hperm, elem_of_seqZ. lia. }
  assert (∀ k v, sh !! k = Some v → 0 ≤ v < a) as Hsh.
  { intros k v Hk. unfold sh in Hk. apply lookup_app_Some in Hk as [Hk | [_ Hk]].
    - apply list_elem_of_lookup_2 in Hk. by apply Hp.
    - apply lookup_replicate in Hk as [-> _]. lia. }
  unfold place_mines, for_, for_acc. rewrite Z.sub_0_r.
  eapply wp_mono.
  - apply (wp_iter (λ done (_ : unit) b',
             size b' = size b ∧ overlay b' = overlay b ∧
             length (cells b') = Z.to_nat MAX_BOARD_AREA ∧
             (∀ n c, cells b' !! n = Some c →
                c = CELL_MINE ↔ Z.of_nat n ∈ take (length done) sh) ∧
             Z.of_nat (mine_count b') = Z.min (Z.of_nat (length done)) a)).
    + split; [done |]. split; [done |].
      split; [by rewrite Hcells, length_replicate |]. split.
      * intros n c Hn. rewrite Hcells in Hn.
        apply lookup_replicate in Hn as [-> _]. simpl.
        split; [done |]. intros Hin. by apply elem_of_nil in Hin.
      * unfold mine_count. rewrite Hcells, mine_count_replicate. simpl. lia.
    + intros done i rest [] b1 Hsplit (Hsz & Hov & Hlen & Hmines & Hcount).
      pose proof (seqZ_split_bounds _ _ _ _ _ Hsplit) as Hi.
      pose proof (seqZ_split_index _ _ _ _ _ Hsplit) as Hk.
      set (k := length done) in *.
      assert (k < length sh)%nat as Hklt by lia.
      destruct (lookup_lt_is_Some_2 sh k Hklt) as [v Hv].
      pose proof (Hsh k v Hv) as Hvr.
      apply wp_bind. eapply wp_lift.
      { apply load_Ok. split; [lia |].
        by replace (Z.to_nat i) with k by lia. }
      rewrite <- (Z2Nat.id v) by lia.
      assert (Z.to_nat v < length (cells b1))%nat as Hvlt by lia.
      apply wp_store_cell; [done |]. simpl.
      destruct (lookup_lt_is_Some_2 (cells b1) _ Hvlt) as [c Hc].
      assert (length (done ++ [i]) = S k) as ->
        by (rewrite length_app; simpl; lia).
      rewrite (take_S_r sh k v Hv).
      split; [done |]. split; [done |].
      split; [by rewrite length_insert |]. split.
      * intros n c' Hn. rewrite elem_of_app, list_elem_of_singleton.
        destruct (decide (n = Z.to_nat v)) as [-> | Hne].
        -- rewrite list_lookup_insert_eq in Hn by done.
           injection Hn as <-. split; [intros _; right; lia | done].
        -- rewrite list_lookup_insert_ne in Hn by done.
           rewrite (Hmines n c' Hn). split; [by left |].
           intros [Hin | Heq]; [done | lia].
      * unfold mine_count in *. simpl.
        destruct (decide (c = CELL_MINE)) as [-> | Hnm].
        -- rewrite list_insert_id by done.
           apply (Hmines _ _) in Hc. apply proj1 in Hc.
           specialize (Hc eq_refl). apply elem_of_take in Hc as (k' & Hk' & Hlt).
           rewrite Z2Nat.id in Hk' by lia.
           destruct (decide (k < Z.to_nat a)%nat) as [Hka | Hka]; [| lia].
           exfalso.
           assert (p !! k = Some v) as Hpk
             by (unfold sh in Hv; by rewrite lookup_app_l in Hv by lia).
           assert (p !! k' = Some v) as Hpk'
             by (unfold sh in Hk'; by rewrite lookup_app_l in Hk' by lia).
           pose proof (NoDup_lookup _ _ _ _ Hnd Hpk Hpk'). lia.
        -- rewrite (mine_count_insert _ _ c Hc Hnm).
           destruct (decide (k < Z.to_nat a)%nat) as [Hka | Hka]; [lia |].
           exfalso.
           assert (v = 0) as ->.
           { unfold sh in Hv. rewrite lookup_app_r in Hv by lia.
             by apply lookup_replicate in Hv as [-> _]. }
           assert (0 ∈ p) as H0 by (apply Hp; lia).
           apply list_elem_of_lookup in H0 as [k' Hk'].
           pose proof (lookup_lt_Some _ _ _ Hk') as Hk'lt.
           apply Hnm, (Hmines _ _ Hc). apply elem_of_take.
           exists k'. split; [| lia].
           unfold sh. by rewrite lookup_app_l by lia.
  - intros [] b1 (Hsz & Hov & Hlen & _ & Hcount).
    rewrite length_seqZ in Hcount.
    repeat split; try done. lia.
Qed.

(** ** board_init: the numbers *)

Lemma sumZ_app f l1 l2 : sumZ f (l1 ++ l2) = sumZ f l1 + sumZ f l2.
Proof.
  induction l1 as [|i l1 IH]; simpl; [done |].
  unfold sumZ in *. simpl. rewrite IH. lia.
Qed.

Lemma sumZ_cons f i l : sumZ f (i :: l) = f i + sumZ f l.
Proof. done. Qed.

Lemma sumZ_snoc f l i : sumZ f (l ++ [i]) = sumZ f l + f i.
Proof. rewrite sumZ_app, sumZ_cons. unfold sumZ. simpl. lia. Qed.

Lemma sumZ_bound f l :
  (∀ i, 0 ≤ f i ≤ 1) → 0 ≤ sumZ f l ≤ Z.of_nat (length l).
Proof.
  intros Hf. induction l as [|i l IH]; simpl; [done |].
  specialize (Hf i). unfold sumZ in *. simpl. lia.
Qed.

Lemma sumZ_zero f l : (∀ i, f i = 0) → sumZ f l = 0.
Proof.
  intros Hf. induction l as [|i l IH]; [done |].
  unfold sumZ in *. simpl. by rewrite Hf, IH.
Qed.

Lemma seqZ_1 m : seqZ m 1 = [m].
Proof. rewrite seqZ_cons by lia. by rewrite seqZ_nil by lia. Qed.

Lemma seqZ_2 m : seqZ m 2 = [m; m + 1].
Proof.
  rewrite seqZ_cons by lia. change (Z.pred 2) with 1.
  by rewrite seqZ_1, <- Z.add_1_r.
Qed.

Lemma seqZ_3 m : seqZ m 3 = [m; m + 1; m + 2].
Proof.
  rewrite seqZ_cons by lia. change (Z.pred 3) with 2.
  rewrite seqZ_2, <- Z.add_1_r. by rewrite <- Z.add_assoc.
Qed.

(** The bounds of the counting loops clip the three indices around [x] to
    the board. *)
Lemma sumZ_clip g sz x :
  0 ≤ x < sz → (∀ i, ¬ (0 ≤ i < sz) → g i = 0) →
  sumZ g (seqZ (Z.max 0 (x - 1)) (Z.min sz (x + 2) - Z.max 0 (x - 1)))
  = g (x - 1) + g x + g (x + 1).
Proof.
  intros Hx Hg.
  destruct (decide (x = 0)) as [Hx0 | Hx0];
    destruct (decide (x + 1 = sz)) as [Hx1 | Hx1].
  - rewrite Z.max_l, Z.min_l by lia.
    replace (sz - 0) with 1 by lia. rewrite seqZ_1. unfold sumZ. simpl.
    rewrite (Hg (x - 1)), (Hg (x + 1)) by lia. subst x. lia.
  - rewrite Z.max_l, Z.min_r by lia.
    replace (x + 2 - 0) with 2 by lia. rewrite seqZ_2. unfold sumZ. simpl.
    rewrite (Hg (x - 1)) by lia. subst x. simpl. lia.
  - rewrite Z.max_r, Z.min_l by lia.
    replace (sz - (x - 1)) with 2 by lia. rewrite seqZ_2. unfold sumZ. simpl.
    rewrite (Hg (x + 1)) by lia. replace (x - 1 + 1) with x by lia. lia.
  - rewrite Z.max_r, Z.min_r by lia.
    replace (x + 2 - (x - 1)) with 3 by lia. rewrite seqZ_3.
    unfold sumZ. simpl.
    replace (x - 1 + 1) with x by lia. replace (x - 1 + 2) with (x + 1) by lia.
    lia.
Qed.

Lemma mine_at_off b x y :
  ¬ (0 ≤ x < size b) ∨ ¬ (0 ≤ y < size b) → mine_at b x y = 0.
Proof.
  intros Hoff. unfold mine_at.
  destruct (Z.leb_spec 0 x), (Z.ltb_spec x (size b)),
           (Z.leb_spec 0 y), (Z.ltb_spec y (size b)); simpl; try done.
  lia.
Qed.

Lemma mine_at_on b x y c :
  in_range b x y → cell_at b x y = Some c →
  mine_at b x y = if c =? CELL_MINE then 1 else 0.
Proof.
  intros [Hx Hy] Hc. unfold mine_at. rewrite Hc.
  destruct (Z.leb_spec 0 x), (Z.ltb_spec x (size b)),
           (Z.leb_spec 0 y), (Z.ltb_spec y (size b)); try lia.
  simpl. destruct (Z.eqb_spec c CELL_MINE) as [-> | Hne].
  - by rewrite bool_decide_eq_true_2.
  - rewrite bool_decide_eq_false_2; [done |]. congruence.
Qed.

Lemma neighbour_mines_range b x y : 0 ≤ neighbour_mines b x y ≤ 8.
Proof.
  unfold neighbour_mines.
  pose proof (mine_at_range b (x - 1) (y - 1)).
  pose proof (mine_at_range b x (y - 1)).
  pose proof (mine_at_range b (x + 1) (y - 1)).
  pose proof (mine_at_range b (x - 1) y).
  pose proof (mine_at_range b (x + 1) y).
  pose proof (mine_at_range b (x - 1) (y + 1)).
  pose proof (mine_at_range b x (y + 1)).
  pose proof (mine_at_range b (x + 1) (y + 1)).
  lia.
Qed.

(** The loops of lines 85-93 count the mines around a cell of the board. *)
Lemma wp_count_mines b x y :
  wf b → in_range b x y →
  wp (count_mines x y) (λ c b', b' = b ∧ c = neighbour_mines b x y) b.
Proof.
  intros Hwf Hr. unfold count_mines. apply wp_bind, wp_get_size.
  pose proof (wf_size _ Hwf) as Hsz. unfold MAX_BOARD_SIZE in Hsz.
  destruct Hr as [Hx Hy].
  set (f := λ j i, if (i =? x) && (j =? y) then 0 else mine_at b i j).
  assert (∀ j i, 0 ≤ f j i ≤ 1) as Hf.
  { intros j i. unfold f. pose proof (mine_at_range b i j).
    destruct ((i =? x) && (j =? y)); lia. }
  set (xlo := Z.max 0 (x - 1)). set (xhi := Z.min (size b) (x + 2)).
  set (ylo := Z.max 0 (y - 1)). set (yhi := Z.min (size b) (y + 2)).
  assert (∀ j count0, 0 ≤ j < size b → 0 ≤ count0 ≤ 6 →
            wp (for_acc xlo xhi
                  (λ i count,
                     if (i =? x) && (j =? y) then mret count
                     else
                       c ← load_cell (j * size b + i);
                       mret (if c =? CELL_MINE then to_u16 (count + 1)
                             else count))
                  count0)
               (λ c b', b' = b ∧
                  c = count0 + sumZ (f j) (seqZ xlo (xhi - xlo))) b)
    as Hinner.
  { intros j count0 Hj Hcount0. unfold for_acc.
    apply (wp_iter (λ done c b', b' = b ∧ c = count0 + sumZ (f j) done)).
    - split; [done |]. unfold sumZ. simpl. lia.
    - intros done i rest count b1 Hsplit [-> ->].
      pose proof (seqZ_split_bounds _ _ _ _ _ Hsplit) as Hi.
      assert (length done < 3)%nat as Hlen.
      { apply (f_equal length) in Hsplit.
        rewrite length_seqZ, length_app in Hsplit. simpl in Hsplit.
        unfold xlo, xhi in Hsplit. lia. }
      pose proof (sumZ_bound (f j) done (Hf j)) as Hsum.
      rewrite sumZ_snoc. set (s := sumZ (f j) done) in *.
      assert (f j i = if (i =? x) && (j =? y) then 0 else mine_at b i j)
        as -> by done.
      destruct ((i =? x) && (j =? y)); [apply wp_ret; split; [done | lia] |].
      assert (in_range b i j) as Hrij
        by (unfold in_range, xlo, xhi in *; lia).
      destruct (cell_at_is_Some b i j Hwf Hrij) as [c Hc].
      rewrite <- (Z2Nat.id (j * size b + i)) by nia.
      apply wp_bind. eapply wp_load_cell; [exact Hc |].
      apply wp_ret. split; [done |].
      rewrite (mine_at_on b i j c Hrij Hc).
      destruct (c =? CELL_MINE); [| lia].
      rewrite to_u16_small by lia. lia. }
  unfold for_acc. eapply wp_mono.
  - apply (wp_iter (λ done c b', b' = b ∧
             c = sumZ (λ j, sumZ (f j) (seqZ xlo (xhi - xlo))) done)).
    + done.
    + intros done j rest count b1 Hsplit [-> ->].
      pose proof (seqZ_split_bounds _ _ _ _ _ Hsplit) as Hj.
      assert (length done < 3)%nat as Hlen.
      { apply (f_equal length) in Hsplit.
        rewrite length_seqZ, length_app in Hsplit. simpl in Hsplit.
        unfold ylo, yhi in Hsplit. lia. }
      set (g := λ j, sumZ (f j) (seqZ xlo (xhi - xlo))).
      assert (∀ j, 0 ≤ g j ≤ 3) as Hg.
      { intros j'. unfold g.
        pose proof (sumZ_bound (f j') (seqZ xlo (xhi - xlo)) (Hf j')) as Hb.
        rewrite length_seqZ in Hb. unfold xlo, xhi in Hb |- *. lia. }
      assert (0 ≤ sumZ g done ≤ 3 * Z.of_nat (length done)) as Hsum.
      { clear Hsplit Hlen. induction done as [|j' done IH]; [done |].
        rewrite (sumZ_cons g j' done). specialize (Hg j'). simpl length. lia. }
      eapply wp_mono.
      * apply (Hinner j); [unfold ylo, yhi in Hj; lia | lia].
      * intros c b2 [-> ->]. split; [done |].
        rewrite sumZ_snoc. fold (g j). lia.
  - intros c b1 [-> ->]. split; [done |].
    unfold xlo, xhi, ylo, yhi.
    assert (∀ j i, ¬ (0 ≤ i < size b) → f j i = 0) as Hoffx.
    { intros j i Hi. unfold f. rewrite mine_at_off by (by left).
      by destruct ((i =? x) && (j =? y)). }
    assert (∀ j i, ¬ (0 ≤ j < size b) → f j i = 0) as Hoffy.
    { intros j i Hj. unfold f. rewrite mine_at_off by (by right).
      by destruct ((i =? x) && (j =? y)). }
    rewrite (sumZ_clip _ (size b) y Hy)
      by (intros j Hj; apply sumZ_zero; intros i; by apply Hoffy).
    rewrite !(sumZ_clip _ (size b) x Hx) by (intros i Hi; by apply Hoffx).
    unfold f, neighbour_mines.
    rewrite !Z.eqb_refl.
    replace (x - 1 =? x) with false by (symmetry; apply Z.eqb_neq; lia).
    replace (x + 1 =? x) with false by (symmetry; apply Z.eqb_neq; lia).
    replace (y - 1 =? y) with false by (symmetry; apply Z.eqb_neq; lia).
    replace (y + 1 =? y) with false by (symmetry; apply Z.eqb_neq; lia).
    simpl. lia.
Qed.

(** Boards related by [numbering]. *)
Lemma numbering_refl b : numbering b b.
Proof. split; auto. Qed.

Lemma numbering_mine_iff b b' n :
  numbering b b' →
  cells b' !! n = Some CELL_MINE ↔ cells b !! n = Some CELL_MINE.
Proof.
  intros Hnum.
  destruct (numbering_cells _ _ Hnum n)
    as [Heq | [(c & Hc & Hne) (x & y & _ & _ & Hnew)]].
  - by rewrite Heq.
  - pose proof (neighbour_mines_range b x y). rewrite Hc, Hnew.
    unfold CELL_MINE in *. split; intros [=]; lia.
Qed.

Lemma mine_at_ext b b' x y :
  size b' = size b →
  (∀ n, cells b' !! n = Some CELL_MINE ↔ cells b !! n = Some CELL_MINE) →
  mine_at b' x y = mine_at b x y.
Proof.
  intros Hs Hm. unfold mine_at, cell_at, idx. rewrite Hs.
  destruct (decide (cells b !! Z.to_nat (y * size b + x) = Some CELL_MINE))
    as [Hc | Hc].
  - rewrite !bool_decide_eq_true_2; [done | done |]. by apply Hm.
  - rewrite !bool_decide_eq_false_2; [done | done |]. by rewrite Hm.
Qed.

Lemma numbering_neighbour_mines b b' x y :
  numbering b b' → neighbour_mines b' x y = neighbour_mines b x y.
Proof.
  intros Hnum. unfold neighbour_mines.
  rewrite !(mine_at_ext b b'); try done; try apply Hnum;
    intros n; by apply numbering_mine_iff.
Qed.

Lemma numbering_in_range b b' x y :
  numbering b b' → in_range b' x y ↔ in_range b x y.
Proof. intros Hnum. unfold in_range. by rewrite (numbering_size _ _ Hnum). Qed.

Lemma numbering_idx b b' x y : numbering b b' → idx b' x y = idx b x y.
Proof. intros Hnum. unfold idx. by rewrite (numbering_size _ _ Hnum). Qed.

Lemma numbering_trans b1 b2 b3 :
  numbering b1 b2 → numbering b2 b3 → numbering b1 b3.
Proof.
  intros H12 H23. split.
  - rewrite (numbering_size _ _ H23). apply H12.
  - rewrite (numbering_overlay _ _ H23). apply H12.
  - rewrite (numbering_length _ _ H23). apply H12.
  - intros n.
    destruct (numbering_cells _ _ H23 n)
      as [Heq | [(c & Hc & Hne) (x & y & Hr & Hn & Hnew)]].
    + rewrite Heq. apply H12.
    + right. split.
      * destruct (numbering_cells _ _ H12 n)
          as [Heq' | [Hold _]]; [| done].
        exists c. by rewrite <- Heq'.
      * exists x, y. split; [by apply (numbering_in_range b1 b2) |].
        split; [by rewrite <- (numbering_idx b1 b2) |].
        by rewrite <- (numbering_neighbour_mines b1 b2).
Qed.

Lemma numbering_wf b b' : numbering b b' → wf b → wf b'.
Proof.
  intros [Hs Ho Hl _] [? ? ?]. split.
  - by rewrite Hs.
  - by rewrite Hl.
  - by rewrite Ho.
Qed.

Lemma numbering_mine_count b b' :
  numbering b b' → mine_count b' = mine_count b.
Proof.
  intros Hnum. unfold mine_count. apply Nat.le_antisymm.
  - apply filter_length_le; [apply Hnum |].
    intros n x Hx ->. exists CELL_MINE. split; [| done].
    by apply (numbering_mine_iff b b').
  - apply filter_length_le; [symmetry; apply Hnum |].
    intros n x Hx ->. exists CELL_MINE. split; [| done].
    by apply (numbering_mine_iff b b').
Qed.

(** Lines 79-96 leave a numbered board, and change nothing but the cells
    that are not mines. *)
Lemma wp_number_cells b :
  wf b → wp number_cells (λ _ b', numbering b b' ∧ numbered b') b.
Proof.
  intros Hwf. unfold number_cells. apply wp_bind, wp_get_size.
  unfold for_. eapply wp_mono.
  - apply (wp_for_acc numbering (λ _ _, True)
             (λ y b', ∀ x c, in_range b' x y → cell_at b' x y = Some c →
                             c ≠ CELL_MINE → c = neighbour_mines b' x y)).
    + apply numbering_refl.
    + apply numbering_trans.
    + intros y b1 b2 HC Hnum x c Hr Hc Hne.
      apply (numbering_in_range _ _ _ _ Hnum) in Hr.
      rewrite (numbering_neighbour_mines _ _ _ _ Hnum).
      unfold cell_at in Hc. rewrite (numbering_idx _ _ _ _ Hnum) in Hc.
      destruct (numbering_cells _ _ Hnum (idx b1 x y))
        as [Heq | [_ (x' & y' & Hr' & Hidx & Hnew)]].
      * apply HC; [done | | done]. unfold cell_at. by rewrite <- Heq.
      * apply idx_inj in Hidx as [-> ->]; [| done | done]. congruence.
    + done.
    + intros y [] b2 Hy Hnum2 _.
      eapply wp_mono.
      * apply (wp_for_acc numbering (λ _ _, True)
                 (λ x b', ∀ c, in_range b' x y → cell_at b' x y = Some c →
                               c ≠ CELL_MINE → c = neighbour_mines b' x y)).
        -- apply numbering_refl.
        -- apply numbering_trans.
        -- intros x b3 b4 HC Hnum c Hr Hc Hne.
           apply (numbering_in_range _ _ _ _ Hnum) in Hr.
           rewrite (numbering_neighbour_mines _ _ _ _ Hnum).
           unfold cell_at in Hc. rewrite (numbering_idx _ _ _ _ Hnum) in Hc.
           destruct (numbering_cells _ _ Hnum (idx b3 x y))
             as [Heq | [_ (x' & y' & Hr' & Hidx & Hnew)]].
           ++ apply HC; [done | | done]. unfold cell_at. by rewrite <- Heq.
           ++ apply idx_inj in Hidx as [-> ->]; [| done | done]. congruence.
        -- done.
        -- intros x [] b3 Hx Hnum3 _.
           assert (numbering b b3) as Hnum by (by eapply numbering_trans).
           assert (wf b3) as Hwf3 by (by eapply numbering_wf).
           assert (in_range b3 x y) as Hr3
             by (apply (numbering_in_range _ _ _ _ Hnum); split; lia).
           cbv zeta. rewrite <- (numbering_size _ _ Hnum).
           rewrite <- (to_uint_index b3 x y Hwf3 Hr3).
           rewrite (index_of_idx b3 x y Hwf3 Hr3).
           destruct (cell_at_is_Some b3 x y Hwf3 Hr3) as [c Hc].
           apply wp_bind. eapply wp_load_cell; [exact Hc |].
           destruct (Z.eqb_spec c CELL_MINE) as [-> | Hne].
           { apply wp_ret. split; [apply numbering_refl |]. split; [done |].
             intros c' _ Hc'. congruence. }
           apply wp_bind. eapply wp_mono; [by apply wp_count_mines |].
           intros count b4 [-> ->].
           pose proof (neighbour_mines_range b3 x y) as Hrange.
           rewrite to_u8_small by lia.
           assert (idx b3 x y < length (cells b3))%nat as Hlt
             by (by eapply lookup_lt_Some).
           apply wp_store_cell; [done |].
           set (b4 := mkBoard _ _ _).
           assert (numbering b3 b4) as Hnum4.
           { split; simpl; [done | done | by rewrite length_insert |].
             intros n. destruct (decide (n = idx b3 x y)) as [-> | Hn].
             - right. split; [by exists c |]. exists x, y.
               split; [done |]. split; [done |].
               by apply list_lookup_insert_eq.
             - left. by apply list_lookup_insert_ne. }
           split; [done |]. split; [done |].
           intros c' _ Hc' _.
           rewrite (numbering_neighbour_mines _ _ _ _ Hnum4).
           unfold cell_at in Hc'. simpl in Hc'.
           change (idx b4 x y) with (idx b3 x y) in Hc'.
           rewrite list_lookup_insert_eq in Hc' by done. congruence.
      * intros [] b3 (Hnum3 & _ & HC). split; [done |]. split; [done |].
        intros x c Hr. apply HC; [| done].
        assert (numbering b b3) as Hnum by (by eapply numbering_trans).
        apply (numbering_in_range _ _ _ _ Hnum) in Hr. by destruct Hr.
  - intros [] b2 (Hnum & _ & HC). split; [done |].
    intros x y c Hr. apply HC; [| done].
    apply (numbering_in_range _ _ _ _ Hnum) in Hr. destruct Hr. lia.
Qed.

(** ** board_init *)

Lemma bind_run {A B} (m : M A) (k : A → M B) b a b' :
  m b = Ok (a, b') → (m ≫= k) b = k a b'.
Proof. intros Hm. unfold mbind, M_bind. by rewrite Hm. Qed.

Lemma memset_Ok {A} (a : list A) v k :
  0 ≤ k ≤ Z.of_nat (length a) →
  memset a v k = Ok (replicate (Z.to_nat k) v ++ drop (Z.to_nat k) a).
Proof.
  intros Hk. unfold memset.
  destruct (Z.leb_spec 0 k); [| lia].
  destruct (Z.leb_spec k (Z.of_nat (length a))); [done | lia].
Qed.

(** [board_init] up to the shuffle: the board is cleared and the first
    [size * size] entries of the shuffled array are a permutation of the
    cell indices. *)
Lemma board_init_unfold sz rand b0 :
  0 < sz ≤ MAX_BOARD_SIZE →
  length (cells b0) = Z.to_nat MAX_BOARD_AREA →
  length (overlay b0) = Z.to_nat MAX_BOARD_AREA →
  ∃ p, p ≡ₚ seqZ 0 (sz * sz) ∧
    ∀ m, board_init sz m rand b0
         = (place_mines
              (p ++ replicate (Z.to_nat (MAX_BOARD_AREA - sz * sz)) 0) m;;
            number_cells)
             (mkBoard sz (replicate (Z.to_nat MAX_BOARD_AREA) 0)
                (replicate overlay_reset OverlayCellHidden
                 ++ drop overlay_reset (overlay b0))).
Proof.
  intros Hsz Hcells Hoverlay.
  pose proof (index_bound sz 0 0 ltac:(lia) ltac:(lia) ltac:(lia)) as [_ Harea].
  set (b1 := mkBoard sz (replicate (Z.to_nat MAX_BOARD_AREA) 0)
               (replicate overlay_reset OverlayCellHidden
                ++ drop overlay_reset (overlay b0))).
  assert (to_u16 (sz * sz) = sz * sz) as Hu16.
  { rewrite MAX_BOARD_AREA_eq in Harea. apply to_u16_small. nia. }
  destruct (wp_shuffle rand (sz * sz) b1 ltac:(nia))
    as (sh & b2 & Hsh & -> & p & -> & Hperm).
  exists p. split; [done |]. intros m.
  unfold board_init.
  erewrite bind_run; cycle 1.
  { unfold assert. destruct (Z.ltb_spec 0 sz); [| lia].
    destruct (Z.leb_spec sz MAX_BOARD_SIZE); [done | lia]. }
  erewrite bind_run; [| reflexivity].
  erewrite bind_run; cycle 1.
  { unfold memset_cells. simpl. rewrite memset_Ok by lia.
    rewrite drop_ge by lia. by rewrite app_nil_r. }
  erewrite bind_run; cycle 1.
  { unfold memset_overlay. simpl. rewrite memset_Ok; [done |].
    rewrite Hoverlay. by vm_compute. }
  rewrite Hu16. fold overlay_reset. fold b1.
  by erewrite bind_run by exact Hsh.
Qed.

Lemma iter_frame {A} (I : Board → Prop) (body : Z → A → M A) idxs :
  (∀ i a b a' b', I b → body i a b = Ok (a', b') → I b') →
  ∀ a b a' b', I b → iter body idxs a b = Ok (a', b') → I b'.
Proof.
  intros Hbody. induction idxs as [|i idxs IH]; intros a b a' b' HI Hrun.
  - by injection Hrun as -> ->.
  - simpl in Hrun. apply bind_inv in Hrun as (a1 & b1 & Hrun1 & Hrun).
    eapply IH; [| exact Hrun]. by eapply Hbody.
Qed.

(** Whatever the number of mines asked for, [place_mines] writes to
    [cells] only. *)
Lemma place_mines_frame sh m b b' :
  place_mines sh m b = Ok (tt, b') →
  size b' = size b ∧ overlay b' = overlay b ∧
  length (cells b') = length (cells b).
Proof.
  unfold place_mines, for_, for_acc.
  apply (iter_frame (λ b', size b' = size b ∧ overlay b' = overlay b ∧
                           length (cells b') = length (cells b))); [| done].
  intros i [] b1 [] b2 (Hs & Ho & Hl) Hrun.
  apply bind_inv in Hrun as (k & b1' & Hload & Hstore).
  unfold lift in Hload. destruct (load sh i); try done.
  injection Hload as -> <-.
  unfold store_cell, store in Hstore.
  destruct ((0 <=? k) && (k <? Z.of_nat (length (cells b1)))); [| done].
  injection Hstore as <-. simpl. by rewrite length_insert.
Qed.

Lemma overlay_reset_le : (overlay_reset ≤ Z.to_nat MAX_BOARD_AREA)%nat.
Proof. apply Nat.leb_le. by vm_compute. Qed.

Lemma overlay_reset_length (ov : list OverlayCell) :
  length ov = Z.to_nat MAX_BOARD_AREA →
  length (replicate overlay_reset OverlayCellHidden ++ drop overlay_reset ov)
  = Z.to_nat MAX_BOARD_AREA.
Proof.
  intros Hlen. pose proof overlay_reset_le.
  rewrite length_app, length_replicate, length_drop. lia.
Qed.

Lemma overlay_reset_hidden (ov : list OverlayCell) :
  Forall (λ o, o = OverlayCellHidden) ov →
  Forall (λ o, o = OverlayCellHidden)
    (replicate overlay_reset OverlayCellHidden ++ drop overlay_reset ov).
Proof.
  intros Hall. apply Forall_app. split.
  - by apply Forall_replicate.
  - by apply Forall_drop.
Qed.

(** If [board_init] returns, with whatever number of mines, the board is
    well formed and numbered. *)
Lemma board_init_numbered sz m rand b0 b :
  0 < sz ≤ MAX_BOARD_SIZE →
  length (cells b0) = Z.to_nat MAX_BOARD_AREA →
  length (overlay b0) = Z.to_nat MAX_BOARD_AREA →
  board_init sz m rand b0 = Ok (tt, b) →
  wf b ∧ size b = sz ∧ numbered b ∧
  overlay b = replicate overlay_reset OverlayCellHidden
              ++ drop overlay_reset (overlay b0).
Proof.
  intros Hsz Hcells Hoverlay Hrun.
  destruct (board_init_unfold sz rand b0 Hsz Hcells Hoverlay)
    as (p & Hperm & Hinit).
  rewrite Hinit in Hrun.
  apply bind_inv in Hrun as ([] & b1 & Hplace & Hnumber).
  apply place_mines_frame in Hplace as (Hs1 & Ho1 & Hl1).
  cbn [size cells overlay] in Hs1, Ho1, Hl1.
  assert (wf b1) as Hwf1.
  { split.
    - rewrite Hs1. lia.
    - by rewrite Hl1, length_replicate.
    - rewrite Ho1. by apply overlay_reset_length. }
  pose proof (wp_elim _ _ _ _ _ (wp_number_cells b1 Hwf1) Hnumber)
    as [Hnum Hnumbered].
  split; [by eapply numbering_wf |].
  split; [by rewrite (numbering_size _ _ Hnum) |].
  split; [done |]. by rewrite (numbering_overlay _ _ Hnum).
Qed.

(** With at most [MAX_BOARD_AREA] mines asked for, [board_init] returns,
    and the board holds as many mines as asked for, or as many as it has
    cells. *)
Lemma board_init_returns sz m rand b0 :
  0 < sz ≤ MAX_BOARD_SIZE → 0 ≤ m ≤ MAX_BOARD_AREA →
  length (cells b0) = Z.to_nat MAX_BOARD_AREA →
  length (overlay b0) = Z.to_nat MAX_BOARD_AREA →
  ∃ b, board_init sz m rand b0 = Ok (tt, b) ∧
       Z.of_nat (mine_count b) = Z.min m (sz * sz).
Proof.
  intros Hsz Hm Hcells Hoverlay.
  destruct (board_init_unfold sz rand b0 Hsz Hcells Hoverlay)
    as (p & Hperm & Hinit).
  pose proof (index_bound sz 0 0 ltac:(lia) ltac:(lia) ltac:(lia)) as [_ Harea].
  set (b1 := mkBoard _ _ _) in Hinit.
  destruct (wp_place_mines p (sz * sz) m b1 ltac:(nia) Hm Hperm eq_refl)
    as ([] & b2 & Hplace & Hs2 & Ho2 & Hl2 & Hcount).
  assert (wf b2) as Hwf2.
  { split.
    - rewrite Hs2. cbn [size b1]. lia.
    - done.
    - rewrite Ho2. by apply overlay_reset_length. }
  destruct (wp_number_cells b2 Hwf2) as ([] & b3 & Hnumber & Hnum & _).
  exists b3. split.
  - rewrite Hinit. by erewrite bind_run by exact Hplace.
  - by rewrite (numbering_mine_count _ _ Hnum).
Qed.

Lemma board_init_size sz m rand b0 r :
  board_init sz m rand b0 = Ok r → 0 < sz ≤ MAX_BOARD_SIZE.
Proof.
  unfold board_init. intros Hrun.
  apply bind_inv in Hrun as ([] & b1 & Hassert & _).
  unfold assert in Hassert.
  destruct (Z.ltb_spec 0 sz); [| done].
  destruct (Z.leb_spec sz MAX_BOARD_SIZE); [lia | done].
Qed.

Lemma wf_board0 : wf board0.
Proof. wf_compute. Qed.

Lemma all_hidden_board0 : all_hidden board0.
Proof. by apply Forall_replicate. Qed.

(** ** The boards of a game are well formed *)

Lemma reachable_wf b : reachable b → wf b.
Proof.
  induction 1 as [sz m rand b Hinit | b x y b' _ IH Hr Hrun
                  | b x y b' _ IH Hr Hrun].
  - pose proof (board_init_size _ _ _ _ _ Hinit) as Hsz.
    by apply (board_init_numbered sz m rand board0 b Hsz
                (wf_cells _ wf_board0) (wf_overlay _ wf_board0)) in Hinit
      as [? _].
  - destruct (board_reveal_opened b x y IH Hr) as (b'' & Hrun' & Hop & _).
    rewrite Hrun in Hrun'. injection Hrun' as <-. by eapply opened_wf.
  - destruct (overlay_at_is_Some b x y IH Hr) as [o Ho].
    rewrite (board_mark_run b x y o IH Hr Ho) in Hrun.
    injection Hrun as <-. destruct IH. split; simpl; [done | done |].
    by rewrite length_insert.
Qed.



(** [main] calls [board_init] with the number of mines clamped to
    [MAX_BOARD_AREA] (lines 340-341 and 358); through that call every
    number of mines gives a board. *)
Lemma board_init_clamped sz mines rand :
  1 ≤ sz ≤ MAX_BOARD_SIZE → 0 ≤ mines →
  ∃ b, board_init sz (Z.min mines MAX_BOARD_AREA) rand board0 = Ok (tt, b) ∧
       Z.of_nat (mine_count b) = Z.min mines (sz * sz).
Proof.
  intros Hsz Hmines.
  pose proof (index_bound sz 0 0 ltac:(lia) ltac:(lia) ltac:(lia)) as [_ Harea].
  destruct (board_init_returns sz (Z.min mines MAX_BOARD_AREA) rand board0
              ltac:(lia) ltac:(lia)
              (wf_cells _ wf_board0) (wf_overlay _ wf_board0))
    as (b & Hrun & Hcount).
  exists b. split; [done |]. lia.
Qed.




(** C3.  For every size from 1 to 26 and every number of mines, on the
    board [board_init] returns every cell that is not a mine holds the
    number of mines among its neighbours in the 3x3 block around it, the
    neighbours off the board counting for none, and that number is between
    0 and 8.  [board_init] does return when at most [MAX_BOARD_AREA] mines
    are asked for. *)
Theorem board_init_neighbour_counts sz m rand :
  1 ≤ sz ≤ MAX_BOARD_SIZE →
  (0 ≤ m ≤ MAX_BOARD_AREA → ∃ b, board_init sz m rand board0 = Ok (tt, b)) ∧
  (∀ b, board_init sz m rand board0 = Ok (tt, b) →
     ∀ x y c, in_range b x y → cell_at b x y = Some c → c ≠ CELL_MINE →
              c = neighbour_mines b x y ∧ 0 ≤ c ≤ 8).
Proof.
  intros Hsz. split.
  - intros Hm.
    destruct (board_init_returns sz m rand board0 ltac:(lia) Hm
                (wf_cells _ wf_board0) (wf_overlay _ wf_board0))
      as (b & Hrun & _).
    by exists b.
  - intros b Hrun x y c Hr Hc Hne.
    destruct (board_init_numbered sz m rand board0 b ltac:(lia)
                (wf_cells _ wf_board0) (wf_overlay _ wf_board0) Hrun)
      as (_ & _ & Hnum & _).
    pose proof (Hnum x y c Hr Hc Hne) as ->.
    split; [done |]. apply neighbour_mines_range.
Qed.

Lemma board_init_neighbour_counts_witness :
  (∃ b, board_init 4 1 rand_zero board0 = Ok (tt, b)) ∧
  (1 = neighbour_mines board_4x4 2 2 ∧ 0 ≤ 1 ≤ 8).
Proof.
  assert (1 ≤ 4 ≤ MAX_BOARD_SIZE) as Hsz by (by vm_compute).
  assert (0 ≤ 1 ≤ MAX_BOARD_AREA) as Hm by (by vm_compute).
  assert (in_range board_4x4 2 2) as Hr by in_range_compute.
  destruct (board_init_neighbour_counts 4 1 rand_zero Hsz) as [Hret Hnum].
  split; [exact (Hret Hm) |].
  assert (board_init 4 1 rand_zero board0 = Ok (tt, board_4x4)) as Hrun
    by (vm_compute; reflexivity).
  apply (Hnum board_4x4 Hrun 2 2 1 Hr); [vm_compute; reflexivity |].
  discriminate.
Defined.

Lemma board_4x4_numbered : numbered board_4x4.
Proof.
  assert (0 < 4 ≤ MAX_BOARD_SIZE) as Hsz by (by vm_compute).
  assert (board_init 4 1 rand_zero board0 = Ok (tt, board_4x4)) as Hrun
    by (vm_compute; reflexivity).
  destruct (board_init_numbered 4 1 rand_zero board0 board_4x4 Hsz
              (wf_cells _ wf_board0) (wf_overlay _ wf_board0) Hrun)
    as (_ & _ & Hnum & _).
  exact Hnum.
Qed.

Lemma board_reveal_flood_witness :
  ∃ b', board_reveal 0 0 board_4x4 = Ok (tt, b') ∧
    size b' = size board_4x4 ∧ cells b' = cells board_4x4 ∧
    (∀ x' y', in_range board_4x4 x' y' →
       (overlay_at b' x' y' = Some OverlayCellVisible
        ↔ flooded board_4x4 0 0 x' y')) ∧
    (∀ n, overlay b' !! n ≠ overlay board_4x4 !! n →
       ∃ x' y', in_range board_4x4 x' y' ∧ n = idx board_4x4 x' y' ∧
                flooded board_4x4 0 0 x' y').
Proof.
  apply (board_reveal_flood board_4x4 0 0).
  - wf_compute.
  - exact board_4x4_numbered.
  - apply (bool_decide_unpack _). by vm_compute.
  - in_range_compute.
  - by vm_compute.
Defined.

(** ** Sample games *)

(** The 4x4 board with its mine in the last cell: the three cells around
    the mine hold 1, the others 0. *)
Example board_4x4_cells :
  take 16 (cells board_4x4)
  = [0; 0; 0; 0;
     0; 0; 0; 0;
     0; 0; 1; 1;
     0; 0; 1; CELL_MINE].
Proof. vm_compute. reflexivity. Qed.

(** A 1x1 board without a mine is won by revealing its cell. *)
Example game_1x1_won :
  ∃ b, (board_init 1 0 rand_zero;; board_reveal 0 0;;
        board_check_game_state) board0 = Ok (GameStateWon, b).
Proof. eexists. vm_compute. reflexivity. Qed.

(** A 3x3 board asked for more mines than it has cells is full of mines,
    and revealing a cell loses the game. *)
Example game_3x3_lost :
  ∃ b, (board_init 3 12 rand_zero;; board_reveal 1 1;;
        board_check_game_state) board0 = Ok (GameStateLost, b) ∧
       mine_count b = 9%nat.
Proof. eexists. split; vm_compute; reflexivity. Qed.

(** On the 4x4 board, revealing the first cell opens everything but the
    mine, and the game is won. *)
Example game_4x4_flood :
  ∃ b, (board_reveal 0 0;; board_check_game_state) board_4x4
         = Ok (GameStateWon, b) ∧
       take 16 (overlay b)
       = replicate 15 OverlayCellVisible ++ [OverlayCellHidden].
Proof. eexists. split; vm_compute; reflexivity. Qed.

(** * Further properties of the board engine *)

(** ** What a reveal leaves alone *)

(** X1.  At coordinates of the board [board_reveal] changes neither the
    size nor any cell value, and keeps the overlay's length; an overlay
    entry that changes goes from Hidden to Visible and belongs to a cell of
    the board, so the entries past [size * size] are never written. *)
Theorem board_reveal_frame b x y :
  wf b → in_range b x y →
  ∃ b', board_reveal x y b = Ok (tt, b') ∧
    size b' = size b ∧ cells b' = cells b ∧
    length (overlay b') = length (overlay b) ∧
    ∀ n, overlay b' !! n ≠ overlay b !! n →
         overlay b !! n = Some OverlayCellHidden ∧
         overlay b' !! n = Some OverlayCellVisible ∧
         Z.of_nat n < size b * size b.
Proof.
  intros Hwf Hr.
  destruct (board_reveal_opened b x y Hwf Hr) as (b' & Hrun & Hop & _).
  exists b'. split; [done |].
  split; [apply Hop |]. split; [apply Hop |]. split; [apply Hop |].
  intros n Hn.
  destruct (opened_overlay _ _ _ Hop n)
    as [Heq | (Hh & Hv & x' & y' & [Hx' Hy'] & -> & _)]; [done |].
  split; [done |]. split; [done |]. unfold idx.
  pose proof (index_bound (size b) x' y' (wf_size _ Hwf) Hx' Hy'). lia.
Qed.

Lemma board_reveal_frame_witness :
  ∃ b', board_reveal 0 0 board_4x4 = Ok (tt, b') ∧
    size b' = size board_4x4 ∧ cells b' = cells board_4x4 ∧
    length (overlay b') = length (overlay board_4x4) ∧
    ∀ n, overlay b' !! n ≠ overlay board_4x4 !! n →
         overlay board_4x4 !! n = Some OverlayCellHidden ∧
         overlay b' !! n = Some OverlayCellVisible ∧
         Z.of_nat n < size board_4x4 * size board_4x4.
Proof.
  apply (board_reveal_frame board_4x4 0 0); [wf_compute | in_range_compute].
Defined.

(** ** Revealing a cell that is not empty *)

Lemma board_reveal_single b x y c :
  wf b → in_range b x y →
  overlay_at b x y = Some OverlayCellHidden →
  cell_at b x y = Some c → c ≠ CELL_EMPTY →
  board_reveal x y b
  = Ok (tt, mkBoard (size b) (cells b)
              (<[idx b x y := OverlayCellVisible]> (overlay b))).
Proof.
  intros Hwf Hr Ho Hc Hne.
  cut (wp (board_reveal x y)
         (λ _ b', b' = mkBoard (size b) (cells b)
                         (<[idx b x y := OverlayCellVisible]> (overlay b))) b).
  { intros ([] & b' & Hrun & ->). exact Hrun. }
  unfold board_reveal. cbn [board_reveal_rec].
  apply wp_bind, wp_get_size. rewrite (index_of_idx _ _ _ Hwf Hr).
  apply wp_bind. eapply wp_load_overlay; [exact Ho |].
  apply wp_bind, wp_store_overlay; [by eapply lookup_lt_Some |].
  apply wp_bind. eapply wp_load_cell; [exact Hc |].
  destruct (Z.eqb_spec c CELL_EMPTY) as [-> | _]; [done |].
  by apply wp_ret.
Qed.

(** X2.  Revealing a Hidden cell that is not empty, a numbered cell or a
    mine, opens that cell and nothing else: the flood starts from empty
    cells only. *)
Theorem board_reveal_numbered_cell b x y c :
  wf b → in_range b x y →
  overlay_at b x y = Some OverlayCellHidden →
  cell_at b x y = Some c → c ≠ CELL_EMPTY →
  ∃ b', board_reveal x y b = Ok (tt, b') ∧
    overlay_at b' x y = Some OverlayCellVisible ∧
    (∀ n, n ≠ idx b x y → overlay b' !! n = overlay b !! n) ∧
    cells b' = cells b ∧ size b' = size b.
Proof.
  intros Hwf Hr Ho Hc Hne. eexists.
  split; [by eapply board_reveal_single |]. split.
  - apply list_lookup_insert_eq. by eapply lookup_lt_Some.
  - split; [| done]. intros n Hn. by apply list_lookup_insert_ne.
Qed.

Lemma board_reveal_numbered_cell_witness :
  ∃ b', board_reveal 2 2 board_4x4 = Ok (tt, b') ∧
    overlay_at b' 2 2 = Some OverlayCellVisible ∧
    (∀ n, n ≠ idx board_4x4 2 2 → overlay b' !! n = overlay board_4x4 !! n) ∧
    cells b' = cells board_4x4 ∧ size b' = size board_4x4.
Proof.
  apply (board_reveal_numbered_cell board_4x4 2 2 1);
    [wf_compute | in_range_compute | | | discriminate];
    vm_compute; reflexivity.
Defined.

(** ** Losing *)

Lemma board_check_game_state_lost b :
  wf b →
  board_check_game_state b = Ok (GameStateLost, b) ↔
  ∃ x y, in_range b x y ∧ visible_mine b x y.
Proof.
  intros Hwf.
  destruct (board_check_game_state_spec b Hwf) as (g & Hrun & Hg).
  rewrite Hrun. split.
  - intros [= ->]. exact Hg.
  - intros (x & y & Hr & Hv).
    destruct g; [| | done]; destruct Hg as [Hnone _];
      by destruct (Hnone x y Hr).
Qed.

(** X3.  Revealing a Hidden mine loses the game: the query that follows
    the reveal answers [GameStateLost]. *)
Theorem reveal_mine_loses b x y :
  wf b → in_range b x y →
  overlay_at b x y = Some OverlayCellHidden →
  cell_at b x y = Some CELL_MINE →
  ∃ b', (board_reveal x y;; board_check_game_state) b
        = Ok (GameStateLost, b').
Proof.
  intros Hwf Hr Ho Hc.
  pose proof (board_reveal_single b x y CELL_MINE Hwf Hr Ho Hc ltac:(done))
    as Hrun.
  set (b' := mkBoard _ _ _) in Hrun.
  assert (wf b') as Hwf'.
  { destruct Hwf. split; simpl; [done | done |]. by rewrite length_insert. }
  exists b'. erewrite bind_run by exact Hrun.
  apply board_check_game_state_lost; [done |].
  exists x, y. split; [done |]. split; [done |].
  apply list_lookup_insert_eq. by eapply lookup_lt_Some.
Qed.

Lemma reveal_mine_loses_witness :
  ∃ b', (board_reveal 3 3;; board_check_game_state) board_4x4
        = Ok (GameStateLost, b').
Proof.
  apply (reveal_mine_loses board_4x4 3 3);
    [wf_compute | in_range_compute | |]; vm_compute; reflexivity.
Defined.

(** X4.  A lost game stays lost: once the query answers [GameStateLost],
    it answers so again after any reveal and any mark at coordinates of
    the board. *)
Theorem lost_is_final b x y :
  wf b → in_range b x y →
  board_check_game_state b = Ok (GameStateLost, b) →
  (∃ b', (board_reveal x y;; board_check_game_state) b
         = Ok (GameStateLost, b')) ∧
  (∃ b', (board_mark x y;; board_check_game_state) b
         = Ok (GameStateLost, b')).
Proof.
  intros Hwf Hr Hlost.
  apply board_check_game_state_lost in Hlost as (xm & ym & Hrm & Hcm & Hom);
    [| done].
  split.
  - destruct (board_reveal_opened b x y Hwf Hr) as (b' & Hrun & Hop & _).
    exists b'. erewrite bind_run by exact Hrun.
    apply board_check_game_state_lost; [by eapply opened_wf |].
    exists xm, ym. split; [by apply (opened_in_range _ _ _ xm ym Hop) |].
    split; [by rewrite (opened_cell_at _ _ _ _ _ Hop) |].
    unfold overlay_at. rewrite (opened_idx _ _ _ _ _ Hop).
    by eapply opened_keeps.
  - destruct (overlay_at_is_Some b x y Hwf Hr) as [o Ho].
    pose proof (board_mark_run b x y o Hwf Hr Ho) as Hrun.
    set (b' := mkBoard _ _ _) in Hrun.
    assert (idx b x y < length (overlay b))%nat as Hlt
      by (by eapply lookup_lt_Some).
    assert (wf b') as Hwf'.
    { destruct Hwf. split; simpl; [done | done |]. by rewrite length_insert. }
    exists b'. erewrite bind_run by exact Hrun.
    apply board_check_game_state_lost; [done |].
    exists xm, ym. split; [done |]. split; [done |].
    unfold overlay_at in *. simpl. change (idx b' xm ym) with (idx b xm ym).
    destruct (decide (idx b xm ym = idx b x y)) as [Heq | Hne].
    + rewrite Heq in *. rewrite list_lookup_insert_eq by done.
      rewrite Hom in Ho. by injection Ho as <-.
    + by rewrite list_lookup_insert_ne.
Qed.

Lemma lost_is_final_witness :
  (∃ b', (board_reveal 0 0;; board_check_game_state) board_4x4_lost
         = Ok (GameStateLost, b')) ∧
  (∃ b', (board_mark 0 0;; board_check_game_state) board_4x4_lost
         = Ok (GameStateLost, b')).
Proof.
  apply (lost_is_final board_4x4_lost 0 0);
    [wf_compute | in_range_compute | vm_compute; reflexivity].
Defined.

(** ** The three results of the query *)

(** X5.  What [board_check_game_state] answers when no mine is Visible:
    [GameStateUnfinished] exactly when some cell that is not a mine is
    Hidden, and [GameStateWon] exactly when none is; a Marked cell counts
    as little as a Visible one. *)
Theorem check_game_state_results b :
  wf b →
  ∃ g, board_check_game_state b = Ok (g, b) ∧
    (g = GameStateWon ↔
       (∀ x y, in_range b x y → cell_at b x y = Some CELL_MINE →
               overlay_at b x y ≠ Some OverlayCellVisible) ∧
       (∀ x y c, in_range b x y → cell_at b x y = Some c → c ≠ CELL_MINE →
                 overlay_at b x y ≠ Some OverlayCellHidden)) ∧
    (g = GameStateUnfinished ↔
       (∀ x y, in_range b x y → cell_at b x y = Some CELL_MINE →
               overlay_at b x y ≠ Some OverlayCellVisible) ∧
       (∃ x y c, in_range b x y ∧ cell_at b x y = Some c ∧ c ≠ CELL_MINE ∧
                 overlay_at b x y = Some OverlayCellHidden)).
Proof.
  intros Hwf.
  destruct (board_check_game_state_spec b Hwf) as (g & Hrun & Hg).
  exists g. split; [done |].
  assert ((∀ x y, in_range b x y → ¬ visible_mine b x y) ↔
          (∀ x y, in_range b x y → cell_at b x y = Some CELL_MINE →
                  overlay_at b x y ≠ Some OverlayCellVisible)) as Hvm.
  { unfold visible_mine. split.
    - intros H x y Hr Hc Ho. by apply (H x y Hr).
    - intros H x y Hr [Hc Ho]. by apply (H x y Hr Hc). }
  assert ((∀ x y, in_range b x y → ¬ hidden_safe b x y) ↔
          (∀ x y c, in_range b x y → cell_at b x y = Some c → c ≠ CELL_MINE →
                    overlay_at b x y ≠ Some OverlayCellHidden)) as Hhs.
  { unfold hidden_safe. split.
    - intros H x y c Hr Hc Hne Ho. apply (H x y Hr). eauto.
    - intros H x y Hr [(c & Hc & Hne) Ho]. by apply (H x y c Hr Hc Hne). }
  assert ((∃ x y, in_range b x y ∧ hidden_safe b x y) ↔
          (∃ x y c, in_range b x y ∧ cell_at b x y = Some c ∧ c ≠ CELL_MINE ∧
                    overlay_at b x y = Some OverlayCellHidden)) as Hex.
  { unfold hidden_safe. split.
    - intros (x & y & Hr & (c & Hc & Hne) & Ho). by exists x, y, c.
    - intros (x & y & c & Hr & Hc & Hne & Ho). exists x, y. eauto. }
  rewrite <- Hvm, <- Hhs, <- Hex. clear Hvm Hhs Hex.
  destruct g.
  - destruct Hg as [Hnone (x & y & Hr & Hs)]. split.
    + split; [done |]. intros [_ Hall]. by destruct (Hall x y Hr).
    + split; [| done]. intros _. split; [done |]. by exists x, y.
  - destruct Hg as [Hnone Hall]. split.
    + by split.
    + split; [done |]. intros [_ (x & y & Hr & Hs)]. by destruct (Hall x y Hr).
  - destruct Hg as (x & y & Hr & Hv). split.
    + split; [done |]. intros [Hnone _]. by destruct (Hnone x y Hr).
    + split; [done |]. intros [Hnone _]. by destruct (Hnone x y Hr).
Qed.

Lemma check_game_state_results_witness :
  ∃ g, board_check_game_state board_1x1_marked = Ok (g, board_1x1_marked) ∧
    (g = GameStateWon ↔
       (∀ x y, in_range board_1x1_marked x y →
               cell_at board_1x1_marked x y = Some CELL_MINE →
               overlay_at board_1x1_marked x y ≠ Some OverlayCellVisible) ∧
       (∀ x y c, in_range board_1x1_marked x y →
                 cell_at board_1x1_marked x y = Some c → c ≠ CELL_MINE →
                 overlay_at board_1x1_marked x y ≠ Some OverlayCellHidden)) ∧
    (g = GameStateUnfinished ↔
       (∀ x y, in_range board_1x1_marked x y →
               cell_at board_1x1_marked x y = Some CELL_MINE →
               overlay_at board_1x1_marked x y ≠ Some OverlayCellVisible) ∧
       (∃ x y c, in_range board_1x1_marked x y ∧
                 cell_at board_1x1_marked x y = Some c ∧ c ≠ CELL_MINE ∧
                 overlay_at board_1x1_marked x y = Some OverlayCellHidden)).
Proof. apply (check_game_state_results board_1x1_marked). wf_compute. Defined.

(** ** Revealing a cell that is not a mine *)

(** X6.  On a numbered board a reveal that starts on a cell that is not a
    mine opens no mine: the overlay entry of every mine is left as it was,
    and a game that was not lost is not lost by the reveal. *)
Theorem reveal_safe_cell_opens_no_mine b x y c :
  wf b → numbered b → in_range b x y →
  cell_at b x y = Some c → c ≠ CELL_MINE →
  ∃ b', board_reveal x y b = Ok (tt, b') ∧
    (∀ x' y', in_range b x' y' → cell_at b x' y' = Some CELL_MINE →
              overlay_at b' x' y' = overlay_at b x' y') ∧
    (board_check_game_state b ≠ Ok (GameStateLost, b) →
     board_check_game_state b' ≠ Ok (GameStateLost, b')).
Proof.
  intros Hwf Hnum Hr Hc Hne.
  set (P := λ x' y', cell_at b x' y' ≠ Some CELL_MINE).
  assert (spreads b P) as Hsp.
  { intros x1 y1 x2 y2 _ Hr1 Hc1 Hr2 Hadj.
    by apply (numbered_empty_safe b x1 y1 x2 y2). }
  assert (P x y) as HP by (unfold P; congruence).
  destruct (board_reveal_spec b x y P (λ _ _, True) Hwf Hr Hsp HP
              (closed_except_all b))
    as ([] & b' & Hrun & Hop & _).
  assert (∀ x' y', in_range b x' y' → cell_at b x' y' = Some CELL_MINE →
                   overlay_at b' x' y' = overlay_at b x' y') as Hmines.
  { intros x' y' Hr' Hc'. unfold overlay_at.
    rewrite (opened_idx _ _ _ _ _ Hop).
    destruct (opened_overlay _ _ _ Hop (idx b x' y'))
      as [Heq | (_ & _ & x1 & y1 & Hr1 & Hidx & HP1)]; [done |].
    apply idx_inj in Hidx as [-> ->]; [| done | done]. by destruct HP1. }
  exists b'. split; [done |]. split; [done |].
  intros Hnot Hlost. apply Hnot.
  assert (wf b') as Hwf' by (by eapply opened_wf).
  apply board_check_game_state_lost in Hlost as (xm & ym & Hrm & Hcm & Hom);
    [| done].
  apply (opened_in_range _ _ _ xm ym Hop) in Hrm.
  rewrite (opened_cell_at _ _ _ _ _ Hop) in Hcm.
  apply board_check_game_state_lost; [done |].
  exists xm, ym. split; [done |]. split; [done |].
  by rewrite <- (Hmines xm ym Hrm Hcm).
Qed.

Lemma reveal_safe_cell_opens_no_mine_witness :
  ∃ b', board_reveal 0 0 board_4x4 = Ok (tt, b') ∧
    (∀ x' y', in_range board_4x4 x' y' →
              cell_at board_4x4 x' y' = Some CELL_MINE →
              overlay_at b' x' y' = overlay_at board_4x4 x' y') ∧
    (board_check_game_state board_4x4 ≠ Ok (GameStateLost, board_4x4) →
     board_check_game_state b' ≠ Ok (GameStateLost, b')).
Proof.
  apply (reveal_safe_cell_opens_no_mine board_4x4 0 0 0);
    [wf_compute | exact board_4x4_numbered | in_range_compute
     | vm_compute; reflexivity | discriminate].
Defined.

(** ** The boards of a game are numbered *)

Lemma numbered_ext b b' :
  size b' = size b → cells b' = cells b → numbered b → numbered b'.
Proof.
  intros Hs Hc Hnum x y c Hr Hcell Hne.
  assert (neighbour_mines b' x y = neighbour_mines b x y) as ->.
  { unfold neighbour_mines.
    rewrite !(mine_at_ext b b'); try done; intros n; by rewrite Hc. }
  apply Hnum; [| | done].
  - unfold in_range in *. by rewrite <- Hs.
  - unfold cell_at, idx in *. by rewrite <- Hs, <- Hc.
Qed.

(** X7.  Every board of a game, from [board_init] on through any reveals
    and marks at coordinates of the board, has a size from 1 to 26, arrays
    of the declared length and cell values that are mines or the number of
    mines around the cell: play writes to the overlay only. *)
Theorem reachable_board_invariant b :
  reachable b → wf b ∧ 1 ≤ size b ∧ numbered b.
Proof.
  intros Hreach. split; [by apply reachable_wf |].
  induction Hreach as [sz m rand b Hinit | b x y b' Hreach IH Hr Hrun
                       | b x y b' Hreach IH Hr Hrun].
  - pose proof (board_init_size _ _ _ _ _ Hinit) as Hsz.
    destruct (board_init_numbered sz m rand board0 b Hsz
                (wf_cells _ wf_board0) (wf_overlay _ wf_board0) Hinit)
      as (_ & -> & Hnum & _).
    split; [lia | done].
  - pose proof (reachable_wf b Hreach) as Hwf.
    destruct (board_reveal_opened b x y Hwf Hr) as (b'' & Hrun' & Hop & _).
    rewrite Hrun in Hrun'. injection Hrun' as <-.
    destruct IH as [Hs Hnum]. split.
    + by rewrite (opened_size _ _ _ Hop).
    + eapply numbered_ext; [apply Hop | apply Hop | done].
  - pose proof (reachable_wf b Hreach) as Hwf.
    destruct (overlay_at_is_Some b x y Hwf Hr) as [o Ho].
    rewrite (board_mark_run b x y o Hwf Hr Ho) in Hrun.
    injection Hrun as <-. destruct IH as [Hs Hnum]. split; [done |].
    by apply (numbered_ext b).
Qed.

Lemma reachable_board_invariant_witness :
  wf board_4x4 ∧ 1 ≤ size board_4x4 ∧ numbered board_4x4.
Proof.
  apply (reachable_board_invariant board_4x4).
  apply (reachable_init 4 1 rand_zero). vm_compute. reflexivity.
Defined.

(** ** The shuffle *)

(** X8.  Whatever the random draws, the shuffle of [board_init] fills the
    first [area] entries of its array with a permutation of the indices
    [0 .. area - 1], leaves the other entries zero and does not touch the
    board. *)
Theorem shuffle_permutation rand a b :
  0 ≤ a ≤ MAX_BOARD_AREA →
  ∃ p, shuffle rand a b
       = Ok (p ++ replicate (Z.to_nat (MAX_BOARD_AREA - a)) 0, b) ∧
       p ≡ₚ seqZ 0 a.
Proof.
  intros Ha.
  destruct (wp_shuffle rand a b Ha) as (sh & b' & Hrun & -> & p & -> & Hperm).
  by exists p.
Qed.

Lemma shuffle_permutation_witness :
  ∃ p, shuffle rand_zero 4 board0
       = Ok (p ++ replicate (Z.to_nat (MAX_BOARD_AREA - 4)) 0, board0) ∧
       p ≡ₚ seqZ 0 4.
Proof. apply (shuffle_permutation rand_zero 4 board0). by vm_compute. Defined.

(** * The text front end *)

(** ** Running [IO] computations *)

Lemma io_bind_run {A B} (m : IO A) (k : A → IO B) w a w' :
  m w = Ok (a, w') → (m ≫= k) w = k a w'.
Proof. intros H. unfold mbind, IO_bind. by rewrite H. Qed.

Lemma on_board_run {A} (m : M A) a b' w :
  m (board w) = Ok (a, b') →
  on_board m w = Ok (a, mkWorld b' (stdin w) (stdout w)).
Proof. intros H. unfold on_board. by rewrite H. Qed.

Lemma prints_printf b text : prints b (printf text) text.
Proof. by intros sin out. Qed.

Lemma prints_seq b (m1 m2 : IO unit) t1 t2 :
  prints b m1 t1 → prints b m2 t2 → prints b (m1;; m2) (t1 ++ t2).
Proof.
  intros H1 H2 sin out.
  rewrite (io_bind_run _ _ _ _ _ (H1 sin out)), H2. by rewrite (assoc_L (++)).
Qed.

Lemma prints_on_board {A} b (m : M A) (k : A → IO unit) a t :
  m b = Ok (a, b) → prints b (k a) t → prints b (on_board m ≫= k) t.
Proof.
  intros Hm Hk sin out.
  by rewrite (io_bind_run _ _ _ a (mkWorld b sin out)); [| apply on_board_run].
Qed.

Lemma prints_lift {A} b (r : result A) (k : A → IO unit) a t :
  r = Ok a → prints b (k a) t → prints b (io_lift r ≫= k) t.
Proof.
  intros -> Hk sin out. by rewrite (io_bind_run _ _ _ a (mkWorld b sin out)).
Qed.

Lemma prints_iter b (body : Z → IO unit) (f : Z → list Z) idxs :
  (∀ i, i ∈ idxs → prints b (body i) (f i)) →
  prints b (io_iter body idxs) (mjoin (f <$> idxs)).
Proof.
  induction idxs as [| i idxs IH]; intros Hbody.
  - intros sin out. cbn. by rewrite (right_id_L [] (++)).
  - cbn [io_iter fmap list_fmap mjoin list_join]. apply prints_seq.
    + apply Hbody. by left.
    + apply IH. intros j Hj. apply Hbody. by right.
Qed.

(** ** view_draw *)

Lemma ascii_upper_load i :
  0 ≤ i < 26 → load _ascii_upper i = Ok (65 + i).
Proof.
  intros Hi. replace i with (Z.of_nat (Z.to_nat i)) by lia.
  assert (Z.to_nat i < 26)%nat as Hn by lia.
  generalize dependent (Z.to_nat i). clear. intros n Hn.
  do 26 (destruct n as [| n]; [vm_compute; reflexivity |]). lia.
Qed.

Lemma fmt_2c_small c : 0 ≤ c < 256 → fmt_2c c = [32; c].
Proof. intros Hc. unfold fmt_2c, pad. cbn. by rewrite to_u8_small. Qed.

Lemma cell_text_run b x y :
  wf b → in_range b x y →
  prints b
    (let n := to_uint (y * size b + x) in
     o ← on_board (load_overlay n);
     match o with
     | OverlayCellHidden => printf (bytes " #")
     | OverlayCellMarked => printf (bytes " !")
     | OverlayCellVisible =>
         c ← on_board (load_cell n);
         if c =? CELL_EMPTY then printf (bytes "  ")
         else if c =? CELL_MINE then printf (bytes " *")
         else printf (bytes " " ++ fmt_d c)
     end)
    (cell_text b x y).
Proof.
  intros Hwf Hr. cbv zeta. rewrite (index_of_idx b x y Hwf Hr).
  destruct (overlay_at_is_Some b x y Hwf Hr) as [o Ho].
  destruct (cell_at_is_Some b x y Hwf Hr) as [c Hc].
  unfold cell_text. rewrite Ho, Hc.
  apply (prints_on_board b _ _ o).
  { unfold load_overlay. by rewrite (load_Some _ _ _ Ho). }
  destruct o; try apply prints_printf.
  apply (prints_on_board b _ _ c).
  { unfold load_cell. by rewrite (load_Some _ _ _ Hc). }
  destruct (c =? CELL_EMPTY); [apply prints_printf |].
  destruct (c =? CELL_MINE); apply prints_printf.
Qed.

(** On a board of a valid size [view_draw] prints the picture of the
    board and changes neither the board nor [stdin]. *)
Lemma view_draw_run b : wf b → prints b view_draw (picture b).
Proof.
  intros Hwf. pose proof (wf_size _ Hwf) as Hs. unfold MAX_BOARD_SIZE in Hs.
  unfold view_draw, picture, header_text.
  rewrite <- !(assoc_L (++)).
  apply prints_seq; [apply prints_printf |].
  apply (prints_on_board b _ _ (size b)); [done |].
  apply prints_seq.
  { unfold io_for. rewrite Z.sub_0_r. apply prints_iter. intros i Hi.
    apply elem_of_seqZ in Hi.
    apply (prints_lift b _ _ (65 + i)); [apply ascii_upper_load; lia |].
    rewrite fmt_2c_small by lia. apply prints_printf. }
  apply prints_seq; [apply prints_printf |].
  unfold io_for. rewrite Z.sub_0_r.
  apply prints_iter. intros y Hy. apply elem_of_seqZ in Hy.
  unfold row_text.
  apply prints_seq.
  { rewrite to_uint_small by lia. apply prints_printf. }
  apply prints_seq; [| apply prints_printf].
  apply prints_iter. intros x Hx. apply elem_of_seqZ in Hx.
  apply (cell_text_run b x y Hwf). split; lia.
Qed.

(** X9.  On a board of a valid size [view_draw] reads inside the arrays
    only, returns, leaves the board and [stdin] as they are, and appends to
    [stdout] the picture of the board: a line of column letters and a line
    for each row, with its number and two characters for each cell. *)
Theorem view_draw_prints_picture w :
  wf (board w) →
  view_draw w
  = Ok (tt, mkWorld (board w) (stdin w) (stdout w ++ picture (board w))).
Proof. intros Hwf. destruct w as [b sin out]. by apply view_draw_run. Qed.

Lemma view_draw_prints_picture_witness :
  view_draw world_4x4
  = Ok (tt, mkWorld (board world_4x4) (stdin world_4x4)
              (stdout world_4x4 ++ picture (board world_4x4))).
Proof. apply (view_draw_prints_picture world_4x4). wf_compute. Defined.

Lemma cell_text_hides b1 b2 x y :
  size b1 = size b2 → overlay b1 = overlay b2 →
  (overlay_at b1 x y = Some OverlayCellVisible →
   cell_at b1 x y = cell_at b2 x y) →
  cell_text b1 x y = cell_text b2 x y.
Proof.
  intros Hs Ho Hc. unfold cell_text.
  assert (overlay_at b2 x y = overlay_at b1 x y) as ->.
  { unfold overlay_at, idx. by rewrite Hs, Ho. }
  destruct (overlay_at b1 x y) as [[| |] |]; try done. by rewrite Hc.
Qed.

(** X10.  The picture shows nothing of a cell that is not Visible: two
    boards of the same size with the same overlay and the same values in
    their Visible cells are drawn with the same text. *)
Theorem view_draw_hides_covered_cells b1 b2 sin out :
  wf b1 → wf b2 →
  size b1 = size b2 → overlay b1 = overlay b2 →
  (∀ x y, in_range b1 x y → overlay_at b1 x y = Some OverlayCellVisible →
          cell_at b1 x y = cell_at b2 x y) →
  ∃ text,
    view_draw (mkWorld b1 sin out) = Ok (tt, mkWorld b1 sin (out ++ text)) ∧
    view_draw (mkWorld b2 sin out) = Ok (tt, mkWorld b2 sin (out ++ text)).
Proof.
  intros Hwf1 Hwf2 Hs Ho Hc. exists (picture b1).
  split; [by apply view_draw_run |].
  assert (picture b1 = picture b2) as ->; [| by apply view_draw_run].
  unfold picture, header_text. rewrite <- Hs. do 2 f_equal.
  apply list_fmap_ext. intros i y Hy.
  apply lookup_seqZ in Hy as [-> Hi].
  unfold row_text. rewrite <- Hs. do 3 f_equal.
  apply list_fmap_ext. intros j x Hx.
  apply lookup_seqZ in Hx as [-> Hj].
  apply cell_text_hides; [done | done |]. apply Hc. split; lia.
Qed.

Lemma view_draw_hides_covered_cells_witness :
  ∃ text,
    view_draw (mkWorld board_4x4 (mkStdin [] EndOfFile false false) [])
    = Ok (tt, mkWorld board_4x4 (mkStdin [] EndOfFile false false)
                ([] ++ text)) ∧
    view_draw (mkWorld board_4x4_moved (mkStdin [] EndOfFile false false) [])
    = Ok (tt, mkWorld board_4x4_moved (mkStdin [] EndOfFile false false)
                ([] ++ text)).
Proof.
  assert (overlay board_4x4
          = replicate (Z.to_nat MAX_BOARD_AREA) OverlayCellHidden) as Ho
    by (vm_compute; reflexivity).
  apply (view_draw_hides_covered_cells board_4x4 board_4x4_moved);
    [wf_compute | wf_compute | vm_compute; reflexivity
     | vm_compute; reflexivity |].
  intros x y _. unfold overlay_at. rewrite Ho.
  intros Hv. apply lookup_replicate in Hv as [Hv _]. discriminate.
Defined.

(** *** The layout of the picture *)

Lemma mjoin_uniform_length {A} (ls : list (list A)) k :
  Forall (λ l, length l = k) ls → length (mjoin ls) = (length ls * k)%nat.
Proof.
  induction 1 as [| l ls Hl _ IH]; [done |].
  change (mjoin (l :: ls)) with (l ++ mjoin ls).
  rewrite length_app, IH, Hl. cbn [length]. lia.
Qed.

Lemma mjoin_uniform_lookup {A} (ls : list (list A)) k i j l :
  Forall (λ l, length l = k) ls → ls !! i = Some l → (j < k)%nat →
  mjoin ls !! (i * k + j)%nat = l !! j.
Proof.
  intros Hall. revert i. induction Hall as [| l0 ls Hl _ IH]; intros i Hi Hj.
  - by rewrite lookup_nil in Hi.
  - change (mjoin (l0 :: ls)) with (l0 ++ mjoin ls). destruct i as [| i].
    + injection Hi as ->. rewrite lookup_app_l by lia. done.
    + rewrite lookup_app_r by lia. rewrite <- (IH i Hi Hj). f_equal. lia.
Qed.

(** A line of the picture: a margin of two characters, two characters
    for each column and the end of the line. *)
Lemma line_layout {A} (margin : list A) (cols : list (list A)) e :
  length margin = 2%nat → Forall (λ l, length l = 2%nat) cols →
  length (margin ++ mjoin cols ++ [e]) = (2 * length cols + 3)%nat ∧
  (margin ++ mjoin cols ++ [e]) !! (2 * length cols + 2)%nat = Some e ∧
  ∀ i l, cols !! i = Some l →
         (margin ++ mjoin cols ++ [e]) !! (2 * i + 3)%nat = l !! 1%nat.
Proof.
  intros Hm Hcols.
  pose proof (mjoin_uniform_length cols 2 Hcols) as Hlen.
  split; [| split].
  - rewrite !length_app, Hm, Hlen. cbn. lia.
  - rewrite lookup_app_r by lia. rewrite lookup_app_r by lia.
    rewrite Hm, Hlen.
    by replace (2 * length cols + 2 - 2 - length cols * 2)%nat with 0%nat
      by lia.
  - intros i l Hi. pose proof (lookup_lt_Some _ _ _ Hi).
    rewrite lookup_app_r by lia. rewrite lookup_app_l by lia.
    rewrite <- (mjoin_uniform_lookup cols 2 i 1 l Hcols Hi) by lia.
    f_equal. lia.
Qed.

Lemma digits_S fuel n :
  digits (S fuel) n
  = (if n <? 10 then [] else digits fuel (n / 10)) ++ [48 + n mod 10].
Proof. done. Qed.

Lemma decimal_1 n : 0 ≤ n < 10 → decimal n = [48 + n].
Proof.
  intros Hn. unfold decimal. rewrite digits_S.
  destruct (Z.ltb_spec n 10); [| lia]. by rewrite Z.mod_small by lia.
Qed.

Lemma decimal_2 n : 10 ≤ n < 100 → decimal n = [48 + n / 10; 48 + n mod 10].
Proof.
  intros Hn. unfold decimal. rewrite digits_S.
  destruct (Z.ltb_spec n 10); [lia |].
  assert (0 ≤ n / 10 < 10) as Hq
    by (split; [apply Z.div_pos; lia | apply Z.div_lt_upper_bound; lia]).
  rewrite digits_S. destruct (Z.ltb_spec (n / 10) 10); [| lia].
  by rewrite (Z.mod_small (n / 10)) by lia.
Qed.

Lemma fmt_2u_length n : 0 ≤ n < 100 → length (fmt_2u n) = 2%nat.
Proof.
  intros Hn. unfold fmt_2u, pad. destruct (Z.ltb_spec n 10).
  - by rewrite decimal_1 by lia.
  - by rewrite decimal_2 by lia.
Qed.

Lemma cell_text_symbol b x y o c :
  numbered b → in_range b x y →
  overlay_at b x y = Some o → cell_at b x y = Some c →
  cell_text b x y = [32; cell_symbol o c].
Proof.
  intros Hnum Hr Ho Hc. unfold cell_text, cell_symbol. rewrite Ho, Hc.
  destruct o; try done.
  destruct (Z.eqb_spec c CELL_EMPTY); [done |].
  destruct (Z.eqb_spec c CELL_MINE) as [| Hm]; [done |].
  pose proof (Hnum x y c Hr Hc Hm) as Hn.
  pose proof (neighbour_mines_range b x y). unfold CELL_EMPTY in *.
  unfold fmt_d. destruct (Z.ltb_spec c 0); [lia |].
  by rewrite decimal_1 by lia.
Qed.

Lemma header_cols_uniform b :
  Forall (λ l, length l = 2%nat) ((λ i, [32; 65 + i]) <$> seqZ 0 (size b)).
Proof. apply Forall_fmap, Forall_forall. by intros. Qed.

Lemma row_cols_uniform b y :
  wf b → numbered b → 0 ≤ y < size b →
  Forall (λ l, length l = 2%nat) ((λ x, cell_text b x y) <$> seqZ 0 (size b)).
Proof.
  intros Hwf Hnum Hy. apply Forall_fmap, Forall_forall. intros x Hx.
  apply elem_of_seqZ in Hx. cbn.
  assert (in_range b x y) as Hr by (split; lia).
  destruct (overlay_at_is_Some b x y Hwf Hr) as [o Ho].
  destruct (cell_at_is_Some b x y Hwf Hr) as [c Hc].
  by rewrite (cell_text_symbol b x y o c).
Qed.

Lemma picture_lines b :
  picture b = mjoin (header_text b :: (row_text b <$> seqZ 0 (size b))).
Proof. done. Qed.

Lemma picture_uniform b :
  wf b → numbered b →
  Forall (λ l, length l = Z.to_nat (2 * size b + 3))
         (header_text b :: (row_text b <$> seqZ 0 (size b))).
Proof.
  intros Hwf Hnum. pose proof (wf_size _ Hwf) as Hs.
  unfold MAX_BOARD_SIZE in Hs. constructor.
  - unfold header_text.
    destruct (line_layout (bytes "  ") _ newline eq_refl
                (header_cols_uniform b)) as (-> & _).
    rewrite length_fmap, length_seqZ. lia.
  - apply Forall_fmap, Forall_forall. intros y Hy. apply elem_of_seqZ in Hy.
    unfold compose. cbv beta. unfold row_text.
    destruct (line_layout (fmt_2u (y + 1)) _ newline
                (fmt_2u_length (y + 1) ltac:(lia))
                (row_cols_uniform b y Hwf Hnum ltac:(lia))) as (-> & _).
    rewrite length_fmap, length_seqZ. lia.
Qed.

Lemma picture_row b y :
  0 ≤ y < size b →
  (header_text b :: (row_text b <$> seqZ 0 (size b))) !! Z.to_nat (y + 1)
  = Some (row_text b y).
Proof.
  intros Hy. replace (Z.to_nat (y + 1)) with (S (Z.to_nat y)) by lia.
  rewrite lookup_cons, list_lookup_fmap.
  rewrite (lookup_seqZ_lt 0 (size b) (Z.to_nat y)) by lia.
  by replace (0 + Z.of_nat (Z.to_nat y)) with y by lia.
Qed.

(** X11.  On a board whose cell values are mines or neighbour counts the
    picture is a grid: [size + 1] lines of [2 * size + 3] characters, each
    ended by a newline; the first line holds the letter of column [x] at
    offset [2 * x + 3], and line [y + 1] holds at that offset the symbol of
    the cell [(x, y)]: [#] Hidden, [!] Marked, and for a Visible cell a
    blank for zero, [*] for a mine and its digit otherwise. *)
Theorem view_draw_grid b sin out :
  wf b → numbered b →
  ∃ text,
    view_draw (mkWorld b sin out) = Ok (tt, mkWorld b sin (out ++ text)) ∧
    length text = Z.to_nat ((size b + 1) * (2 * size b + 3)) ∧
    (∀ r, 0 ≤ r ≤ size b →
          text !! Z.to_nat (r * (2 * size b + 3) + 2 * size b + 2)
          = Some newline) ∧
    (∀ x, 0 ≤ x < size b → text !! Z.to_nat (2 * x + 3) = Some (65 + x)) ∧
    (∀ x y o c,
       in_range b x y →
       overlay_at b x y = Some o → cell_at b x y = Some c →
       text !! Z.to_nat ((y + 1) * (2 * size b + 3) + 2 * x + 3)
       = Some (cell_symbol o c)).
Proof.
  intros Hwf Hnum. exists (picture b).
  split; [by apply view_draw_run |].
  pose proof (wf_size _ Hwf) as Hs. unfold MAX_BOARD_SIZE in Hs.
  pose proof (picture_uniform b Hwf Hnum) as Huni.
  set (W := Z.to_nat (2 * size b + 3)) in *.
  assert (∀ r j, 0 ≤ r → 0 ≤ j < 2 * size b + 3 →
            Z.to_nat (r * (2 * size b + 3) + j)
            = (Z.to_nat r * W + Z.to_nat j)%nat) as Hpos.
  { intros r j Hr Hj. unfold W. nia. }
  assert (∀ x, 0 ≤ x < size b →
            Z.to_nat (2 * x + 3) = (2 * Z.to_nat x + 3)%nat) as Hcol
    by (intros; lia).
  rewrite picture_lines.
  split; [| split; [| split]].
  - rewrite (mjoin_uniform_length _ W Huni).
    cbn [length]. rewrite length_fmap, length_seqZ. unfold W. nia.
  - intros r Hr.
    replace (r * (2 * size b + 3) + 2 * size b + 2)
      with (r * (2 * size b + 3) + (2 * size b + 2)) by lia.
    rewrite Hpos by lia.
    destruct (decide (r = 0)) as [-> | Hr0].
    + rewrite (mjoin_uniform_lookup _ W 0 _ (header_text b) Huni eq_refl)
        by (unfold W; lia).
      unfold header_text.
      destruct (line_layout (bytes "  ") _ newline eq_refl
                  (header_cols_uniform b)) as (_ & Hend & _).
      rewrite length_fmap, length_seqZ in Hend.
      by replace (Z.to_nat (2 * size b + 2))
        with (2 * Z.to_nat (size b) + 2)%nat by lia.
    + replace (Z.to_nat r) with (Z.to_nat (r - 1 + 1)) by lia.
      rewrite (mjoin_uniform_lookup _ W _ _ (row_text b (r - 1)) Huni
                 (picture_row b (r - 1) ltac:(lia))) by (unfold W; lia).
      unfold row_text.
      destruct (line_layout (fmt_2u (r - 1 + 1)) _ newline
                  (fmt_2u_length (r - 1 + 1) ltac:(lia))
                  (row_cols_uniform b (r - 1) Hwf Hnum ltac:(lia)))
        as (_ & Hend & _).
      rewrite length_fmap, length_seqZ in Hend.
      by replace (Z.to_nat (2 * size b + 2))
        with (2 * Z.to_nat (size b) + 2)%nat by lia.
  - intros x Hx.
    change (mjoin (header_text b :: (row_text b <$> seqZ 0 (size b))))
      with (header_text b ++ mjoin (row_text b <$> seqZ 0 (size b))).
    destruct (line_layout (bytes "  ") _ newline eq_refl
                (header_cols_uniform b)) as (Hlen & _ & Hcell).
    fold (header_text b) in Hlen, Hcell.
    rewrite length_fmap, length_seqZ in Hlen.
    rewrite lookup_app_l by lia. rewrite Hcol by done.
    rewrite (Hcell (Z.to_nat x) [32; 65 + x]); [done |].
    rewrite list_lookup_fmap, (lookup_seqZ_lt 0 (size b) (Z.to_nat x)) by lia.
    by replace (0 + Z.of_nat (Z.to_nat x)) with x by lia.
  - intros x y o c Hr Ho Hc. destruct (Hr) as [Hx Hy].
    replace ((y + 1) * (2 * size b + 3) + 2 * x + 3)
      with ((y + 1) * (2 * size b + 3) + (2 * x + 3)) by lia.
    rewrite Hpos by lia.
    rewrite (mjoin_uniform_lookup _ W _ _ (row_text b y) Huni
               (picture_row b y Hy)) by (unfold W; lia).
    unfold row_text.
    destruct (line_layout (fmt_2u (y + 1)) _ newline
                (fmt_2u_length (y + 1) ltac:(lia))
                (row_cols_uniform b y Hwf Hnum ltac:(lia)))
      as (_ & _ & Hcell).
    rewrite Hcol by done.
    rewrite (Hcell (Z.to_nat x) (cell_text b x y)).
    + by rewrite (cell_text_symbol b x y o c).
    + rewrite list_lookup_fmap,
        (lookup_seqZ_lt 0 (size b) (Z.to_nat x)) by lia.
      by replace (0 + Z.of_nat (Z.to_nat x)) with x by lia.
Qed.

Lemma view_draw_grid_witness :
  ∃ text,
    view_draw (mkWorld board_4x4 (mkStdin [] EndOfFile false false) [])
    = Ok (tt, mkWorld board_4x4 (mkStdin [] EndOfFile false false)
                ([] ++ text)) ∧
    length text = Z.to_nat ((size board_4x4 + 1) * (2 * size board_4x4 + 3)) ∧
    (∀ r, 0 ≤ r ≤ size board_4x4 →
          text !! Z.to_nat (r * (2 * size board_4x4 + 3)
                            + 2 * size board_4x4 + 2)
          = Some newline) ∧
    (∀ x, 0 ≤ x < size board_4x4 →
          text !! Z.to_nat (2 * x + 3) = Some (65 + x)) ∧
    (∀ x y o c,
       in_range board_4x4 x y →
       overlay_at board_4x4 x y = Some o → cell_at board_4x4 x y = Some c →
       text !! Z.to_nat ((y + 1) * (2 * size board_4x4 + 3) + 2 * x + 3)
       = Some (cell_symbol o c)).
Proof.
  apply (view_draw_grid board_4x4); [wf_compute | exact board_4x4_numbered].
Defined.

(** ** Reading from [stdin] *)

Lemma text_byte_u8 c : 0 < c < 128 → to_u8 c = c.
Proof. intros. apply to_u8_small. lia. Qed.

Lemma text_byte_char c : 0 ≤ c < 128 → to_char c = c.
Proof. intros. unfold to_char. rewrite Z.mod_small; lia. Qed.

Lemma read_byte_cons b c p e err out :
  read_byte (mkWorld b (mkStdin (c :: p) e false err) out)
  = Ok (GotChar (to_u8 c), mkWorld b (mkStdin p e false err) out).
Proof. done. Qed.

Lemma read_byte_end b e err out :
  read_byte (mkWorld b (mkStdin [] e false err) out)
  = Ok (match e with EndOfFile => GotEof | ReadError => GotError end,
        mkWorld b
          (match e with
           | EndOfFile => mkStdin [] EndOfFile true err
           | ReadError => mkStdin [] ReadError false true
           end) out).
Proof. by destruct e. Qed.

(** [fgets] on a line that fits the array. *)
Lemma fgets_chars_line k line rest b e err out :
  Forall line_byte line → (length line < k)%nat →
  fgets_chars k (mkWorld b (mkStdin (line ++ newline :: rest) e false err) out)
  = Ok ((line ++ [newline], false), mkWorld b (mkStdin rest e false err) out).
Proof.
  revert k. induction line as [| c line IH]; intros k Hline Hk.
  - destruct k as [| k]; [cbn in Hk; lia |]. done.
  - destruct k as [| k]; [cbn in Hk; lia |].
    apply Forall_cons in Hline as [[Hc Hnl] Hline].
    cbn [fgets_chars app].
    rewrite (io_bind_run _ _ _ _ _ (read_byte_cons _ _ _ _ _ _)).
    rewrite text_byte_u8 by done.
    destruct (Z.eqb_spec c newline); [done |].
    rewrite (io_bind_run _ _ _ _ _ (IH k Hline ltac:(cbn in Hk; lia))).
    cbn. by rewrite text_byte_char by lia.
Qed.

(** [fgets] on a line longer than the array. *)
Lemma fgets_chars_full k line rest b e err out :
  Forall line_byte line → length line = k →
  fgets_chars k (mkWorld b (mkStdin (line ++ rest) e false err) out)
  = Ok ((line, false), mkWorld b (mkStdin rest e false err) out).
Proof.
  revert k. induction line as [| c line IH]; intros k Hline Hk.
  - by subst k.
  - subst k. apply Forall_cons in Hline as [[Hc Hnl] Hline].
    cbn [fgets_chars app length].
    rewrite (io_bind_run _ _ _ _ _ (read_byte_cons _ _ _ _ _ _)).
    rewrite text_byte_u8 by done.
    destruct (Z.eqb_spec c newline); [done |].
    rewrite (io_bind_run _ _ _ _ _ (IH _ Hline eq_refl)).
    cbn. by rewrite text_byte_char by lia.
Qed.

(** [fgets] at the end of the stream. *)
Lemma fgets_chars_end k line b e err out :
  Forall line_byte line → (length line < k)%nat →
  fgets_chars k (mkWorld b (mkStdin line e false err) out)
  = Ok ((line, match e with EndOfFile => false | ReadError => true end),
        mkWorld b
          (match e with
           | EndOfFile => mkStdin [] EndOfFile true err
           | ReadError => mkStdin [] ReadError false true
           end) out).
Proof.
  revert k. induction line as [| c line IH]; intros k Hline Hk.
  - destruct k as [| k]; [cbn in Hk; lia |].
    cbn [fgets_chars].
    rewrite (io_bind_run _ _ _ _ _ (read_byte_end _ _ _ _)).
    by destruct e.
  - destruct k as [| k]; [cbn in Hk; lia |].
    apply Forall_cons in Hline as [[Hc Hnl] Hline].
    cbn [fgets_chars].
    rewrite (io_bind_run _ _ _ _ _ (read_byte_cons _ _ _ _ _ _)).
    rewrite text_byte_u8 by done.
    destruct (Z.eqb_spec c newline); [done |].
    rewrite (io_bind_run _ _ _ _ _ (IH k Hline ltac:(cbn in Hk; lia))).
    cbn. by rewrite text_byte_char by lia.
Qed.

Lemma getc_cons b c p e err out :
  getc (mkWorld b (mkStdin (c :: p) e false err) out)
  = Ok (to_u8 c, mkWorld b (mkStdin p e false err) out).
Proof. done. Qed.

Lemma getc_end b e err out :
  getc (mkWorld b (mkStdin [] e false err) out)
  = Ok (EOF,
        mkWorld b
          (match e with
           | EndOfFile => mkStdin [] EndOfFile true err
           | ReadError => mkStdin [] ReadError false true
           end) out).
Proof. by destruct e. Qed.

(** The loop that drops the rest of a line stops behind its newline. *)
Lemma skip_line_newline fuel line rest b e err out :
  Forall line_byte line → (length line < fuel)%nat →
  skip_line fuel (mkWorld b (mkStdin (line ++ newline :: rest) e false err) out)
  = Ok (newline, mkWorld b (mkStdin rest e false err) out).
Proof.
  revert fuel. induction line as [| c line IH]; intros fuel Hline Hk.
  - destruct fuel as [| fuel]; [cbn in Hk; lia |]. done.
  - destruct fuel as [| fuel]; [cbn in Hk; lia |].
    apply Forall_cons in Hline as [[Hc Hnl] Hline].
    cbn [skip_line app].
    rewrite (io_bind_run _ _ _ _ _ (getc_cons _ _ _ _ _ _)).
    rewrite text_byte_u8, text_byte_char by lia.
    destruct (Z.eqb_spec c newline); [done |].
    destruct (Z.eqb_spec c EOF); [unfold EOF in *; lia |].
    cbn [negb andb]. apply IH; [done | cbn in Hk; lia].
Qed.

(** Without a newline it stops at the end of the stream. *)
Lemma skip_line_end fuel line b e err out :
  Forall line_byte line → (length line < fuel)%nat →
  skip_line fuel (mkWorld b (mkStdin line e false err) out)
  = Ok (EOF,
        mkWorld b
          (match e with
           | EndOfFile => mkStdin [] EndOfFile true err
           | ReadError => mkStdin [] ReadError false true
           end) out).
Proof.
  revert fuel. induction line as [| c line IH]; intros fuel Hline Hk.
  - destruct fuel as [| fuel]; [cbn in Hk; lia |].
    cbn [skip_line].
    by rewrite (io_bind_run _ _ _ _ _ (getc_end _ _ _ _)).
  - destruct fuel as [| fuel]; [cbn in Hk; lia |].
    apply Forall_cons in Hline as [[Hc Hnl] Hline].
    cbn [skip_line].
    rewrite (io_bind_run _ _ _ _ _ (getc_cons _ _ _ _ _ _)).
    rewrite text_byte_u8, text_byte_char by lia.
    destruct (Z.eqb_spec c newline); [done |].
    destruct (Z.eqb_spec c EOF); [unfold EOF in *; lia |].
    cbn [negb andb]. apply IH; [done | cbn in Hk; lia].
Qed.

(** ** The array of [view_input] *)

Lemma strlen_app line s :
  Forall (λ c, c ≠ 0) line →
  strlen (line ++ 0 :: s) = Ok (Z.of_nat (length line)).
Proof.
  induction 1 as [| c line Hc _ IH]; [done |].
  cbn [strlen app length]. destruct (Z.eqb_spec c 0); [done |].
  rewrite IH. cbn. f_equal. lia.
Qed.

Lemma line_byte_nonzero line :
  Forall line_byte line → Forall (λ c, c ≠ 0) line.
Proof. intros H. eapply Forall_impl; [exact H |]. intros c [Hc _]. lia. Qed.

Lemma upper_line_byte c : line_byte c → line_byte (upper c).
Proof.
  intros [Hc Hnl]. unfold line_byte, upper, newline in *.
  destruct (Z.leb_spec 97 c), (Z.leb_spec c 122); cbn; lia.
Qed.

Lemma upcase_line line zs :
  Forall line_byte line →
  upcase (line ++ newline :: 0 :: zs) = Ok ((upper <$> line) ++ 0 :: 0 :: zs).
Proof.
  induction 1 as [| c line Hc _ IH]; [done |].
  pose proof (upper_line_byte c Hc) as [Hu Hunl]. destruct Hc as [Hc Hnl].
  cbn [upcase app fmap list_fmap]. destruct (Z.eqb_spec c 0); [lia |].
  unfold toupper, ctype_arg, EOF.
  destruct (Z.leb_spec (-1) c); [| lia]. destruct (Z.leb_spec c 255); [| lia].
  cbn [andb mbind result_bind]. fold (upper c).
  rewrite text_byte_char by lia. rewrite IH. cbn [mbind result_bind].
  by destruct (Z.eqb_spec (upper c) newline).
Qed.

(** ** view_input: reading a line *)

Lemma printf_run text b sin out :
  printf text (mkWorld b sin out) = Ok (tt, mkWorld b sin (out ++ text)).
Proof. done. Qed.

Lemma ferror_run b p e eof err out :
  ferror (mkWorld b (mkStdin p e eof err) out)
  = Ok (err, mkWorld b (mkStdin p e eof err) out).
Proof. done. Qed.

Lemma feof_run b p e eof err out :
  feof (mkWorld b (mkStdin p e eof err) out)
  = Ok (eof, mkWorld b (mkStdin p e eof err) out).
Proof. done. Qed.

Lemma get_stdin_run b sin out :
  get_stdin (mkWorld b sin out) = Ok (sin, mkWorld b sin out).
Proof. done. Qed.

Lemma io_lift_run {A} (a : A) w : io_lift (Ok a) w = Ok (a, w).
Proof. done. Qed.

Ltac io_run H := rewrite (io_bind_run _ _ _ _ _ H); cbv beta.

Lemma fgets_line line rest b e err out :
  Forall line_byte line → (length line ≤ 4)%nat →
  fgets (replicate 6 0) 6
    (mkWorld b (mkStdin (line ++ newline :: rest) e false err) out)
  = Ok (Some (line ++ newline :: 0 :: replicate (4 - length line) 0),
        mkWorld b (mkStdin rest e false err) out).
Proof.
  intros Hline Hlen. unfold fgets. change (Z.to_nat (6 - 1)) with 5%nat.
  io_run (fgets_chars_line 5 line rest b e err out Hline ltac:(lia)).
  rewrite bool_decide_eq_false_2 by (by destruct line).
  cbv iota. unfold mret, IO_ret. do 3 f_equal.
  destruct line as [| c1 [| c2 [| c3 [| c4 [| c5 line]]]]];
    cbn in Hlen; try lia; done.
Qed.

Lemma fgets_full c1 c2 c3 c4 c5 rest b e err out :
  Forall line_byte [c1; c2; c3; c4; c5] →
  fgets (replicate 6 0) 6
    (mkWorld b (mkStdin (c1 :: c2 :: c3 :: c4 :: c5 :: rest) e false err) out)
  = Ok (Some [c1; c2; c3; c4; c5; 0],
        mkWorld b (mkStdin rest e false err) out).
Proof.
  intros Hline. unfold fgets. change (Z.to_nat (6 - 1)) with 5%nat.
  by io_run (fgets_chars_full 5 [c1; c2; c3; c4; c5] rest b e err out
               Hline eq_refl).
Qed.

Lemma fgets_end line b e err out :
  Forall line_byte line → (length line < 5)%nat →
  fgets (replicate 6 0) 6 (mkWorld b (mkStdin line e false err) out)
  = Ok (match e with
        | EndOfFile =>
            if bool_decide (line = []) then None
            else Some (line ++ [0] ++ drop (S (length line)) (replicate 6 0))
        | ReadError => None
        end,
        mkWorld b
          (match e with
           | EndOfFile => mkStdin [] EndOfFile true err
           | ReadError => mkStdin [] ReadError false true
           end) out).
Proof.
  intros Hline Hlen. unfold fgets. change (Z.to_nat (6 - 1)) with 5%nat.
  io_run (fgets_chars_end 5 line b e err out Hline Hlen).
  destruct e; [| done]. cbv iota. by destruct (bool_decide (line = [])).
Qed.

Lemma strlen_line line zs :
  Forall line_byte line →
  strlen (line ++ newline :: 0 :: zs) = Ok (Z.of_nat (length line) + 1).
Proof.
  intros Hline.
  replace (line ++ newline :: 0 :: zs) with ((line ++ [newline]) ++ 0 :: zs)
    by by rewrite <- (assoc_L (++)).
  rewrite strlen_app.
  - rewrite length_app. cbn. f_equal. lia.
  - apply Forall_app. split; [by apply line_byte_nonzero |].
    by repeat constructor.
Qed.

(** A line of at most four characters and its newline is read whole, and
    what [view_input] returns is decided by the array alone. *)
Lemma view_input_line line rest b e err out :
  Forall line_byte line → (length line ≤ 4)%nat →
  view_input (mkWorld b (mkStdin (line ++ newline :: rest) e false err) out)
  = io_lift
      (parse_command (line ++ newline :: 0 :: replicate (4 - length line) 0))
      (mkWorld b (mkStdin rest e false err) (out ++ bytes "> ")).
Proof.
  intros Hline Hlen. unfold view_input.
  io_run (printf_run (bytes "> ") b
            (mkStdin (line ++ newline :: rest) e false err) out).
  io_run (fgets_line line rest b e err (out ++ bytes "> ") Hline Hlen).
  io_run (ferror_run b rest e false err (out ++ bytes "> ")).
  rewrite bool_decide_eq_false_2 by done. cbn [andb].
  io_run (feof_run b rest e false err (out ++ bytes "> ")).
  cbn [default from_option id].
  rewrite (strlen_line line _ Hline).
  io_run (io_lift_run (Z.of_nat (length line) + 1)
            (mkWorld b (mkStdin rest e false err) (out ++ bytes "> "))).
  replace (Z.of_nat (length line) + 1 - 1) with (Z.of_nat (length line))
    by lia.
  rewrite (load_Some _ _ newline) by (by apply list_lookup_middle).
  by io_run (io_lift_run newline
               (mkWorld b (mkStdin rest e false err) (out ++ bytes "> "))).
Qed.

(** Five characters without a newline fill the array; the rest of the
    line is dropped, and the answer depends on how the dropping ends. *)
Lemma view_input_overflow c1 c2 c3 c4 c5 tail b e err out :
  Forall line_byte [c1; c2; c3; c4; c5] →
  view_input
    (mkWorld b (mkStdin (c1 :: c2 :: c3 :: c4 :: c5 :: tail) e false err) out)
  = (c ← skip_line (S (length tail));
     if c =? EOF then
       err ← ferror;
       mret (if (err : bool) then InputTypeError else InputTypeEof)
     else mret InputTypeInvalid)
      (mkWorld b (mkStdin tail e false err) (out ++ bytes "> ")).
Proof.
  intros H5.
  assert (c5 ≠ newline) as Hc5.
  { do 4 apply Forall_cons in H5 as [_ H5].
    by apply Forall_cons in H5 as [[_ ?] _]. }
  unfold view_input.
  io_run (printf_run (bytes "> ") b
            (mkStdin (c1 :: c2 :: c3 :: c4 :: c5 :: tail) e false err) out).
  io_run (fgets_full c1 c2 c3 c4 c5 tail b e err (out ++ bytes "> ") H5).
  io_run (ferror_run b tail e false err (out ++ bytes "> ")).
  rewrite bool_decide_eq_false_2 by done. cbn [andb].
  io_run (feof_run b tail e false err (out ++ bytes "> ")).
  cbn [default from_option id].
  change (strlen [c1; c2; c3; c4; c5; 0])
    with (strlen ([c1; c2; c3; c4; c5] ++ [0])).
  rewrite (strlen_app [c1; c2; c3; c4; c5] [] (line_byte_nonzero _ H5)).
  io_run (io_lift_run (Z.of_nat (length [c1; c2; c3; c4; c5]))
            (mkWorld b (mkStdin tail e false err) (out ++ bytes "> "))).
  change (load [c1; c2; c3; c4; c5; 0]
            (Z.of_nat (length [c1; c2; c3; c4; c5]) - 1)) with (Ok c5).
  io_run (io_lift_run c5
            (mkWorld b (mkStdin tail e false err) (out ++ bytes "> "))).
  destruct (Z.eqb_spec c5 newline); [done |]. cbn [negb].
  by io_run (get_stdin_run b (mkStdin tail e false err) (out ++ bytes "> ")).
Qed.

(** A last line of fewer than five characters that no newline ends. *)
Lemma view_input_short_end line b e out :
  Forall line_byte line → (length line < 5)%nat →
  view_input (mkWorld b (mkStdin line e false false) out)
  = Ok (match e with
        | EndOfFile => InputTypeEof
        | ReadError => InputTypeError
        end,
        mkWorld b
          (match e with
           | EndOfFile => mkStdin [] EndOfFile true false
           | ReadError => mkStdin [] ReadError false true
           end) (out ++ bytes "> ")).
Proof.
  intros Hline Hlen. unfold view_input.
  io_run (printf_run (bytes "> ") b (mkStdin line e false false) out).
  io_run (fgets_end line b e false (out ++ bytes "> ") Hline Hlen).
  destruct e.
  - io_run (ferror_run b [] EndOfFile true false (out ++ bytes "> ")).
    rewrite andb_false_r.
    by io_run (feof_run b [] EndOfFile true false (out ++ bytes "> ")).
  - by io_run (ferror_run b [] ReadError false true (out ++ bytes "> ")).
Qed.

Lemma line_split5 (line : list Z) :
  (5 ≤ length line)%nat →
  ∃ c1 c2 c3 c4 c5 tail, line = c1 :: c2 :: c3 :: c4 :: c5 :: tail.
Proof.
  intros Hlen.
  destruct line as [| c1 [| c2 [| c3 [| c4 [| c5 tail]]]]];
    cbn in Hlen; try lia.
  by exists c1, c2, c3, c4, c5, tail.
Qed.





(** ** view_input: the command in the array *)

Lemma result_bind_inv {A B} (r : result A) (k : A → result B) v :
  r ≫= k = Ok v → ∃ a, r = Ok a ∧ k a = Ok v.
Proof. destruct r as [a | |]; cbn; [eauto | done | done]. Qed.

Lemma bytes_Q : bytes "Q" ++ [0] = [81; 0].
Proof. done. Qed.

Lemma bytes_QUIT : bytes "QUIT" ++ [0] = [81; 85; 73; 84; 0].
Proof. done. Qed.

(** [strncmp] of an array that holds a string of text with a string
    literal: zero exactly when the strings, with their terminators, agree
    on the first [n] characters. *)
Lemma strncmp_text n U t zs :
  Forall text_byte U → Forall text_byte t →
  ∃ q, strncmp (U ++ 0 :: zs) (t ++ [0]) n = Ok q ∧
       (q = 0 ↔ take n (U ++ [0]) = take n (t ++ [0])).
Proof.
  revert U t. induction n as [| n IH]; intros U t HU Ht.
  { by exists 0. }
  destruct U as [| c1 U], t as [| c2 t]; cbn [strncmp app take].
  - by exists 0.
  - apply Forall_cons in Ht as [Hc2 _]. unfold text_byte in Hc2.
    rewrite (to_u8_small c2), (to_u8_small 0) by lia.
    destruct (Z.eqb_spec 0 c2); [lia |]. cbn [negb].
    exists (0 - c2). split; [done |]. split; [lia | congruence].
  - apply Forall_cons in HU as [Hc1 _]. unfold text_byte in Hc1.
    rewrite (to_u8_small c1), (to_u8_small 0) by lia.
    destruct (Z.eqb_spec c1 0); [lia |]. cbn [negb].
    exists (c1 - 0). split; [done |]. split; [lia | congruence].
  - apply Forall_cons in HU as [Hc1 HU]. apply Forall_cons in Ht as [Hc2 Ht].
    unfold text_byte in Hc1, Hc2.
    rewrite (to_u8_small c1), (to_u8_small c2) by lia.
    destruct (Z.eqb_spec c1 c2) as [-> | Hne]; cbn [negb].
    + destruct (Z.eqb_spec c2 0); [lia |].
      destruct (IH U t HU Ht) as (q & Hq & Hiff).
      exists q. split; [done |]. rewrite Hiff. split; [congruence |].
      by intros [=].
    + exists (c1 - c2). split; [done |]. split; [lia | congruence].
Qed.

Lemma strchr_Some s c k :
  strchr s c = Ok (Some k) → 0 ≤ k ∧ s !! Z.to_nat k = Some (to_char c).
Proof.
  revert k. induction s as [| d s IH]; intros k; [done |].
  cbn [strchr]. destruct (Z.eqb_spec d (to_char c)) as [-> | Hd].
  - by intros [= <-].
  - destruct (d =? 0); [done |].
    intros H. apply result_bind_inv in H as (r & Hr & H).
    destruct r as [k' |]; [| done]. injection H as <-.
    destruct (IH k' Hr) as [Hk Hl]. split; [lia |].
    by replace (Z.to_nat (k' + 1)) with (S (Z.to_nat k')) by lia.
Qed.

Lemma strchr_upper c :
  65 ≤ c ≤ 90 → strchr _ascii_upper c = Ok (Some (c - 65)).
Proof.
  intros Hc. replace c with (65 + Z.of_nat (Z.to_nat (c - 65))) by lia.
  assert (Z.to_nat (c - 65) < 26)%nat as Hn by lia.
  generalize dependent (Z.to_nat (c - 65)). clear. intros n Hn.
  do 26 (destruct n as [| n]; [vm_compute; reflexivity |]). lia.
Qed.

Lemma isalpha_true c : isalpha c = Ok true → letter c.
Proof.
  unfold isalpha, letter. destruct (ctype_arg c); [| done]. intros [= H].
  destruct (Z.leb_spec 65 c), (Z.leb_spec c 90), (Z.leb_spec 97 c),
    (Z.leb_spec c 122); cbn in H; try done; lia.
Qed.

Lemma isalpha_text c : 0 ≤ c < 128 → ∃ a, isalpha c = Ok a.
Proof.
  intros Hc. unfold isalpha, ctype_arg, EOF.
  destruct (Z.leb_spec (-1) c); [| lia]. destruct (Z.leb_spec c 255); [| lia].
  by eexists.
Qed.

Lemma isalpha_letter c : letter c → isalpha c = Ok true.
Proof.
  intros Hc. unfold isalpha, ctype_arg, EOF, letter in *.
  destruct (Z.leb_spec (-1) c); [| lia]. destruct (Z.leb_spec c 255); [| lia].
  cbn [andb]. f_equal.
  destruct (Z.leb_spec 65 c), (Z.leb_spec c 90), (Z.leb_spec 97 c),
    (Z.leb_spec c 122); cbn; try done; lia.
Qed.

Lemma isdigit_text c : 0 ≤ c < 128 →
  isdigit c = Ok (bool_decide (digit c)).
Proof.
  intros Hc. unfold isdigit, ctype_arg, EOF, digit.
  destruct (Z.leb_spec (-1) c); [| lia]. destruct (Z.leb_spec c 255); [| lia].
  cbn [andb]. f_equal.
  destruct (Z.leb_spec 48 c), (Z.leb_spec c 57); cbn; try lia;
    first [rewrite bool_decide_eq_true_2 by lia
          | rewrite bool_decide_eq_false_2 by lia]; done.
Qed.

Lemma to_uint_range v : 0 ≤ to_uint v < 2 ^ 32.
Proof. unfold to_uint. apply Z.mod_pos_bound. lia. Qed.

Lemma read_number_range s y0 y s' :
  0 ≤ y0 < 2 ^ 32 → read_number s y0 = Ok (y, s') → 0 ≤ y < 2 ^ 32.
Proof.
  revert y0. induction s as [| c s IH]; intros y0 Hy0; [done |].
  cbn [read_number]. intros H. apply result_bind_inv in H as (d & _ & H).
  destruct d.
  - apply (IH _ (to_uint_range _) H).
  - by injection H as <- _.
Qed.

(** On a string of text the loop stops inside the array. *)
Lemma read_number_text V zs y0 :
  Forall text_byte V →
  ∃ y c s', read_number (V ++ 0 :: zs) y0 = Ok (y, c :: s').
Proof.
  intros HV. revert y0. induction HV as [| v V Hv _ IH]; intros y0.
  - by exists y0, 0, zs.
  - cbn [read_number app]. unfold text_byte in Hv.
    rewrite isdigit_text by lia. cbn [mbind result_bind].
    destruct (bool_decide (digit v)); [apply IH |].
    by exists y0, v, (V ++ 0 :: zs).
Qed.

Lemma read_number_digits ds zs y0 :
  Forall digit ds →
  read_number (ds ++ 0 :: zs) y0
  = Ok (foldl (λ n d, to_uint (n * 10 + (d - 48))) y0 ds, 0 :: zs).
Proof.
  intros Hds. revert y0. induction Hds as [| d ds Hd _ IH]; intros y0.
  - done.
  - cbn [read_number app foldl]. unfold digit in Hd.
    rewrite isdigit_text by lia. cbn [mbind result_bind].
    rewrite bool_decide_eq_true_2 by done. apply IH.
Qed.

Lemma foldl_to_uint ds a a' :
  to_uint a = to_uint a' →
  to_uint (foldl (λ n d, to_uint (n * 10 + (d - 48))) a ds)
  = to_uint (foldl (λ n d, n * 10 + (d - 48)) a' ds).
Proof.
  revert a a'. induction ds as [| d ds IH]; intros a a' Ha; [done |].
  cbn [foldl]. apply IH. unfold to_uint in *.
  rewrite Z.mod_mod by lia.
  rewrite (Z.add_mod (a * 10)), (Z.add_mod (a' * 10)) by lia.
  rewrite (Z.mul_mod a), (Z.mul_mod a') by lia. by rewrite Ha.
Qed.

Lemma number_wrap ds :
  to_uint (foldl (λ n d, to_uint (n * 10 + (d - 48))) 0 ds - 1)
  = to_uint (number ds - 1).
Proof.
  pose proof (foldl_to_uint ds 0 0 eq_refl) as H. fold (number ds) in H.
  unfold to_uint in *. by rewrite Zminus_mod, H, <- Zminus_mod.
Qed.

(** What [parse_coordinates] can return. *)
Lemma parse_coordinates_Ok mark s r :
  parse_coordinates mark s = Ok r →
  match r with
  | InputTypeCommand c =>
      command_type c = (if mark then CommandTypeMark else CommandTypeReveal) ∧
      0 ≤ command_x c ≤ 25 ∧ 0 ≤ command_y c < 2 ^ 32
  | InputTypeInvalid => True
  | _ => False
  end.
Proof.
  unfold parse_coordinates. intros H.
  apply result_bind_inv in H as (c & _ & H).
  apply result_bind_inv in H as (a & Ha & H).
  destruct a; cbn [negb] in H; [| by injection H as <-].
  apply isalpha_true in Ha.
  apply result_bind_inv in H as (p & Hp & H).
  destruct p as [k |]; [| done].
  apply strchr_Some in Hp as [Hk Hl].
  apply result_bind_inv in H as ([y s'] & _ & H).
  apply result_bind_inv in H as (c' & _ & H).
  destruct (negb (c' =? 0)); injection H as <-; [done |].
  cbn [command_type command_x command_y].
  split; [done |]. split; [| apply to_uint_range].
  assert (Z.to_nat k < length _ascii_upper)%nat as Hlt
    by (by eapply lookup_lt_Some).
  change (length _ascii_upper) with 27%nat in Hlt.
  assert (k ≠ 26) as Hne.
  { intros ->. change (_ascii_upper !! Z.to_nat 26) with (Some 0) in Hl.
    injection Hl as Hl. unfold letter in Ha. unfold to_char in Hl.
    rewrite Z.mod_small in Hl; lia. }
  rewrite to_uint_small; lia.
Qed.

(** On a string of text without lower-case letters it returns. *)
Lemma parse_coordinates_text mark V zs :
  Forall (λ c, text_byte c ∧ ¬ 97 ≤ c ≤ 122) V →
  ∃ r, parse_coordinates mark (V ++ 0 :: zs) = Ok r.
Proof.
  intros HV. unfold parse_coordinates.
  destruct V as [| v V].
  { by eexists. }
  apply Forall_cons in HV as [[Hv Hlow] HV]. unfold text_byte in Hv.
  change (load ((v :: V) ++ 0 :: zs) 0) with (Ok v). cbn [mbind result_bind].
  destruct (isalpha_text v ltac:(lia)) as [a Ha]. rewrite Ha.
  destruct a; cbn [negb]; [| by eexists].
  apply isalpha_true in Ha. unfold letter in Ha.
  rewrite strchr_upper by lia.
  assert (Forall text_byte V) as HV'
    by (eapply Forall_impl; [exact HV |]; by intros c [? _]).
  destruct (read_number_text V zs 0 HV') as (y & c & s' & Hread).
  change (drop 1 ((v :: V) ++ 0 :: zs)) with (V ++ 0 :: zs).
  rewrite Hread. cbn [mbind result_bind negb].
  change (load (c :: s') 0) with (Ok c).
  cbn [mbind result_bind]. destruct (negb (c =? 0)); by eexists.
Qed.

(** A letter and a number. *)
Lemma parse_coordinates_letter mark l ds zs :
  65 ≤ l ≤ 90 → Forall digit ds →
  parse_coordinates mark (l :: ds ++ 0 :: zs)
  = Ok (InputTypeCommand
          (mkCommand (if mark then CommandTypeMark else CommandTypeReveal)
             (l - 65) (to_uint (number ds - 1)))).
Proof.
  intros Hl Hds. unfold parse_coordinates.
  change (load (l :: ds ++ 0 :: zs) 0) with (Ok l). cbn [mbind result_bind].
  rewrite isalpha_letter by (unfold letter; lia). cbn [negb].
  rewrite strchr_upper by done.
  change (drop 1 (l :: ds ++ 0 :: zs)) with (ds ++ 0 :: zs).
  rewrite read_number_digits by done. cbn [mbind result_bind negb].
  change (load (0 :: zs) 0) with (Ok 0). cbn [mbind result_bind].
  rewrite number_wrap. rewrite Z.eqb_refl. cbn [negb].
  by rewrite to_uint_small by lia.
Qed.

Lemma upper_text c :
  line_byte c → text_byte (upper c) ∧ ¬ 97 ≤ upper c ≤ 122.
Proof.
  intros [Hc _]. unfold text_byte, upper.
  destruct (Z.leb_spec 97 c), (Z.leb_spec c 122); cbn; lia.
Qed.

(** The array after the loop of [upcase], and the test for the quit
    words. *)
Lemma parse_command_upcased line zs :
  Forall line_byte line →
  parse_command (line ++ newline :: 0 :: zs)
  = if bool_decide (take 4 ((upper <$> line) ++ [0]) = [81; 0] ∨
                    take 4 ((upper <$> line) ++ [0]) = [81; 85; 73; 84])
    then Ok (InputTypeCommand (mkCommand CommandTypeQuit 0 0))
    else
      c ← load ((upper <$> line) ++ 0 :: 0 :: zs) 0;
      parse_coordinates (c =? 33)
        (if c =? 33 then drop 1 ((upper <$> line) ++ 0 :: 0 :: zs)
         else (upper <$> line) ++ 0 :: 0 :: zs).
Proof.
  intros Hline. unfold parse_command.
  rewrite (upcase_line line zs Hline). cbn [mbind result_bind].
  assert (Forall text_byte (upper <$> line)) as HU.
  { apply Forall_fmap. eapply Forall_impl; [exact Hline |].
    intros c Hc. by apply upper_text. }
  rewrite bytes_Q, bytes_QUIT.
  destruct (strncmp_text 4 (upper <$> line) [81] (0 :: zs) HU
              ltac:(repeat constructor; by vm_compute)) as (q & Hqrun & Hq).
  destruct (strncmp_text 4 (upper <$> line) [81; 85; 73; 84] (0 :: zs) HU
              ltac:(repeat constructor; by vm_compute)) as (q' & Hq'run & Hq').
  change (take 4 ([81] ++ [0])) with [81; 0] in Hq.
  change (take 4 ([81; 85; 73; 84] ++ [0])) with [81; 85; 73; 84] in Hq'.
  change ([81] ++ [0]) with [81; 0] in Hqrun.
  change ([81; 85; 73; 84] ++ [0]) with [81; 85; 73; 84; 0] in Hq'run.
  rewrite Hqrun. cbn [mbind result_bind].
  destruct (Z.eqb_spec q 0) as [Hq0 | Hq0].
  - rewrite bool_decide_eq_true_2 by (left; by apply Hq). done.
  - rewrite Hq'run. cbn [mbind result_bind orb].
    destruct (Z.eqb_spec q' 0) as [Hq'0 | Hq'0].
    + rewrite bool_decide_eq_true_2 by (right; by apply Hq'). done.
    + rewrite bool_decide_eq_false_2; [done |].
      intros [H | H]; [by apply Hq0, Hq | by apply Hq'0, Hq'].
Qed.

(** What [parse_command] can return, whatever the array holds. *)
Lemma parse_command_Ok input r :
  parse_command input = Ok r →
  match r with
  | InputTypeCommand c =>
      0 ≤ command_x c ≤ 25 ∧ 0 ≤ command_y c < 2 ^ 32 ∧
      (command_type c = CommandTypeQuit → command_x c = 0 ∧ command_y c = 0)
  | InputTypeInvalid => True
  | _ => False
  end.
Proof.
  unfold parse_command. intros H.
  apply result_bind_inv in H as (input' & _ & H).
  apply result_bind_inv in H as (q & _ & H).
  apply result_bind_inv in H as (q' & _ & H).
  destruct ((q =? 0) || (q' =? 0)).
  - injection H as <-. cbn. lia.
  - apply result_bind_inv in H as (c & _ & H).
    apply parse_coordinates_Ok in H.
    destruct r as [c' | | |]; try done.
    destruct H as (Ht & Hx & Hy). split; [done |]. split; [done |].
    rewrite Ht. by destruct (c =? 33).
Qed.

(** On a line of text it returns. *)
Lemma parse_command_text line zs :
  Forall line_byte line →
  ∃ r, parse_command (line ++ newline :: 0 :: zs) = Ok r.
Proof.
  intros Hline. rewrite parse_command_upcased by done.
  destruct (bool_decide _); [by eexists |].
  assert (Forall (λ c, text_byte c ∧ ¬ 97 ≤ c ≤ 122) (upper <$> line)) as HU.
  { apply Forall_fmap. eapply Forall_impl; [exact Hline |].
    intros c Hc. by apply upper_text. }
  destruct (upper <$> line) as [| u U] eqn:HeqU.
  { by eexists. }
  change (load ((u :: U) ++ 0 :: 0 :: zs) 0) with (Ok u).
  cbn [mbind result_bind].
  destruct (u =? 33).
  - apply Forall_cons in HU as [_ HU].
    change (drop 1 ((u :: U) ++ 0 :: 0 :: zs)) with (U ++ 0 :: 0 :: zs).
    by apply parse_coordinates_text.
  - by apply parse_coordinates_text.
Qed.

(** ** view_input: the commands *)

Lemma upper_digits ds : Forall digit ds → upper <$> ds = ds.
Proof.
  induction 1 as [| d ds Hd _ IH]; [done |].
  cbn [fmap list_fmap]. fold (upper <$> ds). rewrite IH. f_equal.
  unfold digit in Hd. unfold upper.
  destruct (Z.leb_spec 97 d); [lia | done].
Qed.

Lemma upper_letter l : letter l → 65 ≤ upper l ≤ 90.
Proof.
  unfold letter, upper. intros Hl.
  destruct (Z.leb_spec 97 l), (Z.leb_spec l 122); cbn; lia.
Qed.

Lemma digit_line_byte ds : Forall digit ds → Forall line_byte ds.
Proof.
  intros H. eapply Forall_impl; [exact H |].
  unfold digit, line_byte, newline. intros d Hd. lia.
Qed.

Lemma upper_line_byte_inv line :
  Forall line_byte (upper <$> line) → Forall line_byte line.
Proof.
  intros H. rewrite Forall_fmap in H. eapply Forall_impl; [exact H |].
  intros c. unfold compose, line_byte, upper, newline.
  destruct (Z.leb_spec 97 c), (Z.leb_spec c 122); cbn; lia.
Qed.

(** X12.  A line that holds a letter and at most three digits, or [!], a
    letter and at most two digits, is a command, unless it is the quit
    word [q]: marking after [!] and revealing otherwise, at the column of
    the letter, in either case, counted from zero, and at the row one less
    than the number.  The row is computed on [unsigned int], so a missing
    number and the number zero give the row [2^32 - 1].  The line and its
    newline are taken from the stream. *)
Theorem view_input_coordinates (mark : bool) l ds rest b e err out :
  letter l → Forall digit ds →
  (length ds ≤ if mark then 2 else 3)%nat →
  (mark = false → ds = [] → upper l ≠ 81) →
  view_input
    (mkWorld b
       (mkStdin ((if mark then [33] else []) ++ l :: ds ++ newline :: rest)
          e false err) out)
  = Ok (InputTypeCommand
          (mkCommand (if mark then CommandTypeMark else CommandTypeReveal)
             (upper l - 65) (to_uint (number ds - 1))),
        mkWorld b (mkStdin rest e false err) (out ++ bytes "> ")).
Proof.
  intros Hl Hds Hlen Hquit.
  pose proof (upper_letter l Hl) as HL.
  set (line := (if mark then [33] else []) ++ l :: ds).
  assert (Forall line_byte line) as Hline.
  { unfold line. apply Forall_app. split.
    - destruct mark; repeat constructor; by vm_compute.
    - constructor; [| by apply digit_line_byte].
      unfold letter, line_byte, newline in *. lia. }
  assert (length line ≤ 4)%nat as Hlen4.
  { unfold line. rewrite length_app. destruct mark; cbn [length] in *; lia. }
  replace ((if mark then [33] else []) ++ l :: ds ++ newline :: rest)
    with (line ++ newline :: rest)
    by (unfold line; by rewrite <- (assoc_L (++))).
  rewrite (view_input_line line rest b e err out Hline Hlen4).
  rewrite parse_command_upcased by done.
  assert (upper <$> line = (if mark then [33] else []) ++ upper l :: ds)
    as ->.
  { unfold line. rewrite fmap_app, fmap_cons, (upper_digits ds Hds).
    by destruct mark. }
  rewrite bool_decide_eq_false_2.
  - destruct mark; cbn [app].
    + change (load (33 :: upper l :: ds ++ 0 :: 0 :: _) 0) with (Ok 33).
      cbn [mbind result_bind]. change (33 =? 33) with true. cbv iota.
      change (drop 1 (33 :: upper l :: ds ++ 0 :: 0 ::
                        replicate (4 - length line) 0))
        with (upper l :: ds ++ 0 :: 0 :: replicate (4 - length line) 0).
      by rewrite parse_coordinates_letter.
    + change (load (upper l :: ds ++ 0 :: 0 :: _) 0) with (Ok (upper l)).
      cbn [mbind result_bind].
      destruct (Z.eqb_spec (upper l) 33); [lia |].
      by rewrite parse_coordinates_letter.
  - destruct mark; cbn [app take].
    + by intros [[=] | [=]].
    + destruct ds as [| d ds]; cbn [app take].
      * intros [[= Hq] | [=]]. by apply Hquit.
      * apply Forall_cons in Hds as [Hd _]. unfold digit in Hd.
        intros [[= _ ->] | [= _ ->]]; lia.
Qed.

Lemma view_input_coordinates_witness :
  view_input
    (mkWorld board0
       (mkStdin ((if true then [33] else []) ++ 98 :: [50] ++ newline :: [])
          EndOfFile false false) [])
  = Ok (InputTypeCommand
          (mkCommand (if true then CommandTypeMark else CommandTypeReveal)
             (upper 98 - 65) (to_uint (number [50] - 1))),
        mkWorld board0 (mkStdin [] EndOfFile false false)
          ([] ++ bytes "> ")).
Proof.
  apply (view_input_coordinates true 98 [50]).
  - right. lia.
  - repeat constructor; by vm_compute.
  - cbn. lia.
  - discriminate.
Defined.

(** X13.  The lines [q] and [quit], in any mix of upper and lower case,
    are the quit command, with both coordinates zero. *)
Theorem view_input_quit line rest b e err out :
  upper <$> line = bytes "Q" ∨ upper <$> line = bytes "QUIT" →
  view_input (mkWorld b (mkStdin (line ++ newline :: rest) e false err) out)
  = Ok (InputTypeCommand (mkCommand CommandTypeQuit 0 0),
        mkWorld b (mkStdin rest e false err) (out ++ bytes "> ")).
Proof.
  intros Hq.
  assert (Forall line_byte line ∧ (length line ≤ 4)%nat) as [Hline Hlen].
  { split.
    - apply upper_line_byte_inv.
      destruct Hq as [-> | ->]; repeat constructor; by vm_compute.
    - rewrite <- (length_fmap upper). destruct Hq as [-> | ->]; cbn; lia. }
  rewrite (view_input_line line rest b e err out Hline Hlen).
  rewrite parse_command_upcased by done.
  rewrite bool_decide_eq_true_2; [done |].
  destruct Hq as [-> | ->]; [by left | by right].
Qed.

Lemma view_input_quit_witness :
  view_input
    (mkWorld board0 (mkStdin (bytes "Quit" ++ newline :: bytes "a1")
                       EndOfFile false false) [])
  = Ok (InputTypeCommand (mkCommand CommandTypeQuit 0 0),
        mkWorld board0 (mkStdin (bytes "a1") EndOfFile false false)
          ([] ++ bytes "> ")).
Proof. apply (view_input_quit (bytes "Quit")). right. by vm_compute. Defined.

Lemma io_bind_inv {A B} (m : IO A) (k : A → IO B) w r :
  (m ≫= k) w = Ok r → ∃ a w1, m w = Ok (a, w1) ∧ k a w1 = Ok r.
Proof.
  unfold mbind, IO_bind. destruct (m w) as [[a w1] | |]; [eauto | done | done].
Qed.

Lemma io_lift_inv {A} (r : result A) w a w' :
  io_lift r w = Ok (a, w') → r = Ok a ∧ w' = w.
Proof. destruct r; [| done | done]. by intros [= -> ->]. Qed.

Lemma mret_inv {A} (a a' : A) (w w' : World) :
  (mret a : IO A) w = Ok (a', w') → a' = a ∧ w' = w.
Proof. by intros [= -> ->]. Qed.

(** X16.  Every command that [view_input] returns, whatever bytes the
    stream holds, has a column from 0 to 25 and a row that is a value of
    [unsigned int]; the quit command has both zero.  So the pointer
    difference that gives the column is never taken from a null
    pointer when a command is returned. *)
Theorem view_input_command_range w c w' :
  view_input w = Ok (InputTypeCommand c, w') →
  0 ≤ command_x c ≤ 25 ∧ 0 ≤ command_y c < 2 ^ 32 ∧
  (command_type c = CommandTypeQuit → command_x c = 0 ∧ command_y c = 0).
Proof.
  unfold view_input. intros H.
  apply io_bind_inv in H as ([] & w1 & _ & H).
  apply io_bind_inv in H as (r & w2 & _ & H).
  apply io_bind_inv in H as (err & w3 & _ & H).
  destruct (bool_decide (r = None) && err); [by apply mret_inv in H as [? _] |].
  apply io_bind_inv in H as (eof & w4 & _ & H).
  destruct eof; [by apply mret_inv in H as [? _] |].
  apply io_bind_inv in H as (len & w5 & _ & H).
  apply io_bind_inv in H as (last & w6 & _ & H).
  destruct (negb (last =? newline)).
  - apply io_bind_inv in H as (s & w7 & _ & H).
    apply io_bind_inv in H as (ch & w8 & _ & H).
    destruct (ch =? EOF).
    + apply io_bind_inv in H as (err' & w9 & _ & H).
      apply mret_inv in H as [H _]. by destruct err'.
    + by apply mret_inv in H as [? _].
  - apply io_lift_inv in H as [H _].
    by apply parse_command_Ok in H.
Qed.

Lemma view_input_command_range_witness :
  0 ≤ command_x (mkCommand CommandTypeReveal 2 2) ≤ 25 ∧
  0 ≤ command_y (mkCommand CommandTypeReveal 2 2) < 2 ^ 32 ∧
  (command_type (mkCommand CommandTypeReveal 2 2) = CommandTypeQuit →
   command_x (mkCommand CommandTypeReveal 2 2) = 0 ∧
   command_y (mkCommand CommandTypeReveal 2 2) = 0).
Proof.
  apply (view_input_command_range world_c3 (mkCommand CommandTypeReveal 2 2)
           (mkWorld board0 (mkStdin [] EndOfFile false false) (bytes "> "))).
  vm_compute. reflexivity.
Defined.

(** ** view_input on a stream of text *)

Lemma split_line p :
  Forall text_byte p →
  (∃ line rest, p = line ++ newline :: rest ∧ Forall line_byte line ∧
                Forall text_byte rest) ∨
  Forall line_byte p.
Proof.
  induction 1 as [| c p Hc Hp IH]; [by right |].
  destruct (decide (c = newline)) as [-> | Hnl].
  { left. by exists [], p. }
  assert (line_byte c) as Hlc by done.
  destruct IH as [(line & rest & -> & Hline & Hrest) | Hline].
  - left. exists (c :: line), rest. split; [done |]. split; [| done].
    by constructor.
  - right. by constructor.
Qed.

(** On a stream of text [view_input] returns.  A command or an invalid
    line has taken at least one byte from the stream and left it ready for
    the next line; the other two answers tell how the stream ended. *)
Lemma view_input_text b p e out :
  Forall text_byte p →
  ∃ r w',
    view_input (mkWorld b (mkStdin p e false false) out) = Ok (r, w') ∧
    board w' = b ∧
    match r with
    | InputTypeCommand c =>
        (∃ rest, stdin w' = mkStdin rest e false false ∧
                 Forall text_byte rest ∧ (length rest < length p)%nat) ∧
        0 ≤ command_x c ≤ 25 ∧ 0 ≤ command_y c < 2 ^ 32
    | InputTypeInvalid =>
        ∃ rest, stdin w' = mkStdin rest e false false ∧
                Forall text_byte rest ∧ (length rest < length p)%nat
    | InputTypeEof => e = EndOfFile
    | InputTypeError => e = ReadError
    end.
Proof.
  intros Hp.
  destruct (split_line p Hp) as [(line & rest & -> & Hline & Hrest) | Hline].
  - assert (length rest < length (line ++ newline :: rest))%nat as Hshort
      by (rewrite length_app; cbn; lia).
    destruct (decide (length line ≤ 4)%nat) as [Hlen | Hlen].
    + rewrite (view_input_line line rest b e false out Hline Hlen).
      destruct (parse_command_text line (replicate (4 - length line) 0) Hline)
        as [r Hr].
      rewrite Hr. pose proof (parse_command_Ok _ _ Hr) as Hres.
      eexists _, _. split; [reflexivity |]. split; [done |].
      destruct r as [c | | |]; try done.
      * split; [by exists rest |]. by destruct Hres as (? & ? & _).
      * by exists rest.
    + destruct (line_split5 line ltac:(lia))
        as (c1 & c2 & c3 & c4 & c5 & tail & ->).
      change (Forall line_byte ([c1; c2; c3; c4; c5] ++ tail)) in Hline.
      apply Forall_app in Hline as [H5 Htail].
      cbn [app]. rewrite view_input_overflow by done.
      io_run (skip_line_newline (S (length (tail ++ newline :: rest))) tail
                rest b e false (out ++ bytes "> ") Htail
                ltac:(rewrite length_app; lia)).
      eexists _, _. split; [reflexivity |]. split; [done |]. by exists rest.
  - destruct (decide (length p < 5)%nat) as [Hlen | Hlen].
    + rewrite (view_input_short_end p b e out Hline Hlen).
      eexists _, _. split; [reflexivity |]. split; [done |]. by destruct e.
    + destruct (line_split5 p ltac:(lia))
        as (c1 & c2 & c3 & c4 & c5 & tail & ->).
      change (Forall line_byte ([c1; c2; c3; c4; c5] ++ tail)) in Hline.
      apply Forall_app in Hline as [H5 Htail].
      rewrite view_input_overflow by done.
      io_run (skip_line_end (S (length tail)) tail b e false
                (out ++ bytes "> ") Htail ltac:(lia)).
      destruct e; eexists _, _; (split; [reflexivity |]); by split.
Qed.

(** ** The game loop *)

Lemma game_loop_text fuel b p e out :
  reachable b → Forall text_byte p → (length p < fuel)%nat →
  ∃ code w',
    game_loop fuel (mkWorld b (mkStdin p e false false) out) = Ok (code, w') ∧
    (code = 0 ∨ code = 1 ∧ e = ReadError) ∧
    reachable (board w').
Proof.
  revert b p out. induction fuel as [| fuel IH]; intros b p out Hb Hp Hfuel;
    [lia |].
  pose proof (reachable_wf b Hb) as Hwf.
  destruct (view_input_text b p e out Hp) as (r & w1 & Hrun & Hb1 & Hr).
  cbn [game_loop]. io_run Hrun.
  destruct w1 as [b1 s1 out1]. cbn [board stdin] in Hb1, Hr. subst b1.
  destruct r as [c | | |].
  - destruct Hr as ((rest & -> & Hrest & Hlen) & Hx & Hy).
    io_run (on_board_run get_size (size b) b
              (mkWorld b (mkStdin rest e false false) out1) eq_refl).
    cbn [board stdin stdout].
    destruct (Z.geb_spec (command_x c) (size b)) as [Hxs | Hxs];
      [| destruct (Z.geb_spec (command_y c) (size b)) as [Hys | Hys]];
      cbn [orb].
    1, 2: io_run (printf_run (bytes "Co-ordinates not valid." ++ [newline]) b
                    (mkStdin rest e false false) out1);
          apply IH; [done | done | lia].
    assert (in_range b (command_x c) (command_y c)) as Hin
      by (split; lia).
    destruct (command_type c).
    + eexists _, _. split; [reflexivity |]. split; [by left | done].
    + destruct (board_reveal_opened b _ _ Hwf Hin) as (b' & Hrev & _).
      assert (reachable b') as Hb' by (by eapply reachable_reveal).
      pose proof (reachable_wf b' Hb') as Hwf'.
      io_run (on_board_run _ tt b'
                (mkWorld b (mkStdin rest e false false) out1) Hrev).
      cbn [board stdin stdout].
      io_run (view_draw_run b' Hwf' (mkStdin rest e false false) out1).
      destruct (board_check_game_state_spec b' Hwf') as (g & Hg & _).
      io_run (on_board_run _ g b'
                (mkWorld b' (mkStdin rest e false false)
                   (out1 ++ picture b')) Hg).
      cbn [board stdin stdout].
      destruct g.
      * apply IH; [done | done | lia].
      * eexists _, _. split; [reflexivity |]. split; [by left | done].
      * eexists _, _. split; [reflexivity |]. split; [by left | done].
    + destruct (overlay_at_is_Some b _ _ Hwf Hin) as [o Ho].
      pose proof (board_mark_run b _ _ o Hwf Hin Ho) as Hmark.
      set (b' := mkBoard _ _ _) in Hmark.
      assert (reachable b') as Hb' by (by eapply reachable_mark).
      pose proof (reachable_wf b' Hb') as Hwf'.
      io_run (on_board_run _ tt b'
                (mkWorld b (mkStdin rest e false false) out1) Hmark).
      cbn [board stdin stdout].
      io_run (view_draw_run b' Hwf' (mkStdin rest e false false) out1).
      apply IH; [done | done | lia].
  - destruct Hr as (rest & -> & Hrest & Hlen).
    io_run (printf_run (bytes "I didn't understand that." ++ [newline]) b
              (mkStdin rest e false false) out1).
    apply IH; [done | done | lia].
  - eexists _, _. split; [reflexivity |]. split; [by left | done].
  - eexists _, _. split; [reflexivity |]. split; [by right | done].
Qed.

(** ** The options of the program *)

(** Induction over a list taken two elements at a time, as the loop over
    the arguments takes them. *)
Lemma list_pair_ind {A} (P : list A → Prop) :
  P [] → (∀ a, P [a]) → (∀ a v l, P l → P (a :: v :: l)) → ∀ l, P l.
Proof.
  intros H0 H1 H2. fix IH 1. intros [| a [| v l]]; [done | done |].
  apply H2, IH.
Qed.

(** The loop over the arguments leaves the board and [stdin] alone.  It
    leaves for the end of [main] with an exit code of 0 or 1, or it ends
    with a size from 1 to 26 and at most [MAX_BOARD_AREA] mines, and then
    it has printed nothing. *)
Lemma main_options_spec strtoumax args size mines w r w' :
  main_options strtoumax args size mines w = Ok (r, w') →
  1 ≤ size ≤ MAX_BOARD_SIZE → 0 ≤ mines ≤ MAX_BOARD_AREA →
  board w' = board w ∧ stdin w' = stdin w ∧
  match r with
  | inl code => code = 0 ∨ code = 1
  | inr (s, m) => 1 ≤ s ≤ MAX_BOARD_SIZE ∧ 0 ≤ m ≤ MAX_BOARD_AREA ∧ w' = w
  end.
Proof.
  revert size mines.
  induction args as [| a | a v args IH] using list_pair_ind;
    intros size mines Hrun Hsize Hmines.
  - by injection Hrun as <- <-.
  - cbn [main_options] in Hrun.
    destruct (streq a "-s" || streq a "--size"); [done |].
    destruct (streq a "-m" || streq a "--mines"); [done |].
    destruct (streq a "-h" || streq a "--help");
      injection Hrun as <- <-; cbn; auto.
  - cbn [main_options] in Hrun.
    destruct (streq a "-s" || streq a "--size").
    { destruct (Z.ltb_spec (to_umax (strtoumax v).1) 1);
        [injection Hrun as <- <-; cbn; auto |].
      destruct (Z.gtb_spec (to_umax (strtoumax v).1) MAX_BOARD_SIZE);
        [injection Hrun as <- <-; cbn; auto |].
      cbn [orb] in Hrun. apply (IH _ _ Hrun); [lia | done]. }
    destruct (streq a "-m" || streq a "--mines").
    { destruct (negb ((strtoumax v).2 =? 0));
        [injection Hrun as <- <-; cbn; auto |].
      apply (IH _ _ Hrun); [done |].
      assert (0 ≤ to_umax (strtoumax v).1)
        by (unfold to_umax; apply Z.mod_pos_bound; lia).
      destruct (Z.gtb_spec (to_umax (strtoumax v).1) MAX_BOARD_AREA);
        rewrite ?MAX_BOARD_AREA_eq in *; lia. }
    destruct (streq a "-h" || streq a "--help");
      injection Hrun as <- <-; cbn; auto.
Qed.

(** It returns unless it is at a last argument that wants a value. *)
Lemma main_options_defined strtoumax args size mines w :
  (∀ a, last args = Some a → value_option a = false) →
  ∃ r w', main_options strtoumax args size mines w = Ok (r, w').
Proof.
  revert size mines.
  induction args as [| a | a v args IH] using list_pair_ind;
    intros size mines Hlast.
  - by eexists _, _.
  - pose proof (Hlast a eq_refl) as Ha. unfold value_option in Ha.
    apply orb_false_elim in Ha as [Ha Ha4].
    apply orb_false_elim in Ha as [Ha Ha3].
    apply orb_false_elim in Ha as [Ha1 Ha2].
    cbn [main_options]. rewrite Ha1, Ha2, Ha3, Ha4. cbn [orb].
    destruct (streq a "-h" || streq a "--help"); by eexists _, _.
  - assert (∀ size mines,
              ∃ r w', main_options strtoumax args size mines w = Ok (r, w'))
      as Hrest.
    { intros size' mines'. apply IH. intros a' Ha'. apply Hlast.
      destruct args as [| v' args]; [done |]. by rewrite !last_cons_cons. }
    cbn [main_options].
    destruct (streq a "-s" || streq a "--size").
    { destruct ((_ <? 1) || (_ >? MAX_BOARD_SIZE)); [by eexists _, _ |].
      apply Hrest. }
    destruct (streq a "-m" || streq a "--mines").
    { destruct (negb (_ =? 0)); [by eexists _, _ |]. apply Hrest. }
    destruct (streq a "-h" || streq a "--help"); by eexists _, _.
Qed.



(** X18.  A size or mines option that is the last argument has no value:
    [argv[argc]] is a null pointer, and handing it to [strtoumax] is not
    defined.  This is where [main] ends up when the options before the
    last one are accepted. *)
Theorem main_missing_value strtoumax rand prog args a w r w' :
  main_options strtoumax args 6 6 w = Ok (inr r, w') →
  value_option a = true →
  main strtoumax rand (prog :: args ++ [a]) w = Undefined.
Proof.
  intros Hrun Ha. unfold main.
  change (drop 1 (prog :: args ++ [a])) with (args ++ [a]).
  assert (main_options strtoumax (args ++ [a]) 6 6 w = Undefined) as Hopt.
  { revert Hrun. generalize 6 at 1 3. generalize 6.
    induction args as [| a1 | a1 v args IH] using list_pair_ind;
      intros mines size Hrun.
    - cbn [app main_options]. unfold value_option in Ha.
      destruct (streq a "-s" || streq a "--size"); [done |].
      cbn [orb] in Ha. by rewrite Ha.
    - cbn [main_options] in Hrun.
      destruct (streq a1 "-s" || streq a1 "--size"); [done |].
      destruct (streq a1 "-m" || streq a1 "--mines"); [done |].
      by destruct (streq a1 "-h" || streq a1 "--help").
    - cbn [app main_options] in Hrun |- *.
      destruct (streq a1 "-s" || streq a1 "--size").
      { destruct ((_ <? 1) || (_ >? MAX_BOARD_SIZE)); [done |].
        by apply IH. }
      destruct (streq a1 "-m" || streq a1 "--mines").
      { destruct (negb (_ =? 0)); [done |]. by apply IH. }
      by destruct (streq a1 "-h" || streq a1 "--help"). }
  unfold mbind at 1. unfold IO_bind. by rewrite Hopt.
Qed.

Lemma main_missing_value_witness :
  main strtoumax_decimal rand_zero
    (bytes "minesweeper" :: [bytes "-m"; bytes "3"] ++ [bytes "--size"])
    world_c3
  = Undefined.
Proof.
  apply (main_missing_value strtoumax_decimal rand_zero (bytes "minesweeper")
           [bytes "-m"; bytes "3"] (bytes "--size") world_c3 (6, 3) world_c3).
  - vm_compute. reflexivity.
  - vm_compute. reflexivity.
Defined.

(** ** The whole program *)

(** X19.  On an input of text, with arguments that do not end in an
    option without its value, [main] returns: no array is read or
    written outside its bounds, no assertion fails, and the game loop
    ends, at the latest when the input does.  The exit code is 0 or 1,
    and it is 1 only after a read error or for arguments that were
    rejected.  The board is untouched or a board of a game: it was
    initialised once and then only revealed and marked at coordinates of
    the board. *)
Theorem main_returns strtoumax rand argv p e out :
  Forall text_byte p →
  (∀ a, last (drop 1 argv) = Some a → value_option a = false) →
  ∃ code w',
    main strtoumax rand argv (mkWorld board0 (mkStdin p e false false) out)
    = Ok (code, w') ∧
    (code = 0 ∨ code = 1) ∧
    (code = 1 →
     e = ReadError ∨
     ∃ w1, main_options strtoumax (drop 1 argv) 6 6
             (mkWorld board0 (mkStdin p e false false) out)
           = Ok (inl 1, w1)) ∧
    (board w' = board0 ∨ reachable (board w')).
Proof.
  intros Hp Hlast. set (w := mkWorld board0 (mkStdin p e false false) out).
  destruct (main_options_defined strtoumax (drop 1 argv) 6 6 w Hlast)
    as (r & w1 & Hopt).
  destruct (main_options_spec _ _ _ _ _ _ _ Hopt)
    as (Hb1 & Hs1 & Hr).
  { unfold MAX_BOARD_SIZE. lia. }
  { rewrite MAX_BOARD_AREA_eq. lia. }
  unfold main. io_run Hopt.
  destruct r as [code | [size mines]].
  - exists code, w1. split; [done |]. split; [done |].
    split; [| by left]. intros ->. right. by exists w1.
  - destruct Hr as (Hsize & Hmines & ->).
    unfold MAX_BOARD_SIZE in Hsize. rewrite MAX_BOARD_AREA_eq in Hmines.
    rewrite to_u8_small, to_u16_small by lia.
    destruct (board_init_returns size mines rand board0)
      as (b & Hinit & _);
      [unfold MAX_BOARD_SIZE; lia | by rewrite MAX_BOARD_AREA_eq
       | apply wf_board0 | apply wf_board0 |].
    assert (reachable b) as Hb by (by eapply reachable_init).
    io_run (on_board_run _ tt b w Hinit). cbn [stdin stdout w].
    io_run (view_draw_run b (reachable_wf b Hb) (mkStdin p e false false)
              out).
    io_run (get_stdin_run b (mkStdin p e false false) (out ++ picture b)).
    cbn [pending].
    destruct (game_loop_text (S (length p)) b p e (out ++ picture b) Hb Hp
                ltac:(lia)) as (code & w' & Hloop & Hcode & Hb').
    exists code, w'. split; [done |]. split; [| split; [| by right]].
    + destruct Hcode as [-> | [-> _]]; auto.
    + intros ->. destruct Hcode as [? | [_ ->]]; [done | by left].
Qed.

Lemma main_returns_witness :
  ∃ code w',
    main strtoumax_decimal rand_zero
      [bytes "minesweeper"; bytes "-s"; bytes "3"]
      (mkWorld board0
         (mkStdin (bytes "c3" ++ [newline]) EndOfFile false false) [])
    = Ok (code, w') ∧
    (code = 0 ∨ code = 1) ∧
    (code = 1 →
     EndOfFile = ReadError ∨
     ∃ w1, main_options strtoumax_decimal
             (drop 1 [bytes "minesweeper"; bytes "-s"; bytes "3"]) 6 6
             (mkWorld board0
                (mkStdin (bytes "c3" ++ [newline]) EndOfFile false false) [])
           = Ok (inl 1, w1)) ∧
    (board w' = board0 ∨ reachable (board w')).
Proof.
  apply (main_returns strtoumax_decimal rand_zero
           [bytes "minesweeper"; bytes "-s"; bytes "3"]
           (bytes "c3" ++ [newline]) EndOfFile []).
  - repeat constructor; by vm_compute.
  - intros a [= <-]. by vm_compute.
Defined.

(** * A board without mines *)

(** From a Visible empty cell the flood has reached every cell of the
    board, a step at a time through the blocks around empty cells. *)
Lemma flood_covers b x y :
  wf b → closed_except (λ _ _, False) b →
  (∀ x' y', in_range b x' y' → cell_at b x' y' = Some CELL_EMPTY) →
  (∀ x' y' o, in_range b x' y' → overlay_at b x' y' = Some o →
              o ≠ OverlayCellHidden → o = OverlayCellVisible) →
  in_range b x y → overlay_at b x y = Some OverlayCellVisible →
  ∀ (k : nat) x' y',
    in_range b x' y' →
    Z.abs (x' - x) ≤ Z.of_nat k → Z.abs (y' - y) ≤ Z.of_nat k →
    overlay_at b x' y' ≠ Some OverlayCellHidden.
Proof.
  intros Hwf Hcl Hempty Hvis Hr Ho k.
  induction k as [| k IH]; intros x' y' Hr' Hx Hy.
  - assert (x' = x) as -> by lia. assert (y' = y) as -> by lia. congruence.
  - set (x1 := if decide (x < x') then x' - 1
               else if decide (x' < x) then x' + 1 else x').
    set (y1 := if decide (y < y') then y' - 1
               else if decide (y' < y) then y' + 1 else y').
    destruct Hr as [Hrx Hry], Hr' as [Hrx' Hry'].
    assert (in_range b x1 y1 ∧ adjacent x1 y1 x' y' ∧
            Z.abs (x1 - x) ≤ Z.of_nat k ∧ Z.abs (y1 - y) ≤ Z.of_nat k)
      as (Hr1 & Hadj & Hx1 & Hy1).
    { unfold x1, y1, in_range, adjacent.
      repeat case_decide; lia. }
    pose proof (IH x1 y1 Hr1 Hx1 Hy1) as Hnh.
    destruct (overlay_at_is_Some b x1 y1 Hwf Hr1) as [o Ho1].
    assert (o = OverlayCellVisible) as ->
      by (apply (Hvis x1 y1 o Hr1 Ho1); congruence).
    apply (Hcl x1 y1 x' y' Hr1 Ho1 (Hempty x1 y1 Hr1) ltac:(tauto)
             ltac:(by split) Hadj).
Qed.

Lemma reveal_all_empty b x y :
  wf b → all_hidden b →
  (∀ x' y', in_range b x' y' → cell_at b x' y' = Some CELL_EMPTY) →
  in_range b x y →
  ∃ b', (board_reveal x y;; board_check_game_state) b
        = Ok (GameStateWon, b') ∧
        ∀ x' y', in_range b x' y' →
                 overlay_at b' x' y' = Some OverlayCellVisible.
Proof.
  intros Hwf Hall Hempty Hr.
  assert (closed_except (λ _ _, False) b) as Hcl.
  { intros x1 y1 x2 y2 _ Hv. exfalso.
    pose proof (proj1 (Forall_lookup _ _) Hall _ _ Hv). done. }
  destruct (board_reveal_spec b x y (λ _ _, True) (λ _ _, False) Hwf Hr
              (spreads_all b) I Hcl)
    as ([] & b' & Hrun & Hop & Hnh & Hcl' & _).
  assert (wf b') as Hwf' by (by eapply opened_wf).
  assert (∀ x' y' o, in_range b' x' y' → overlay_at b' x' y' = Some o →
                     o ≠ OverlayCellHidden → o = OverlayCellVisible) as Hvis.
  { intros x' y' o _ Ho Hne. unfold overlay_at in Ho.
    destruct (opened_overlay _ _ _ Hop (idx b' x' y')) as [Heq | (_ & Hv & _)];
      [| congruence].
    rewrite Heq in Ho.
    by pose proof (proj1 (Forall_lookup _ _) Hall _ _ Ho). }
  assert (∀ x' y', in_range b' x' y' → cell_at b' x' y' = Some CELL_EMPTY)
    as Hempty'.
  { intros x' y' Hr'. rewrite (opened_cell_at _ _ _ _ _ Hop).
    by apply Hempty, (opened_in_range _ _ _ x' y' Hop). }
  assert (in_range b' x y) as Hr' by (by apply (opened_in_range _ _ _ x y Hop)).
  assert (∀ x' y', in_range b x' y' →
                   overlay_at b' x' y' = Some OverlayCellVisible) as Hopen.
  { intros x' y' Hr1. apply (opened_in_range _ _ _ x' y' Hop) in Hr1.
    destruct (overlay_at_is_Some b' x y Hwf' Hr') as [o Ho].
    assert (o = OverlayCellVisible) as ->
      by (apply (Hvis x y o Hr' Ho); congruence).
    destruct (overlay_at_is_Some b' x' y' Hwf' Hr1) as [o' Ho'].
    rewrite Ho'. f_equal. apply (Hvis x' y' o' Hr1 Ho').
    intros ->.
    apply (flood_covers b' x y Hwf' Hcl' Hempty' Hvis Hr' Ho
             (Z.to_nat (size b')) x' y' Hr1); [| | done];
      destruct Hr' as [? ?], Hr1 as [? ?]; lia. }
  exists b'. split; [| done].
  erewrite bind_run by exact Hrun.
  apply board_check_game_state_won_iff; [done |]. split.
  - intros x' y' Hr1 [Hc _]. rewrite (Hempty' x' y' Hr1) in Hc. done.
  - intros x' y' Hr1 [_ Ho].
    apply (opened_in_range _ _ _ x' y' Hop) in Hr1.
    rewrite (Hopen x' y' Hr1) in Ho. done.
Qed.

Lemma no_mine_cells b n :
  mine_count b = 0%nat → cells b !! n ≠ Some CELL_MINE.
Proof.
  unfold mine_count. intros Hcount Hn.
  assert (CELL_MINE ∈ filter (λ c, c = CELL_MINE) (cells b)) as Hin.
  { apply list_elem_of_filter. split; [done |].
    by eapply list_elem_of_lookup_2. }
  destruct (filter _ _); [by apply elem_of_nil in Hin | done].
Qed.

Lemma mine_at_none b x y :
  (∀ n, cells b !! n ≠ Some CELL_MINE) → mine_at b x y = 0.
Proof.
  intros Hnone. unfold mine_at.
  rewrite (bool_decide_eq_false_2 (cell_at b x y = Some CELL_MINE))
    by apply Hnone.
  by rewrite andb_false_r.
Qed.

(** X20.  A game without mines is won by its first reveal: after
    [board_init] with no mines, a reveal at any cell of the board makes
    every cell Visible, and the query that follows answers
    [GameStateWon]. *)
Theorem no_mines_first_reveal_wins sz rand x y :
  1 ≤ sz ≤ MAX_BOARD_SIZE → 0 ≤ x < sz → 0 ≤ y < sz →
  ∃ b',
    (board_init sz 0 rand;; board_reveal x y;; board_check_game_state) board0
    = Ok (GameStateWon, b') ∧
    size b' = sz ∧
    ∀ x' y', 0 ≤ x' < sz → 0 ≤ y' < sz →
             overlay_at b' x' y' = Some OverlayCellVisible.
Proof.
  intros Hsz Hx Hy.
  destruct (board_init_returns sz 0 rand board0 ltac:(lia)
              ltac:(rewrite MAX_BOARD_AREA_eq; lia)
              (wf_cells _ wf_board0) (wf_overlay _ wf_board0))
    as (b & Hinit & Hcount).
  destruct (board_init_numbered sz 0 rand board0 b ltac:(lia)
              (wf_cells _ wf_board0) (wf_overlay _ wf_board0) Hinit)
    as (Hwf & Hsize & Hnum & Hov).
  assert (mine_count b = 0%nat) as Hzero by nia.
  assert (all_hidden b) as Hall.
  { unfold all_hidden. rewrite Hov.
    apply overlay_reset_hidden, all_hidden_board0. }
  assert (∀ x' y', in_range b x' y' → cell_at b x' y' = Some CELL_EMPTY)
    as Hempty.
  { intros x' y' Hr'.
    destruct (cell_at_is_Some b x' y' Hwf Hr') as [c Hc].
    rewrite Hc. f_equal.
    rewrite (Hnum x' y' c Hr' Hc)
      by (intros ->; by apply (no_mine_cells b (idx b x' y') Hzero)).
    unfold neighbour_mines.
    by rewrite !mine_at_none by (intros n; by apply no_mine_cells). }
  destruct (reveal_all_empty b x y Hwf Hall Hempty)
    as (b' & Hrun & Hopen).
  { unfold in_range. rewrite Hsize. done. }
  exists b'. split; [by erewrite bind_run by exact Hinit |].
  assert (size b' = size b) as Hsize'.
  { apply bind_inv in Hrun as ([] & b1 & Hrev & Hchk).
    destruct (board_reveal_opened b x y Hwf) as (b2 & Hrev2 & Hop & _).
    { unfold in_range. rewrite Hsize. done. }
    rewrite Hrev in Hrev2. injection Hrev2 as <-.
    assert (wf b1) as Hwf1 by (by eapply opened_wf).
    destruct (board_check_game_state_spec b1 Hwf1) as (g & Hg & _).
    rewrite Hchk in Hg. injection Hg as _ ->. apply Hop. }
  split; [congruence |].
  intros x' y' Hx' Hy'. apply Hopen. unfold in_range. rewrite Hsize. done.
Qed.

Lemma no_mines_first_reveal_wins_witness :
  ∃ b',
    (board_init 3 0 rand_zero;; board_reveal 1 1;; board_check_game_state)
      board0
    = Ok (GameStateWon, b') ∧
    size b' = 3 ∧
    ∀ x' y', 0 ≤ x' < 3 → 0 ≤ y' < 3 →
             overlay_at b' x' y' = Some OverlayCellVisible.
Proof.
  apply (no_mines_first_reveal_wins 3 rand_zero 1 1);
    [unfold MAX_BOARD_SIZE; lia | lia | lia].
Defined.

(** * Bytes that are not text *)

Lemma skip_line_255 fuel line rest b e err out :
  Forall line_byte line → (length line < fuel)%nat →
  skip_line fuel (mkWorld b (mkStdin (line ++ 255 :: rest) e false err) out)
  = Ok (EOF, mkWorld b (mkStdin rest e false err) out).
Proof.
  revert fuel. induction line as [| c line IH]; intros fuel Hline Hk.
  - destruct fuel as [| fuel]; [cbn in Hk; lia |]. done.
  - destruct fuel as [| fuel]; [cbn in Hk; lia |].
    apply Forall_cons in Hline as [[Hc Hnl] Hline].
    cbn [skip_line app].
    rewrite (io_bind_run _ _ _ _ _ (getc_cons _ _ _ _ _ _)).
    rewrite text_byte_u8, text_byte_char by lia.
    destruct (Z.eqb_spec c newline); [done |].
    destruct (Z.eqb_spec c EOF); [unfold EOF in *; lia |].
    cbn [negb andb]. apply IH; [done | cbn in Hk; lia].
Qed.

(** X21.  The loop that drops the rest of a long line keeps the result of
    [getc] in a [char], where the byte 255 is equal to [EOF]: such a byte
    after the fifth character of a line stops the loop, and [view_input]
    answers [InputTypeEof] although the stream has not ended and its
    end-of-file indicator is clear. *)
Theorem view_input_byte_255 line rest b e out :
  Forall line_byte line → (5 ≤ length line)%nat →
  view_input (mkWorld b (mkStdin (line ++ 255 :: rest) e false false) out)
  = Ok (InputTypeEof,
        mkWorld b (mkStdin rest e false false) (out ++ bytes "> ")).
Proof.
  intros Hline Hlen.
  destruct (line_split5 line Hlen) as (c1 & c2 & c3 & c4 & c5 & tail & ->).
  change (Forall line_byte ([c1; c2; c3; c4; c5] ++ tail)) in Hline.
  apply Forall_app in Hline as [H5 Htail].
  cbn [app]. rewrite view_input_overflow by done.
  by io_run (skip_line_255 (S (length (tail ++ 255 :: rest))) tail rest b e
               false (out ++ bytes "> ") Htail
               ltac:(rewrite length_app; lia)).
Qed.

Lemma view_input_byte_255_witness :
  view_input
    (mkWorld board0
       (mkStdin (bytes "reveal" ++ 255 :: bytes "a1") EndOfFile false false)
       [])
  = Ok (InputTypeEof,
        mkWorld board0 (mkStdin (bytes "a1") EndOfFile false false)
          ([] ++ bytes "> ")).
Proof.
  apply (view_input_byte_255 (bytes "reveal")).
  - repeat constructor; by vm_compute.
  - apply Nat.leb_le. by vm_compute.
Defined.

(** X22.  A line that starts with a NUL byte leaves an empty string in
    the array: [strlen(input) - 1] wraps around, and the test for the
    newline reads outside the array. *)
Theorem view_input_nul_line line rest b e err out :
  Forall line_byte line → (length line ≤ 3)%nat →
  view_input
    (mkWorld b (mkStdin (0 :: line ++ newline :: rest) e false err) out)
  = Undefined.
Proof.
  intros Hline Hlen. unfold view_input.
  io_run (printf_run (bytes "> ") b
            (mkStdin (0 :: line ++ newline :: rest) e false err) out).
  assert (fgets (replicate 6 0) 6
            (mkWorld b (mkStdin (0 :: line ++ newline :: rest) e false err)
               (out ++ bytes "> "))
          = Ok (Some (0 :: line ++ newline :: 0
                        :: replicate (3 - length line) 0),
                mkWorld b (mkStdin rest e false err) (out ++ bytes "> ")))
    as Hfgets.
  { assert (fgets_chars 5
              (mkWorld b (mkStdin (0 :: line ++ newline :: rest) e false err)
                 (out ++ bytes "> "))
            = Ok ((0 :: line ++ [newline], false),
                  mkWorld b (mkStdin rest e false err) (out ++ bytes "> ")))
      as Hchars.
    { cbn [fgets_chars].
      rewrite (io_bind_run _ _ _ _ _ (read_byte_cons _ _ _ _ _ _)).
      change (to_u8 0 =? newline) with false. cbv iota.
      by rewrite (io_bind_run _ _ _ _ _
                    (fgets_chars_line 4 line rest b e err (out ++ bytes "> ")
                       Hline ltac:(lia))). }
    unfold fgets. change (Z.to_nat (6 - 1)) with 5%nat.
    io_run Hchars. cbn. unfold mret, IO_ret. do 4 f_equal.
    destruct line as [| c1 [| c2 [| c3 [| c4 line]]]];
      cbn in Hlen; try lia; done. }
  io_run Hfgets.
  io_run (ferror_run b rest e false err (out ++ bytes "> ")).
  rewrite bool_decide_eq_false_2 by done. cbn [andb].
  by io_run (feof_run b rest e false err (out ++ bytes "> ")).
Qed.

Lemma view_input_nul_line_witness :
  view_input
    (mkWorld board0
       (mkStdin (0 :: bytes "a1" ++ newline :: []) EndOfFile false false) [])
  = Undefined.
Proof.
  apply (view_input_nul_line (bytes "a1")).
  - repeat constructor; by vm_compute.
  - apply Nat.leb_le. by vm_compute.
Defined.
